(** * The stepping engine of [run_abm_no_social_updates.py]

    A shallow embedding of the agent-based migration model: the location
    graph with its per-step scoring, the social links of the agents, the
    movement policy, the batch executor and the merge performed by
    [Sim.step].

    Conventions of the embedding.
    - Python integers are [Z]; agent indices, which the source only ever
      obtains from [enumerate], [range] and [random.randint(0, _)], are [nat].
    - Python floats are idealised as exact rationals [Q]; a statement about
      the value of a float computation is made for the computations in
      which no double is rounded ([double53]), where the two agree.
    - A [dict] is an association list in insertion order.
    - The module-level generator of [random] is a tape of raw draws with a
      read position; every call of [random.random] or [random.randint]
      consumes one cell.
    - A computation that can raise returns [res]; the [while] loops of the
      link construction take fuel and return [OutOfFuel] when it is spent.
    - Node weights and counts are Python integers, as the test branch of the
      script assigns them, so a division by zero raises.
    - Every worker of the pool owns a generator, given per chunk by [wr]:
      a worker forked from the parent begins with the parent's generator,
      and a worker that takes a further chunk goes on with its own.
      [pool.map] returns the results in chunk order and re-raises the
      exception of the first chunk that failed. *)

From Stdlib Require Import List ZArith QArith String Bool Lia Arith.
Import ListNotations.

Set Implicit Arguments.

(** ** Exceptions and results *)

Inductive exn : Type :=
| ValueError
| ZeroDivisionError
| KeyError
| IndexError
| TypeError
| AttributeError
| NetworkXError.

Inductive res (A : Type) : Type :=
| Done (a : A)
| Raise (e : exn)
| OutOfFuel.

Arguments Done {A} a.
Arguments Raise {A} e.
Arguments OutOfFuel {A}.

Definition bind {A B : Type} (m : res A) (k : A -> res B) : res B :=
  match m with
  | Done a => k a
  | Raise e => Raise e
  | OutOfFuel => OutOfFuel
  end.

Notation "x <- m ;; k" := (bind m (fun x => k))
  (at level 61, m at next level, right associativity).
Notation "' p <- m ;; k" := (bind m (fun x => match x with p => k end))
  (at level 61, p pattern, m at next level, right associativity).

(** ** Node identifiers

    District names in the production graph, integers [0 .. n-1] in the test
    graph built by [nx.fast_gnp_random_graph]. *)

Inductive NodeId : Type :=
| NInt (z : Z)
| NStr (s : string).

Definition node_eqb (a b : NodeId) : bool :=
  match a, b with
  | NInt x, NInt y => Z.eqb x y
  | NStr s, NStr t => String.eqb s t
  | _, _ => false
  end.

(** Python truth value of a node identifier, as tested by [if new_node:]. *)
Definition truthy (n : NodeId) : bool :=
  match n with
  | NInt z => negb (Z.eqb z 0)
  | NStr s => negb (String.eqb s EmptyString)
  end.

(** ** Dictionaries *)

Section Dict.
Variable V : Type.

Fixpoint lookup (k : NodeId) (d : list (NodeId * V)) : option V :=
  match d with
  | [] => None
  | (k', v) :: rest => if node_eqb k k' then Some v else lookup k rest
  end.

Definition keys (d : list (NodeId * V)) : list NodeId := map fst d.
Definition values (d : list (NodeId * V)) : list V := map snd d.
End Dict.

(** [d[k] += delta] on a dictionary that holds [k]. *)
Definition dict_add (k : NodeId) (delta : Z) (d : list (NodeId * Z))
  : list (NodeId * Z) :=
  map (fun kv => if node_eqb k (fst kv) then (fst kv, (snd kv + delta)%Z) else kv) d.

(** [d[k] = 1] on a dictionary used as a set of agent indices. *)
Definition dict_set (k : nat) (d : list nat) : list nat :=
  if existsb (Nat.eqb k) d then d else d ++ [k].

(** ** The pseudo-random stream *)

Record Rng : Type := mkRng { tape : nat -> Z; pos : nat }.

Definition draw (r : Rng) : Z * Rng :=
  (tape r (pos r), mkRng (tape r) (S (pos r))).

Definition two53 : positive := 9007199254740992%positive.

(** [random.random()]: a 53-bit integer over [2^53], in [[0,1)]. *)
Definition random_random (r : Rng) : Q * Rng :=
  let (z, r') := draw r in (Qmake (z mod Zpos two53) two53, r').

(** [random.randint(a, b)]: [ValueError] on an empty range. *)
Definition randint (a b : Z) (r : Rng) : res (Z * Rng) :=
  if (b <? a)%Z then Raise ValueError
  else let (z, r') := draw r in Done ((a + z mod (b - a + 1))%Z, r').

(** ** Configuration: the module-level [config] dictionary *)

Inductive count_spec : Type :=
| Fixed (k : Z)
| Range (lo hi : Z).

Record Config : Type := mkConfig {
  num_friends : count_spec;
  num_kin : count_spec;
  percent_move_at_camp : Q;
  percent_move_at_conflict : Q;
  percent_move_other : Q;
  population_weight : Q;
  location_weight : Q;
  camp_weight : Q;
  conflict_weight : Q;
  kin_weight : Q;
  friend_weight : Q;
  seed_refs : Z;
  seed_nodes : list NodeId
}.

(** ** The location graph *)

Record NodeAttrs : Type := mkAttrs {
  weight : Z;
  num_conflicts : Z;
  num_camps : Z;
  location_score : Q;
  norm_weight : option Q;
  node_score : option Q
}.

Record Graph : Type := mkGraph {
  g_nodes : list (NodeId * NodeAttrs);
  g_adj : list (NodeId * list NodeId)
}.

(** [graph.neighbors(node)] *)
Definition neighbors (g : Graph) (n : NodeId) : res (list NodeId) :=
  match lookup n (g_adj g) with
  | Some l => Done l
  | None => Raise NetworkXError
  end.

(** [nx.get_node_attributes(graph, 'weight')] and its siblings. *)
Definition get_node_attributes (A : Type) (f : NodeAttrs -> A) (g : Graph)
  : list (NodeId * A) :=
  map (fun na => (fst na, f (snd na))) (g_nodes g).

Definition set_weight (v : Z) (a : NodeAttrs) : NodeAttrs :=
  mkAttrs v (num_conflicts a) (num_camps a) (location_score a)
          (norm_weight a) (node_score a).
Definition set_norm_weight (v : Q) (a : NodeAttrs) : NodeAttrs :=
  mkAttrs (weight a) (num_conflicts a) (num_camps a) (location_score a)
          (Some v) (node_score a).
Definition set_node_score (v : Q) (a : NodeAttrs) : NodeAttrs :=
  mkAttrs (weight a) (num_conflicts a) (num_camps a) (location_score a)
          (norm_weight a) (Some v).

(** [nx.set_node_attributes(graph, values, name)] with a dictionary: only
    the nodes that are keys of [values] are touched. *)
Definition set_node_attributes (A : Type) (set : A -> NodeAttrs -> NodeAttrs)
           (vals : list (NodeId * A)) (g : Graph) : Graph :=
  mkGraph
    (map (fun na => match lookup (fst na) vals with
                    | Some v => (fst na, set v (snd na))
                    | None => na
                    end) (g_nodes g))
    (g_adj g).

(** ** Agents and the simulation object *)

Record Ref : Type := mkRef {
  node : NodeId;
  kin_list : list nat;
  friend_list : list nat
}.

(** [Ref(node, num_refugees)] *)
Definition new_Ref (n : NodeId) : Ref := mkRef n [] [].

Record Sim : Type := mkSim {
  graph : Graph;
  num_steps : Z;
  num_processes : Z;
  num_batches : Z;
  num_refugees : Z;
  all_refugees : list Ref
}.

Definition with_graph (g : Graph) (s : Sim) : Sim :=
  mkSim g (num_steps s) (num_processes s) (num_batches s)
        (num_refugees s) (all_refugees s).
Definition with_refugees (l : list Ref) (s : Sim) : Sim :=
  mkSim (graph s) (num_steps s) (num_processes s) (num_batches s)
        (num_refugees s) l.
Definition with_num_refugees (n : Z) (s : Sim) : Sim :=
  mkSim (graph s) (num_steps s) (num_processes s) (num_batches s)
        n (all_refugees s).

(** Strict comparison of two scores. *)
Definition Qltb (x y : Q) : bool := negb (Qle_bool y x).

(** Traversal of a list with a raising function. *)
Fixpoint mapM (A B : Type) (f : A -> res B) (l : list A) : res (list B) :=
  match l with
  | [] => Done []
  | x :: rest => y <- f x ;; ys <- mapM f rest ;; Done (y :: ys)
  end.

Definition count_node (n : NodeId) (l : list NodeId) : Z :=
  Z.of_nat (List.length (filter (node_eqb n) l)).

Section Engine.
Variable config : Config.

(** *** [find_new_node] *)

(** The initial value of [most_desirable_score]. *)
Definition initial_score : Q := (-99) # 1.

Definition desirability (kin_nodes friend_nodes : list NodeId)
           (n : NodeId) (score : Q) : Q :=
  (inject_Z (count_node n kin_nodes) * kin_weight config
   + inject_Z (count_node n friend_nodes) * friend_weight config
   + score)%Q.

(** The loop [for n in neighbors], threading [most_desirable_score] and
    [most_desirable_neighbor]. *)
Fixpoint scan_neighbors (g : Graph) (kin_nodes friend_nodes : list NodeId)
         (nbrs : list NodeId) (best_score : Q) (best : option NodeId)
  : res (option NodeId) :=
  match nbrs with
  | [] => Done best
  | n :: rest =>
      match lookup n (g_nodes g) with
      | None => Raise KeyError
      | Some a =>
          match node_score a with
          | None => Raise KeyError
          | Some s =>
              let d := desirability kin_nodes friend_nodes n s in
              if Qltb best_score d
              then scan_neighbors g kin_nodes friend_nodes rest d (Some n)
              else scan_neighbors g kin_nodes friend_nodes rest best_score best
          end
      end
  end.

Definition node_of_agent (sim : Sim) (i : nat) : res NodeId :=
  match nth_error (all_refugees sim) i with
  | Some a => Done (node a)
  | None => Raise IndexError
  end.

Definition find_new_node (sim : Sim) (nd : NodeId) (ref : nat)
  : res (option NodeId) :=
  nbrs <- neighbors (graph sim) nd ;;
  match nbrs with
  | [] => Done None
  | _ =>
      match nth_error (all_refugees sim) ref with
      | None => Raise IndexError
      | Some me =>
          kin_nodes <- mapM (node_of_agent sim) (kin_list me) ;;
          friend_nodes <- mapM (node_of_agent sim) (friend_list me) ;;
          scan_neighbors (graph sim) kin_nodes friend_nodes nbrs
                         initial_score None
      end
  end.

(** *** [process_refs] *)

(** Lines 143-151: the decision whether the agent moves. *)
Definition decide_move (a : NodeAttrs) (r : Rng) : bool * Rng :=
  if (0 <? num_conflicts a)%Z then (true, r)
  else if (0 <? num_camps a)%Z then
    let (u, r') := random_random r in
    (Qltb u (percent_move_at_camp config), r')
  else
    let (u, r') := random_random r in
    (Qltb u (percent_move_other config), r').

Definition set_node (n : NodeId) (a : Ref) : Ref :=
  mkRef n (kin_list a) (friend_list a).

(** One iteration of the loop of [process_refs]: the copy appended to
    [new_refs], the [new_weights] dictionary of this iteration, and the
    generator. *)
Definition process_ref (sim : Sim) (ref : nat) (r : Rng)
  : res (Ref * list (NodeId * Z) * Rng) :=
  match nth_error (all_refugees sim) ref with
  | None => Raise IndexError
  | Some me =>
      let nd := node me in
      match lookup nd (g_nodes (graph sim)) with
      | None => Raise KeyError
      | Some attrs =>
          let new_weights := map (fun k => (k, 0%Z)) (keys (g_nodes (graph sim))) in
          let (move, r') := decide_move attrs r in
          if move then
            new_node <- find_new_node sim nd ref ;;
            match new_node with
            | Some nn =>
                if truthy nn
                then Done (set_node nn me,
                           dict_add nn 1 (dict_add nd (-1) new_weights), r')
                else Done (me, new_weights, r')
            | None => Done (me, new_weights, r')
            end
          else Done (me, new_weights, r')
      end
  end.

(** The loop over [refs]; the [new_weights] of an iteration is dropped
    when the next iteration rebinds the name. *)
Fixpoint process_loop (sim : Sim) (refs : list nat) (new_refs : list Ref)
         (r : Rng) : res (list Ref * Rng) :=
  match refs with
  | [] => Done (new_refs, r)
  | ref :: rest =>
      '(a, _, r') <- process_ref sim ref r ;;
      process_loop sim rest (new_refs ++ [a]) r'
  end.

(** [process_refs(refs, sim)] returns [new_refs, ref_nodes]. *)
Definition process_refs (refs : list nat) (sim : Sim) (r : Rng)
  : res (list Ref * list (NodeId * list Z) * Rng) :=
  let ref_nodes := map (fun k => (k, @nil Z)) (keys (g_nodes (graph sim))) in
  '(new_refs, r') <- process_loop sim refs [] r ;;
  Done (new_refs, ref_nodes, r').

End Engine.

(** ** Library routines used by [Sim.step] *)

(** [max(values)]: [ValueError] on an empty sequence. *)
Definition py_max (l : list Z) : res Z :=
  match l with
  | [] => Raise ValueError
  | x :: rest => Done (fold_left Z.max rest x)
  end.

(** [x / m] on two integers. *)
Definition true_div (x m : Z) : res Q :=
  if (m =? 0)%Z then Raise ZeroDivisionError
  else Done (inject_Z x / inject_Z m)%Q.

(** [l[i]] on a list, with Python's negative indices. *)
Definition py_index (A : Type) (l : list A) (i : Z) : option A :=
  if (i <? 0)%Z then
    if (i + Z.of_nat (List.length l) <? 0)%Z then None
    else nth_error l (Z.to_nat (i + Z.of_nat (List.length l)))
  else nth_error l (Z.to_nat i).

Fixpoint split_sizes (A : Type) (l : list A) (sizes : list nat) : list (list A) :=
  match sizes with
  | [] => []
  | s :: rest => firstn s l :: split_sizes (skipn s l) rest
  end.

(** [np.array_split(l, k)]: the first [len(l) mod k] sections hold one
    element more than the others. *)
Definition array_split (A : Type) (l : list A) (k : Z) : res (list (list A)) :=
  if (k <=? 0)%Z then Raise ValueError
  else
    let n := List.length l in
    let kn := Z.to_nat k in
    let each := Nat.div n kn in
    let extras := Nat.modulo n kn in
    Done (split_sizes l (repeat (S each) extras ++ repeat each (kn - extras))).

(** A cell of the [pd.DataFrame] built by the merge: an integer, or a
    Python object (here the list held by [ref_nodes]). *)
Inductive cell : Type :=
| CNum (z : Z)
| CObj (l : list Z).

Definition row : Type := list (NodeId * cell).

(** Every row handed to [pd.DataFrame] is keyed by [graph.nodes] in the same
    order, so the columns are the keys of the first row. *)
Definition columns (rows : list row) : list NodeId :=
  match rows with
  | [] => []
  | r :: _ => keys r
  end.

(** The sum of one column under [numeric_only=True]: a column that holds an
    object has dtype [object] and is left out; a missing value is skipped. *)
Fixpoint column_sum (k : NodeId) (rows : list row) (acc : Z) : option Z :=
  match rows with
  | [] => Some acc
  | r :: rest =>
      match lookup k r with
      | Some (CNum z) => column_sum k rest (acc + z)%Z
      | Some (CObj _) => None
      | None => column_sum k rest acc
      end
  end.

(** [list(pd.DataFrame(rows).sum(numeric_only=True))] *)
Definition sum_numeric_only (rows : list row) : list Z :=
  flat_map (fun k => match column_sum k rows 0%Z with
                     | Some z => [z]
                     | None => []
                     end) (columns rows).

Definition num_row (d : list (NodeId * Z)) : row :=
  map (fun kv => (fst kv, CNum (snd kv))) d.
Definition obj_row (d : list (NodeId * list Z)) : row :=
  map (fun kv => (fst kv, CObj (snd kv))) d.

(** ** [Sim.step] *)

(** The result of one batch: [new_refs] and [ref_nodes]. *)
Definition batch_result : Type := (list Ref * list (NodeId * list Z))%type.

(** Continue with [k] when [m] returned; otherwise the exception leaves the
    method with the object in state [s]. *)
Definition attempt (A B : Type) (s : Sim) (m : res A) (k : A -> Sim * res B)
  : Sim * res B :=
  match m with
  | Done a => k a
  | Raise e => (s, Raise e)
  | OutOfFuel => (s, OutOfFuel)
  end.

(** [graph.nodes[nd]['weight'] += delta] *)
Definition add_weight (nd : NodeId) (delta : Z) (g : Graph) : Graph :=
  mkGraph
    (map (fun na => if node_eqb nd (fst na)
                    then (fst na, set_weight (weight (snd na) + delta)%Z (snd na))
                    else na) (g_nodes g))
    (g_adj g).

Section Step.
Variable config : Config.

(** Lines 241-248: [max_pop], the local dictionary [norm_weights] and the
    [norm_weight] attribute. *)
Definition update_norm_weight (g : Graph) : res (Graph * list (NodeId * Q)) :=
  let orig_weights := get_node_attributes weight g in
  max_pop <- py_max (values orig_weights) ;;
  norm_weights <- mapM (fun x => true_div x max_pop) (values orig_weights) ;;
  let norm_weights := combine (keys orig_weights) norm_weights in
  Done (set_node_attributes set_norm_weight norm_weights g, norm_weights).

(** Lines 250-258: the normalised camp and conflict counts, local lists in
    node order. *)
Definition normalise (counts : list (NodeId * Z)) : res (list Q) :=
  m <- py_max (values counts ++ [1%Z]) ;;
  mapM (fun x => true_div x m) (values counts).

Definition score (wxyz : Q * Q * Q * Q) : Q :=
  let '(w, x, y, z) := wxyz in
  ((w * population_weight config) + (x * location_weight config)
   + (y * camp_weight config)
   + (z * inject_Z (-1) * conflict_weight config))%Q.

(** Lines 250-268: the [node_score] attribute. *)
Definition update_node_score (norm_weights : list (NodeId * Q)) (g : Graph)
  : res Graph :=
  camps <- normalise (get_node_attributes num_camps g) ;;
  conflicts <- normalise (get_node_attributes num_conflicts g) ;;
  let location_scores := get_node_attributes location_score g in
  let node_scores :=
    map score (combine (combine (combine (values norm_weights)
                                         (values location_scores))
                                camps) conflicts) in
  Done (set_node_attributes set_node_score
                            (combine (keys norm_weights) node_scores) g).

(** [pool.map(partial_pr, chunked_refs)]: the worker that takes chunk [i]
    starts from its own generator [wr i]; results come back in chunk
    order. *)
Fixpoint pool_map (sim : Sim) (chunks : list (list nat)) (i : nat)
         (wr : nat -> Rng) : res (list batch_result) :=
  match chunks with
  | [] => Done []
  | c :: rest =>
      '(new_refs, ref_nodes, _) <- process_refs config c sim (wr i) ;;
      results <- pool_map sim rest (S i) wr ;;
      Done ((new_refs, ref_nodes) :: results)
  end.

(** Lines 285-293: the merge of the batch results. *)
Definition merge (orig_weights : list (NodeId * Z)) (results : list batch_result)
           (sim : Sim) : Sim :=
  let refs := List.concat (map fst results) in
  let new_weights := num_row orig_weights :: map (fun res => obj_row (snd res)) results in
  let new_weights := combine (keys (g_nodes (graph sim)))
                             (sum_numeric_only new_weights) in
  with_refugees refs
    (with_graph (set_node_attributes set_weight new_weights (graph sim)) sim).

(** Lines 299-301: the loop over [seed_nodes]. *)
Fixpoint seed_loop (nodes : list NodeId) (sim : Sim) : Sim * res unit :=
  match nodes with
  | [] => (sim, Done tt)
  | nd :: rest =>
      match lookup nd (g_nodes (graph sim)) with
      | None => (sim, Raise KeyError)
      | Some _ =>
          let g := add_weight nd (seed_refs config) (graph sim) in
          let refs := all_refugees sim
                      ++ repeat (new_Ref nd) (Z.to_nat (seed_refs config)) in
          seed_loop rest (with_refugees refs (with_graph g sim))
      end
  end.

(** Lines 303-304: [Ref] has no method [create_social_links], so the first
    iteration of a non-empty range raises. *)
Definition seed_links (new_ref_index : Z) (sim : Sim) : res unit :=
  if (new_ref_index <? num_refugees sim)%Z then
    match py_index (all_refugees sim) new_ref_index with
    | None => Raise IndexError
    | Some _ => Raise AttributeError
    end
  else Done tt.

(** Lines 295-304. *)
Definition seed (sim : Sim) : Sim * res unit :=
  if (0 <? seed_refs config)%Z then
    let new_ref_index := num_refugees sim in
    let sim1 :=
      with_num_refugees
        (num_refugees sim
         + seed_refs config * Z.of_nat (List.length (seed_nodes config)))%Z sim in
    match seed_loop (seed_nodes config) sim1 with
    | (sim2, Done _) => (sim2, seed_links new_ref_index sim2)
    | (sim2, Raise e) => (sim2, Raise e)
    | (sim2, OutOfFuel) => (sim2, OutOfFuel)
    end
  else (sim, Done tt).

(** Lines 270-283: the batches, in parallel or in this process.  The
    sequential branch advances the generator [r] of this process. *)
Definition run_batches (sim : Sim) (r : Rng) (wr : nat -> Rng)
  : res (list batch_result * Rng) :=
  let indices := seq 0 (List.length (all_refugees sim)) in
  if (1 <? num_processes sim)%Z then
    chunked_refs <- array_split indices (num_batches sim) ;;
    results <- pool_map sim chunked_refs 0 wr ;;
    Done (results, r)
  else
    '(new_refs, ref_nodes, r') <- process_refs config indices sim r ;;
    Done ([(new_refs, ref_nodes)], r').

(** The body of [Sim.step] around the batch phase [batches]: the object
    when the method returns or raises, and the generator of this process
    when it returns. *)
Definition step_from (batches : Sim -> res (list batch_result * Rng))
           (sim : Sim) : Sim * res Rng :=
  let orig_weights := get_node_attributes weight (graph sim) in
  attempt sim (update_norm_weight (graph sim)) (fun upd =>
  let sim1 := with_graph (fst upd) sim in
  attempt sim1 (update_node_score (snd upd) (fst upd)) (fun g2 =>
  let sim2 := with_graph g2 sim in
  attempt sim2 (batches sim2) (fun out =>
  let sim3 := merge orig_weights (fst out) sim2 in
  match seed sim3 with
  | (sim4, Done _) => (sim4, Done (snd out))
  | (sim4, Raise e) => (sim4, Raise e)
  | (sim4, OutOfFuel) => (sim4, OutOfFuel)
  end))).

(** [Sim.step] *)
Definition step (sim : Sim) (r : Rng) (wr : nat -> Rng) : Sim * res Rng :=
  step_from (fun s => run_batches s r wr) sim.


End Step.

(** ** Social links *)

(** Which of the two dictionaries of a [Ref] a link goes to. *)
Inductive link : Type :=
| Kin
| Friend.

(** [a.kin_list[other] = 1], or the same on [friend_list]. *)
Definition add_link (k : link) (other : nat) (a : Ref) : Ref :=
  match k with
  | Kin => mkRef (node a) (dict_set other (kin_list a)) (friend_list a)
  | Friend => mkRef (node a) (kin_list a) (dict_set other (friend_list a))
  end.

Fixpoint update_nth (A : Type) (i : nat) (f : A -> A) (l : list A) : list A :=
  match l, i with
  | [], _ => []
  | x :: rest, O => f x :: rest
  | x :: rest, S j => x :: update_nth j f rest
  end.

(** [kin = index; while kin == index: kin = random.randint(0, n - 1)] *)
Fixpoint pick_partner (fuel : nat) (index : nat) (sim : Sim) (r : Rng)
  : res (nat * Rng) :=
  match fuel with
  | O => OutOfFuel
  | S fuel' =>
      '(k, r') <- randint 0 (num_refugees sim - 1) r ;;
      if (k =? Z.of_nat index)%Z then pick_partner fuel' index sim r'
      else Done (Z.to_nat k, r')
  end.

(** One iteration of a link loop.  [self] is [sim.all_refugees[index]], as
    at both call sites. *)
Definition link_once (fuel : nat) (k : link) (index : nat) (sim : Sim) (r : Rng)
  : res (Sim * Rng) :=
  '(p, r') <- pick_partner fuel index sim r ;;
  let refs := update_nth index (add_link k p) (all_refugees sim) in
  if (p <? List.length refs)%nat
  then Done (with_refugees (update_nth p (add_link k index) refs) sim, r')
  else Raise IndexError.

(** [for x in range(count): ...] *)
Fixpoint link_times (count : nat) (fuel : nat) (k : link) (index : nat)
         (sim : Sim) (r : Rng) : res (Sim * Rng) :=
  match count with
  | O => Done (sim, r)
  | S c =>
      '(sim', r') <- link_once fuel k index sim r ;;
      link_times c fuel k index sim' r'
  end.

Section Links.
Variable config : Config.

(** [range(config[key])] needs an integer. *)
Definition defined_count (c : count_spec) : res nat :=
  match c with
  | Fixed k => Done (Z.to_nat k)
  | Range _ _ => Raise TypeError
  end.

(** [range(random.randint(config[key][0], config[key][1]))] needs a pair. *)
Definition random_count (c : count_spec) (r : Rng) : res (nat * Rng) :=
  match c with
  | Fixed _ => Raise TypeError
  | Range lo hi => '(k, r') <- randint lo hi r ;; Done (Z.to_nat k, r')
  end.

Definition create_defined_social_links (fuel : nat) (index : nat) (sim : Sim)
           (r : Rng) : res (Sim * Rng) :=
  nk <- defined_count (num_kin config) ;;
  '(sim1, r1) <- link_times nk fuel Kin index sim r ;;
  nf <- defined_count (num_friends config) ;;
  link_times nf fuel Friend index sim1 r1.

Definition create_random_social_links (fuel : nat) (index : nat) (sim : Sim)
           (r : Rng) : res (Sim * Rng) :=
  '(nk, r0) <- random_count (num_kin config) r ;;
  '(sim1, r1) <- link_times nk fuel Kin index sim r0 ;;
  '(nf, r2) <- random_count (num_friends config) r1 ;;
  link_times nf fuel Friend index sim1 r2.

(** [for index, ref in enumerate(self.all_refugees): ref.create(index, self)] *)
Fixpoint link_all (create : nat -> nat -> Sim -> Rng -> res (Sim * Rng))
         (fuel : nat) (indices : list nat) (sim : Sim) (r : Rng)
  : res (Sim * Rng) :=
  match indices with
  | [] => Done (sim, r)
  | index :: rest =>
      '(sim', r') <- create fuel index sim r ;;
      link_all create fuel rest sim' r'
  end.

(** [Sim.__init__] *)
Definition Sim_init (g : Graph) (steps processes batches : Z)
           (fuel : nat) (r : Rng) : res (Sim * Rng) :=
  let n := fold_left Z.add (map (fun na => weight (snd na)) (g_nodes g)) 0%Z in
  let refs := flat_map (fun na => repeat (new_Ref (fst na))
                                         (Z.to_nat (weight (snd na))))
                       (g_nodes g) in
  let sim := mkSim g steps processes batches n refs in
  let indices := seq 0 (List.length refs) in
  match num_friends config with
  | Fixed _ => link_all create_defined_social_links fuel indices sim r
  | Range _ _ => link_all create_random_social_links fuel indices sim r
  end.

End Links.

(** ** Runs, links and streams *)

(** The states of the simulation object that a run can expose: the freshly
    constructed object, and the object after any call of [step], whether
    the call returned or raised. *)
Inductive reachable (config : Config) : Sim -> Prop :=
| reach_init : forall g steps processes batches fuel r sim r',
    Sim_init config g steps processes batches fuel r = Done (sim, r') ->
    reachable config sim
| reach_step : forall sim r wr,
    reachable config sim ->
    reachable config (fst (step config sim r wr)).

(** The social data of an agent. *)
Definition social (a : Ref) : list nat * list nat := (kin_list a, friend_list a).

(** The links of one kind held by an agent. *)
Definition links_of (k : link) (a : Ref) : list nat :=
  match k with
  | Kin => kin_list a
  | Friend => friend_list a
  end.

(** Agent [a] lists agent [b] as a link of kind [k]. *)
Definition linked (refs : list Ref) (k : link) (a b : nat) : Prop :=
  exists ra, nth_error refs a = Some ra /\ In b (links_of k ra).

(** Every link is known to both ends, joins two distinct agents, and
    points into the store. *)
Definition links_ok (refs : list Ref) : Prop :=
  forall k a b, linked refs k a b -> b <> a /\ linked refs k b a.

(** An agent as [Ref] creates it: no kin, no friend. *)
Definition unlinked (a : Ref) : Prop := social a = ([], []).

(** The fields of the object that the link construction leaves alone. *)
Definition same_frame (s s' : Sim) : Prop :=
  graph s' = graph s /\ num_refugees s' = num_refugees s
  /\ List.length (all_refugees s') = List.length (all_refugees s).



(** The generator after [n] further draws. *)
Definition advance (n : nat) (r : Rng) : Rng := mkRng (tape r) (n + pos r).

(** The number of draws that the decision of agent [ref] consumes. *)
Definition draws_of (sim : Sim) (ref : nat) : nat :=
  match nth_error (all_refugees sim) ref with
  | Some me =>
      match lookup (node me) (g_nodes (graph sim)) with
      | Some a => if (0 <? num_conflicts a)%Z then 0 else 1
      | None => 0
      end
  | None => 0
  end.

Definition draws (sim : Sim) (refs : list nat) : nat :=
  list_sum (map (draws_of sim) refs).


(** The dictionary [ref_nodes] of [process_refs]: an empty list per node. *)
Definition empty_lists (g : Graph) : list (NodeId * list Z) :=
  map (fun k => (k, @nil Z)) (keys (g_nodes g)).

(** The desirability that [find_new_node] computes for neighbour [n], when
    [n] is a node with a score. *)
Definition desirability_at (cfg : Config) (g : Graph)
           (kin_nodes friend_nodes : list NodeId) (n : NodeId) : option Q :=
  match lookup n (g_nodes g) with
  | Some a => option_map (desirability cfg kin_nodes friend_nodes n) (node_score a)
  | None => None
  end.

(** A normalised value. *)
Definition in_unit (q : Q) : Prop := (0 <= q)%Q /\ (q <= 1)%Q.

(** The inputs of the graph collaborator: counts are not negative. *)
Definition nonneg_inputs (g : Graph) : Prop :=
  Forall (fun na => (0 <= weight (snd na))%Z /\ (0 <= num_camps (snd na))%Z
                    /\ (0 <= num_conflicts (snd na))%Z) (g_nodes g).

(** ** Configurations, graphs and streams of the scenarios *)

(** The value of a computation that returned, [d] otherwise. *)
Definition returned (A : Type) (d : A) (o : res A) : A :=
  match o with
  | Done a => a
  | _ => d
  end.

(** The doubles that Python reads for the literals [0.3] and [0.7]:
    5404319552844595 / 2^54 and 3152519739159347 / 2^52. *)
Definition double_0_3 : Q := 5404319552844595 # 18014398509481984.
Definition double_0_7 : Q := 3152519739159347 # 4503599627370496.

(** The values of the [config] dictionary in the source; [0.25] is the
    rational 1/4. *)
Definition default_config : Config :=
  mkConfig (Fixed 1) (Fixed 1) double_0_3 1 double_0_7
           (1 # 4) (1 # 4) (1 # 4) (1 # 4) (1 # 4) (1 # 4)
           0 [NStr "Merkez Kilis"; NStr "KarkamA+-A"; NStr "YayladaAA+-"; NStr "Kumlu"].

(** The configuration with another value under one key. *)
Definition with_seeding (n : Z) (nodes : list NodeId) (c : Config) : Config :=
  mkConfig (num_friends c) (num_kin c) (percent_move_at_camp c)
           (percent_move_at_conflict c) (percent_move_other c)
           (population_weight c) (location_weight c) (camp_weight c)
           (conflict_weight c) (kin_weight c) (friend_weight c) n nodes.

Definition with_conflict_weight (w : Q) (c : Config) : Config :=
  mkConfig (num_friends c) (num_kin c) (percent_move_at_camp c)
           (percent_move_at_conflict c) (percent_move_other c)
           (population_weight c) (location_weight c) (camp_weight c)
           w (kin_weight c) (friend_weight c) (seed_refs c) (seed_nodes c).


(** A node as the graph collaborator supplies it. *)
Definition fresh_node (w conflicts camps : Z) (loc : Q) : NodeAttrs :=
  mkAttrs w conflicts camps loc None None.

(** The stream of the raw draws 0, 1, 2, ... *)
Definition counting_tape : Rng := mkRng (fun k => Z.of_nat k) 0.

(** A stream whose draws are spread over the unit interval. *)
Definition spread_tape : Rng :=
  mkRng (fun k => (Z.of_nat k * 3 * 2251799813685248 + Z.of_nat k)%Z) 0.

(** The path A - B - C with ten agents at A, a conflict at A, no camps. *)
Definition path3 : Graph :=
  mkGraph [(NStr "A", fresh_node 10 1 0 (1 # 2));
           (NStr "B", fresh_node 0 0 0 (1 # 2));
           (NStr "C", fresh_node 0 0 0 (1 # 2))]
          [(NStr "A", [NStr "B"]);
           (NStr "B", [NStr "A"; NStr "C"]);
           (NStr "C", [NStr "B"])].

(** A graph with integer nodes as the test branch of the script builds it:
    two agents at node 1, whose only neighbour is node 0, conflicts
    everywhere. *)
Definition int_pair : Graph :=
  mkGraph [(NInt 0, fresh_node 0 1 0 (1 # 2));
           (NInt 1, fresh_node 2 1 0 (1 # 2))]
          [(NInt 0, [NInt 1]); (NInt 1, [NInt 0])].

(** Two agents at X, whose only neighbour Y has a conflict. *)
Definition conflict_pair : Graph :=
  mkGraph [(NStr "X", fresh_node 2 1 0 (1 # 2));
           (NStr "Y", fresh_node 0 4 0 (1 # 2))]
          [(NStr "X", [NStr "Y"]); (NStr "Y", [NStr "X"])].

(** No agents anywhere, camps and conflicts present. *)
Definition empty_land : Graph :=
  mkGraph [(NStr "A", fresh_node 0 3 2 (1 # 2));
           (NStr "B", fresh_node 0 1 0 (1 # 2))]
          [(NStr "A", [NStr "B"]); (NStr "B", [NStr "A"])].

(** Two agents at P, two at Q where a camp stands; no conflict. *)
Definition calm : Graph :=
  mkGraph [(NStr "P", fresh_node 2 0 0 (1 # 2));
           (NStr "Q", fresh_node 2 0 1 (1 # 4))]
          [(NStr "P", [NStr "Q"]); (NStr "Q", [NStr "P"])].

(** The default configuration with one agent seeded at A after each step. *)
Definition seeded_config : Config := with_seeding 1 [NStr "A"] default_config.

(** The simulation constructed on the path graph, and the stream after the
    construction. *)
Definition seeded_start : Sim * Rng :=
  returned (mkSim path3 1 1 1 0 [], counting_tape)
           (Sim_init seeded_config path3 1 1 1 5 counting_tape).

(** The simulation constructed on the calm graph, and the stream after the
    construction. *)
Definition calm_start : Sim * Rng :=
  returned (mkSim calm 1 1 1 0 [], spread_tape)
           (Sim_init default_config calm 1 1 1 8 spread_tape).


(** Two workers on the stream of the sequential run: every agent of the
    calm graph reads one draw, and each chunk holds two agents. *)
Definition calm_workers (i : nat) : Rng := advance (2 * i) (snd calm_start).

(** What [process_refs] may return for agent [ref]: a copy with the same kin
    and friends that stands on a node of the graph, either the node of the
    agent or a neighbour of it with a truthy identifier. *)
Definition moved_along_edge (sim : Sim) (ref : nat) (a : Ref) : Prop :=
  exists me,
    nth_error (all_refugees sim) ref = Some me
    /\ kin_list a = kin_list me /\ friend_list a = friend_list me
    /\ In (node a) (keys (g_nodes (graph sim)))
    /\ (node a = node me
        \/ (truthy (node a) = true
            /\ exists nbrs, neighbors (graph sim) (node me) = Done nbrs
                            /\ In (node a) nbrs)).

(** No node holds a conflict or a camp. *)
Definition peaceful (g : Graph) : Prop :=
  forall na, In na (g_nodes g) ->
             (num_conflicts (snd na) <= 0)%Z /\ (num_camps (snd na) <= 0)%Z.

(** A graph without conflicts or camps, one agent on each of two joined
    nodes. *)
Definition quiet : Graph :=
  mkGraph [(NStr "U", fresh_node 1 0 0 (1 # 2));
           (NStr "V", fresh_node 1 0 0 (3 # 4))]
          [(NStr "U", [NStr "V"]); (NStr "V", [NStr "U"])].

(** The default configuration with [percent_move_other = 0]. *)
Definition still_config : Config :=
  mkConfig (Fixed 1) (Fixed 1) double_0_3 1 0
           (1 # 4) (1 # 4) (1 # 4) (1 # 4) (1 # 4) (1 # 4) 0 [].

Definition quiet_start : Sim * Rng :=
  returned (mkSim quiet 1 1 1 0 [], spread_tape)
           (Sim_init still_config quiet 1 1 1 8 spread_tape).

(** The calm simulation after one step: every node holds its scores. *)
Definition calm_scored : Sim :=
  fst (step default_config (fst calm_start) (snd calm_start) calm_workers).

(** An isolated node D with five agents and a conflict, beside a joined
    pair of nodes. *)
Definition with_isolate : Graph :=
  mkGraph [(NStr "D", fresh_node 5 1 0 (1 # 2));
           (NStr "E", fresh_node 1 1 0 (1 # 2));
           (NStr "F", fresh_node 0 0 0 (1 # 2))]
          [(NStr "D", []); (NStr "E", [NStr "F"]); (NStr "F", [NStr "E"])].

Definition isolate_start : Sim * Rng :=
  returned (mkSim with_isolate 1 1 1 0 [], counting_tape)
           (Sim_init default_config with_isolate 1 1 1 8 counting_tape).

(** The part of the graph that the collaborator supplies and no simulation
    code assigns: the adjacency, the nodes in their order, and the conflict
    count, camp count and location score of every node. *)
Definition static_part (g : Graph)
  : list (NodeId * list NodeId) * list (NodeId * (Z * Z * Q)) :=
  (g_adj g,
   map (fun na => (fst na, (num_conflicts (snd na), num_camps (snd na),
                            location_score (snd na)))) (g_nodes g)).

(** What the link construction leaves alone: everything but the kin and
    friend dictionaries. *)
Definition same_places (s s' : Sim) : Prop :=
  graph s' = graph s /\ num_steps s' = num_steps s
  /\ num_processes s' = num_processes s /\ num_batches s' = num_batches s
  /\ num_refugees s' = num_refugees s
  /\ map node (all_refugees s') = map node (all_refugees s).

(** Every node has an adjacency entry, and every neighbour is a node. *)
Definition graph_closed (g : Graph) : Prop :=
  (forall n, In n (keys (g_nodes g)) -> exists l, lookup n (g_adj g) = Some l)
  /\ (forall n l m, lookup n (g_adj g) = Some l -> In m l ->
                    In m (keys (g_nodes g))).

(** Every agent stands on a node of the graph. *)
Definition agents_placed (sim : Sim) : Prop :=
  Forall (fun a => In (node a) (keys (g_nodes (graph sim)))) (all_refugees sim).

(** The two conditions as checks that compute. *)
Definition graph_closedb (g : Graph) : bool :=
  forallb (fun n => match lookup n (g_adj g) with
                    | Some _ => true
                    | None => false
                    end) (keys (g_nodes g))
  && forallb (fun nl => forallb (fun m => existsb (node_eqb m) (keys (g_nodes g)))
                                (snd nl)) (g_adj g).

Definition agents_placedb (sim : Sim) : bool :=
  forallb (fun a => existsb (node_eqb (node a)) (keys (g_nodes (graph sim))))
          (all_refugees sim).

(** The attributes that the scoring of lines 241-268 gives a node, for the
    maxima [m] of the weights, [mc] of the camp counts and [mk] of the
    conflict counts. *)
Definition scored_attrs (cfg : Config) (m mc mk : Z) (a : NodeAttrs) : NodeAttrs :=
  let w := (inject_Z (weight a) / inject_Z m)%Q in
  mkAttrs (weight a) (num_conflicts a) (num_camps a) (location_score a)
          (Some w)
          (Some (score cfg (w, location_score a,
                            (inject_Z (num_camps a) / inject_Z mc)%Q,
                            (inject_Z (num_conflicts a) / inject_Z mk)%Q))).

(** The simulation has at least one agent to construct. *)
Definition populated (g : Graph) : Prop :=
  exists na, In na (g_nodes g) /\ (0 < weight (snd na))%Z.

(** A configuration that mixes an integer and a pair for the two link
    counts. *)
Definition mixed_counts (c : Config) : Prop :=
  match num_friends c, num_kin c with
  | Fixed _, Range _ _ => True
  | Range _ _, Fixed _ => True
  | _, _ => False
  end.

Definition mixed_config : Config :=
  mkConfig (Fixed 1) (Range 1 2) double_0_3 1 double_0_7
           (1 # 4) (1 # 4) (1 # 4) (1 # 4) (1 # 4) (1 # 4) 0 [].

(** ** [Sim.run]

    The run in test mode, the mode that the source's configuration selects:
    the branch that writes a shapefile per step is not taken.  [clock x] is
    the time that the clock measures around step [x], and [wr x] gives the
    generators of the pool workers of step [x]. *)

(** The loop [for x in list(range(self.num_steps))], with [avg_step_time]
    in [total]: an exception of a step leaves the method. *)
Fixpoint run_loop (config : Config) (n : nat) (x : nat) (clock : nat -> Q)
         (wr : nat -> nat -> Rng) (sim : Sim) (r : Rng) (total : Q)
  : Sim * res (Q * Rng) :=
  match n with
  | O => (sim, Done (total, r))
  | S n' =>
      match step config sim r (wr x) with
      | (sim', Done r') =>
          run_loop config n' (S x) clock wr sim' r' (total + clock x)%Q
      | (sim', Raise e) => (sim', Raise e)
      | (sim', OutOfFuel) => (sim', OutOfFuel)
      end
  end.

(** [Sim.run]: the object when the method returns or raises, and the
    average step time with the generator when it returns. *)
Definition run (config : Config) (clock : nat -> Q) (wr : nat -> nat -> Rng)
           (sim : Sim) (r : Rng) : Sim * res (Q * Rng) :=
  match run_loop config (Z.to_nat (num_steps sim)) 0 clock wr sim r 0%Q with
  | (sim', Done (total, r')) =>
      if (num_steps sim' =? 0)%Z then (sim', Raise ZeroDivisionError)
      else (sim', Done ((total / inject_Z (num_steps sim'))%Q, r'))
  | (sim', Raise e) => (sim', Raise e)
  | (sim', OutOfFuel) => (sim', OutOfFuel)
  end.

(** The identifier, weight, conflict count, camp count and location score
    of every node, in the order of the graph. *)
Definition base_part (g : Graph) : list (NodeId * (Z * Z * Z * Q)) :=
  map (fun na => (fst na, (weight (snd na), num_conflicts (snd na),
                           num_camps (snd na), location_score (snd na))))
      (g_nodes g).


(** The calm simulation, to run for three steps. *)
Definition calm_three : Sim :=
  mkSim (graph (fst calm_start)) 3 1 1 (num_refugees (fst calm_start))
        (all_refugees (fst calm_start)).


(** The configured count of the links of one kind, and the least number of
    rounds that the link loop of an agent runs with it. *)
Definition count_for (c : Config) (k : link) : count_spec :=
  match k with
  | Kin => num_kin c
  | Friend => num_friends c
  end.

Definition least_count (c : count_spec) : Z :=
  match c with
  | Fixed n => n
  | Range lo _ => lo
  end.

(** The store keeps its length and every link that it holds. *)
Definition links_kept (s s' : Sim) : Prop :=
  List.length (all_refugees s') = List.length (all_refugees s)
  /\ forall k a b, linked (all_refugees s) k a b -> linked (all_refugees s') k a b.





(** ** Computations in which no double is rounded

    The model computes in the rationals.  A double operation returns the
    exact result whenever that result is itself a double, so the model and
    the source agree on a computation all of whose operands and results
    satisfy [double53]. *)

(** [q] is n / 2^k in lowest terms with |n| < 2^53 and k <= 1074: such a
    rational is a finite IEEE 754 binary64 number. *)
Definition double53 (q : Q) : bool :=
  let q' := Qred q in
  (Z.abs (Qnum q') <? 2 ^ 53)%Z
  && (Z.pos (Qden q') =? 2 ^ Z.log2 (Z.pos (Qden q')))%Z
  && (Z.log2 (Z.pos (Qden q')) <=? 1074)%Z.

(** The operands and the results of the operations of lines 122-124 for
    neighbour [n] with score [s], in the order in which Python evaluates
    them. *)
Definition exact_desirability (c : Config)
           (kin_nodes friend_nodes : list NodeId) (n : NodeId) (s : Q) : bool :=
  let k := inject_Z (count_node n kin_nodes) in
  let f := inject_Z (count_node n friend_nodes) in
  forallb double53
          [k; kin_weight c; k * kin_weight c;
           f; friend_weight c; f * friend_weight c;
           k * kin_weight c + f * friend_weight c;
           s; k * kin_weight c + f * friend_weight c + s]%Q.

Definition exact_at (c : Config) (g : Graph)
           (kin_nodes friend_nodes : list NodeId) (n : NodeId) : bool :=
  match lookup n (g_nodes g) with
  | Some a =>
      match node_score a with
      | Some s => exact_desirability c kin_nodes friend_nodes n s
      | None => true
      end
  | None => true
  end.

(** The operands and the results of the operations of lines 246-266 for a
    node with attributes [a], for the maxima [m], [mc] and [mk]. *)
Definition exact_score (c : Config) (m mc mk : Z) (a : NodeAttrs) : bool :=
  let w := (inject_Z (weight a) / inject_Z m)%Q in
  let y := (inject_Z (num_camps a) / inject_Z mc)%Q in
  let z := (inject_Z (num_conflicts a) / inject_Z mk)%Q in
  let p1 := (w * population_weight c)%Q in
  let p2 := (location_score a * location_weight c)%Q in
  let p3 := (y * camp_weight c)%Q in
  let z1 := (z * inject_Z (-1))%Q in
  let p4 := (z1 * conflict_weight c)%Q in
  forallb double53
          [w; population_weight c; p1;
           location_score a; location_weight c; p2; p1 + p2;
           y; camp_weight c; p3; p1 + p2 + p3;
           z; z1; conflict_weight c; p4; p1 + p2 + p3 + p4]%Q.

Definition exact_scoring (c : Config) (g : Graph) : bool :=
  match py_max (values (get_node_attributes weight g)),
        py_max (values (get_node_attributes num_camps g) ++ [1%Z]),
        py_max (values (get_node_attributes num_conflicts g) ++ [1%Z]) with
  | Done m, Done mc, Done mk =>
      forallb (fun na => exact_score c m mc mk (snd na)) (g_nodes g)
  | _, _, _ => false
  end.

(** A hub H under conflict with the neighbours L and R: the agent at H has
    its kin and its friend at L, and R holds more agents. *)
Definition fork : Graph :=
  mkGraph [(NStr "H", fresh_node 1 1 0 (1 # 2));
           (NStr "L", fresh_node 1 0 0 (1 # 2));
           (NStr "R", fresh_node 2 0 0 (1 # 2))]
          [(NStr "H", [NStr "L"; NStr "R"]);
           (NStr "L", [NStr "H"]); (NStr "R", [NStr "H"])].

Definition fork_start : Sim :=
  mkSim fork 1 1 1 4
        [mkRef (NStr "H") [1%nat] [1%nat]; mkRef (NStr "L") [0%nat] [0%nat];
         mkRef (NStr "R") [] []; mkRef (NStr "R") [] []].

(** The same object in the middle of its first step: the graph holds its
    scores and no agent has been processed. *)
Definition fork_scored : Sim :=
  mkSim (graph (fst (step default_config fork_start counting_tape
                          (fun _ => counting_tape))))
        1 1 1 4 (all_refugees fork_start).

(** * Properties *)

(** ** Node identifiers and dictionaries *)

Lemma node_eqb_eq (a b : NodeId) : node_eqb a b = true <-> a = b.
Proof.
  destruct a as [x|s], b as [y|t]; simpl; split; intro H;
    try discriminate; try (inversion H; subst).
  - apply Z.eqb_eq in H. now subst.
  - apply Z.eqb_refl.
  - apply String.eqb_eq in H. now subst.
  - apply String.eqb_refl.
Qed.

Lemma node_eqb_refl (a : NodeId) : node_eqb a a = true.
Proof. now apply node_eqb_eq. Qed.

Lemma lookup_map_snd (V W : Type) (h : NodeId -> V -> W) (k : NodeId)
      (d : list (NodeId * V)) :
  lookup k (map (fun kv => (fst kv, h (fst kv) (snd kv))) d)
  = option_map (h k) (lookup k d).
Proof.
  induction d as [|[k' v] d IH]; simpl; [reflexivity|].
  destruct (node_eqb k k') eqn:E; [|exact IH].
  apply node_eqb_eq in E. now subst.
Qed.

Lemma lookup_in_keys (V : Type) (k : NodeId) (d : list (NodeId * V)) :
  In k (keys d) -> exists v, lookup k d = Some v.
Proof.
  induction d as [|[k' v] d IH]; simpl; [tauto|].
  intros [->|H].
  - rewrite node_eqb_refl. eauto.
  - destruct (node_eqb k k'); eauto.
Qed.

(** ** The move decision *)

Lemma random_random_unit (r : Rng) :
  (0 <= fst (random_random r))%Q /\ (fst (random_random r) < 1)%Q.
Proof.
  unfold random_random, draw; simpl.
  assert (H := Z.mod_pos_bound (tape r (pos r)) (Zpos two53) eq_refl).
  unfold Qle, Qlt; simpl. split; lia.
Qed.

Lemma Qltb_lt (x y : Q) : Qltb x y = true <-> (x < y)%Q.
Proof.
  unfold Qltb. rewrite negb_true_iff. split; intro H.
  - apply Qnot_le_lt. intro L. apply Qle_bool_iff in L. congruence.
  - destruct (Qle_bool y x) eqn:E; [|reflexivity].
    apply Qle_bool_iff in E. exfalso. exact (Qlt_not_le _ _ H E).
Qed.

Lemma process_ref_unfold (cfg : Config) (sim : Sim) (ref : nat) (me : Ref)
      (a : NodeAttrs) (r : Rng) :
  nth_error (all_refugees sim) ref = Some me ->
  lookup (node me) (g_nodes (graph sim)) = Some a ->
  process_ref cfg sim ref r =
  let zeros := map (fun k => (k, 0%Z)) (keys (g_nodes (graph sim))) in
  if fst (decide_move cfg a r) then
    new_node <- find_new_node cfg sim (node me) ref ;;
    match new_node with
    | Some nn =>
        if truthy nn
        then Done (set_node nn me,
                   dict_add nn 1 (dict_add (node me) (-1) zeros),
                   snd (decide_move cfg a r))
        else Done (me, zeros, snd (decide_move cfg a r))
    | None => Done (me, zeros, snd (decide_move cfg a r))
    end
  else Done (me, zeros, snd (decide_move cfg a r)).
Proof.
  intros Hme Ha. unfold process_ref. rewrite Hme, Ha.
  destruct (decide_move cfg a r) as [move r']. reflexivity.
Qed.





(** ** The population normalisation *)

Lemma values_get_node_attributes (A : Type) (f : NodeAttrs -> A) (g : Graph) :
  values (get_node_attributes f g) = map (fun na => f (snd na)) (g_nodes g).
Proof. unfold values, get_node_attributes. now rewrite map_map. Qed.

Lemma keys_get_node_attributes (A : Type) (f : NodeAttrs -> A) (g : Graph) :
  keys (get_node_attributes f g) = keys (g_nodes g).
Proof. unfold keys, get_node_attributes. now rewrite map_map. Qed.

Lemma fold_max_zeros (l : list Z) :
  Forall (fun x => x = 0%Z) l -> fold_left Z.max l 0%Z = 0%Z.
Proof. induction 1 as [|x l Hx _ IH]; simpl; [reflexivity|]. now subst. Qed.

Lemma py_max_zeros (l : list Z) :
  l <> [] -> Forall (fun x => x = 0%Z) l -> py_max l = Done 0%Z.
Proof.
  destruct l as [|x l]; [congruence|]. intros _ H.
  inversion H; subst. simpl. now rewrite fold_max_zeros.
Qed.

Lemma mapM_div_by_zero (l : list Z) :
  l <> [] -> mapM (fun x => true_div x 0) l = Raise ZeroDivisionError.
Proof. destruct l; [congruence|reflexivity]. Qed.

Lemma update_norm_weight_zero (g : Graph) :
  g_nodes g <> [] ->
  (forall na, In na (g_nodes g) -> weight (snd na) = 0%Z) ->
  update_norm_weight g = Raise ZeroDivisionError.
Proof.
  intros Hne Hz. unfold update_norm_weight.
  rewrite values_get_node_attributes.
  rewrite py_max_zeros.
  - simpl. rewrite mapM_div_by_zero; [reflexivity|].
    destruct (g_nodes g); [congruence|discriminate].
  - destruct (g_nodes g); [congruence|discriminate].
  - apply Forall_forall. intros x Hx.
    apply in_map_iff in Hx. destruct Hx as [na [<- Hin]]. now apply Hz.
Qed.

(** C5 (the code departs from the claim). On every non-empty graph whose
    weights are all zero, [max_pop] is [0], it is not floored, and [step]
    leaves with [ZeroDivisionError] before it has changed the object. *)
Theorem step_all_zero_weights_raises
        (cfg : Config) (sim : Sim) (r : Rng) (wr : nat -> Rng) :
  g_nodes (graph sim) <> [] ->
  (forall na, In na (g_nodes (graph sim)) -> weight (snd na) = 0%Z) ->
  py_max (values (get_node_attributes weight (graph sim))) = Done 0%Z
  /\ step cfg sim r wr = (sim, Raise ZeroDivisionError).
Proof.
  intros Hne Hz. split.
  - rewrite values_get_node_attributes. apply py_max_zeros.
    + destruct (g_nodes (graph sim)); [congruence|discriminate].
    + apply Forall_forall. intros x Hx.
      apply in_map_iff in Hx. destruct Hx as [na [<- Hin]]. now apply Hz.
  - unfold step, step_from.
    now rewrite (update_norm_weight_zero (graph sim) Hne Hz).
Qed.

Lemma step_all_zero_weights_raises_witness :
  step default_config (mkSim empty_land 1 1 1 0 []) counting_tape
       (fun _ => counting_tape)
  = (mkSim empty_land 1 1 1 0 [], Raise ZeroDivisionError).
Proof.
  refine (proj2 (step_all_zero_weights_raises default_config
                   (mkSim empty_land 1 1 1 0 []) counting_tape
                   (fun _ => counting_tape) _ _)).
  - discriminate.
  - simpl. intros na [<-|[<-|[]]]; reflexivity.
Defined.

(** C6 (the code departs from the claim). With non-negative weights, camp
    counts and conflict counts that are all zero in the weights, the
    recomputation raises at the population normalisation: no node receives
    [norm_weight] or [node_score], although the camp and conflict counts of
    the same graph normalise without an error. *)
Theorem recomputation_all_zero_weights :
  let sim := mkSim empty_land 1 1 1 0 [] in
  let out := step default_config sim counting_tape (fun _ => counting_tape) in
  Forall (fun na => (0 <= weight (snd na))%Z /\ (0 <= num_camps (snd na))%Z
                    /\ (0 <= num_conflicts (snd na))%Z) (g_nodes empty_land)
  /\ update_norm_weight empty_land = Raise ZeroDivisionError
  /\ snd out = Raise ZeroDivisionError
  /\ map (fun na => norm_weight (snd na)) (g_nodes (graph (fst out)))
     = [None; None]
  /\ normalise (get_node_attributes num_camps empty_land)
     = Done [inject_Z 2 / inject_Z 2; inject_Z 0 / inject_Z 2]%Q
  /\ normalise (get_node_attributes num_conflicts empty_land)
     = Done [inject_Z 3 / inject_Z 3; inject_Z 1 / inject_Z 3]%Q.
Proof.
  cbv zeta. repeat split; try reflexivity.
  repeat constructor; simpl; lia.
Qed.

(** ** Link construction with a single agent *)

Lemma pick_partner_alone (sim : Sim) :
  num_refugees sim = 1%Z ->
  forall fuel r, pick_partner fuel 0 sim r = OutOfFuel.
Proof.
  intros Hn. induction fuel as [|fuel IH]; intro r; [reflexivity|].
  simpl. rewrite Hn. unfold randint, draw. simpl.
  rewrite Z.mod_1_r. simpl. apply IH.
Qed.

Lemma link_times_alone (sim : Sim) (k : link) (count : nat) :
  num_refugees sim = 1%Z -> (0 < count)%nat ->
  forall fuel r, link_times count fuel k 0 sim r = OutOfFuel.
Proof.
  intros Hn Hc fuel r. destruct count as [|c]; [lia|].
  simpl. unfold link_once. now rewrite pick_partner_alone.
Qed.

Lemma randint_range (lo hi : Z) (r : Rng) :
  (lo <= hi)%Z ->
  exists k, randint lo hi r = Done (k, advance 1 r) /\ (lo <= k <= hi)%Z.
Proof.
  intro H. unfold randint, draw.
  destruct (hi <? lo)%Z eqn:E; [apply Z.ltb_lt in E; lia|].
  eexists. split; [reflexivity|].
  assert (B := Z.mod_pos_bound (tape r (pos r)) (hi - lo + 1)).
  lia.
Qed.

(** C10 (the code departs from the claim). With one agent in the
    population and at least one kin link requested, the construction of the
    simulation neither returns nor raises, whatever the stream and however
    long it runs: the partner loop draws index 0 for agent 0 for ever.  This
    holds for the fixed mode and for the random mode of the link counts. *)
Theorem single_agent_links_never_finish
        (cfg : Config) (n : NodeId) (a : NodeAttrs) (adj : list (NodeId * list NodeId))
        (steps processes batches : Z) :
  weight a = 1%Z ->
  (exists k kf, num_kin cfg = Fixed k /\ (0 < k)%Z /\ num_friends cfg = Fixed kf)
  \/ (exists lo hi flo fhi, num_kin cfg = Range lo hi /\ (0 < lo <= hi)%Z
                            /\ num_friends cfg = Range flo fhi) ->
  forall fuel r,
    Sim_init cfg (mkGraph [(n, a)] adj) steps processes batches fuel r = OutOfFuel.
Proof.
  intros Hw Hcfg fuel r. unfold Sim_init. simpl. rewrite Hw. simpl.
  destruct Hcfg as [[k [kf [Hk [Hpos Hf]]]]|[lo [hi [flo [fhi [Hk [Hpos Hf]]]]]]];
    rewrite Hf; simpl.
  - unfold create_defined_social_links. rewrite Hk. simpl.
    rewrite link_times_alone; [reflexivity|reflexivity|lia].
  - unfold create_random_social_links. rewrite Hk. simpl.
    destruct (@randint_range lo hi r) as [c [Hc Hb]]; [lia|].
    rewrite Hc. simpl.
    rewrite link_times_alone; [reflexivity|reflexivity|lia].
Qed.

Lemma single_agent_links_never_finish_witness :
  Sim_init default_config
           (mkGraph [(NStr "A", fresh_node 1 0 0 (1 # 2))] [(NStr "A", [])])
           1 1 1 1000 counting_tape = OutOfFuel.
Proof.
  apply (@single_agent_links_never_finish default_config (NStr "A")
           (fresh_node 1 0 0 (1 # 2)) [(NStr "A", [])] 1 1 1).
  - reflexivity.
  - left. exists 1%Z, 1%Z. repeat split.
Defined.

(** ** Scenarios *)

(** C1 (the code departs from the claim). On the path A - B - C with
    weights 10, 0, 0 and a conflict at A, one step moves all ten agents to B
    and returns, but the node weights stay 10, 0, 0: the batch hands back
    [ref_nodes], not the deltas, and the merge changes no weight.  The same
    holds when the step runs four batches in a pool. *)
Theorem path_scenario_weights_stale :
  exists sim r,
    Sim_init default_config path3 1 1 1 5 counting_tape = Done (sim, r)
    /\ get_node_attributes weight (graph sim)
       = [(NStr "A", 10%Z); (NStr "B", 0%Z); (NStr "C", 0%Z)]
    /\ map node (all_refugees sim) = repeat (NStr "A") 10
    /\ (let out := step default_config sim r (fun _ => r) in
        snd out = Done r
        /\ get_node_attributes weight (graph (fst out))
           = [(NStr "A", 10%Z); (NStr "B", 0%Z); (NStr "C", 0%Z)]
        /\ map node (all_refugees (fst out)) = repeat (NStr "B") 10)
    /\ (let out := step default_config
                        (mkSim (graph sim) 1 4 4 (num_refugees sim) (all_refugees sim))
                        r (fun _ => r) in
        snd out = Done r
        /\ get_node_attributes weight (graph (fst out))
           = [(NStr "A", 10%Z); (NStr "B", 0%Z); (NStr "C", 0%Z)]
        /\ map node (all_refugees (fst out)) = repeat (NStr "B") 10).
Proof.
  eexists. eexists. split; [vm_compute; reflexivity|].
  vm_compute. repeat split.
Qed.

(** C3 (the code departs from the claim). With [seed_refs = 1] and the seed
    node A, the step raises the weight of A by one and appends one fresh
    agent at A, and then raises [AttributeError] at the first new index:
    the appended agent has no kin and no friend, and no older agent is
    linked to it. *)
Theorem seeding_raises_before_linking :
  let cfg := with_seeding 1 [NStr "A"] default_config in
  exists sim r,
    Sim_init cfg path3 1 1 1 5 counting_tape = Done (sim, r)
    /\ List.length (all_refugees sim) = 10%nat
    /\ let out := step cfg sim r (fun _ => r) in
       snd out = Raise AttributeError
       /\ get_node_attributes weight (graph (fst out))
          = [(NStr "A", 11%Z); (NStr "B", 0%Z); (NStr "C", 0%Z)]
       /\ num_refugees (fst out) = 11%Z
       /\ List.length (all_refugees (fst out)) = 11%nat
       /\ nth_error (all_refugees (fst out)) 10 = Some (new_Ref (NStr "A"))
       /\ Forall (fun a => ~ In 10%nat (kin_list a) /\ ~ In 10%nat (friend_list a))
                 (all_refugees (fst out)).
Proof.
  cbv zeta. eexists. eexists. split; [vm_compute; reflexivity|].
  vm_compute. repeat split.
  repeat constructor; simpl; intuition discriminate.
Qed.

(** C4 (the code departs from the claim). On the integer graph, both agents
    stand at node 1, are forced to move, and node 0 is their only and best
    neighbour: [find_new_node] returns it, but [if new_node:] takes the
    identifier 0 for a missing destination and both agents stay at node 1.
    On the second graph, with [conflict_weight = 400], the only neighbour Y
    has a desirability below the initial score -99, [find_new_node]
    returns nothing, and both agents stay although a neighbour exists. *)
Theorem best_neighbour_not_taken :
  (exists sim r,
      Sim_init default_config int_pair 1 1 1 5 counting_tape = Done (sim, r)
      /\ map node (all_refugees sim) = [NInt 1; NInt 1]
      /\ neighbors (graph sim) (NInt 1) = Done [NInt 0]
      /\ let out := step default_config sim r (fun _ => r) in
         snd out = Done r
         /\ find_new_node default_config (fst out) (NInt 1) 0 = Done (Some (NInt 0))
         /\ find_new_node default_config (fst out) (NInt 1) 1 = Done (Some (NInt 0))
         /\ map node (all_refugees (fst out)) = [NInt 1; NInt 1])
  /\ (let cfg := with_conflict_weight (400 # 1) default_config in
      exists sim r,
        Sim_init cfg conflict_pair 1 1 1 5 counting_tape = Done (sim, r)
        /\ map node (all_refugees sim) = [NStr "X"; NStr "X"]
        /\ neighbors (graph sim) (NStr "X") = Done [NStr "Y"]
        /\ let out := step cfg sim r (fun _ => r) in
           snd out = Done r
           /\ find_new_node cfg (fst out) (NStr "X") 0 = Done None
           /\ map node (all_refugees (fst out)) = [NStr "X"; NStr "X"]).
Proof.
  split.
  - eexists. eexists. split; [vm_compute; reflexivity|].
    vm_compute. repeat split.
  - cbv zeta. eexists. eexists. split; [vm_compute; reflexivity|].
    vm_compute. repeat split.
Qed.

(** ** What a step does to the weights *)

Lemma get_set_node_attributes (A B : Type) (f : NodeAttrs -> B)
      (set : A -> NodeAttrs -> NodeAttrs) (vals : list (NodeId * A)) (g : Graph) :
  (forall v a, f (set v a) = f a) ->
  get_node_attributes f (set_node_attributes set vals g) = get_node_attributes f g.
Proof.
  intro Hset. unfold get_node_attributes, set_node_attributes. simpl.
  rewrite map_map. apply map_ext. intros [k a]. simpl.
  destruct (lookup k vals); simpl; [now rewrite Hset|reflexivity].
Qed.

Lemma keys_set_node_attributes (A : Type) (set : A -> NodeAttrs -> NodeAttrs)
      (vals : list (NodeId * A)) (g : Graph) :
  keys (g_nodes (set_node_attributes set vals g)) = keys (g_nodes g).
Proof.
  unfold keys, set_node_attributes. simpl. rewrite map_map.
  apply map_ext. intros [k a]. simpl. now destruct (lookup k vals).
Qed.

Lemma set_node_attributes_nil (A : Type) (set : A -> NodeAttrs -> NodeAttrs)
      (g : Graph) :
  set_node_attributes set [] g = g.
Proof.
  destruct g as [nodes adj]. unfold set_node_attributes. simpl.
  now rewrite map_id.
Qed.

Lemma update_norm_weight_done (g g1 : Graph) (nw : list (NodeId * Q)) :
  update_norm_weight g = Done (g1, nw) ->
  g1 = set_node_attributes set_norm_weight nw g.
Proof.
  unfold update_norm_weight.
  destruct (py_max _); simpl; try discriminate.
  destruct (mapM _ _); simpl; try discriminate.
  intro H. now inversion H.
Qed.

Lemma update_node_score_done (cfg : Config) (nw : list (NodeId * Q))
      (g1 g2 : Graph) :
  update_node_score cfg nw g1 = Done g2 ->
  exists vals, g2 = set_node_attributes set_node_score vals g1.
Proof.
  unfold update_node_score.
  destruct (normalise _); simpl; try discriminate.
  destruct (normalise _); simpl; try discriminate.
  intro H. inversion H. eauto.
Qed.

Lemma process_refs_ref_nodes (cfg : Config) (refs : list nat) (sim : Sim)
      (r r' : Rng) (new_refs : list Ref) (ref_nodes : list (NodeId * list Z)) :
  process_refs cfg refs sim r = Done (new_refs, ref_nodes, r') ->
  ref_nodes = empty_lists (graph sim).
Proof.
  unfold process_refs.
  destruct (process_loop cfg sim refs [] r) as [[nr r1]| |]; simpl;
    try discriminate.
  intro H. now inversion H.
Qed.

Lemma pool_map_ref_nodes (cfg : Config) (sim : Sim) (wr : nat -> Rng)
      (chunks : list (list nat)) :
  forall i results,
    pool_map cfg sim chunks i wr = Done results ->
    List.length results = List.length chunks
    /\ Forall (fun b => snd b = empty_lists (graph sim)) results.
Proof.
  induction chunks as [|c rest IH]; intros i results H; simpl in H.
  - inversion H. split; [reflexivity|constructor].
  - destruct (process_refs cfg c sim (wr i)) as [[[nr rn] r1]| |] eqn:E;
      simpl in H; try discriminate.
    destruct (pool_map cfg sim rest (S i) wr) as [rs| |] eqn:E2;
      simpl in H; try discriminate.
    inversion H; subst. destruct (IH _ _ E2) as [Hlen Hall].
    split; [simpl; now rewrite Hlen|].
    constructor; [simpl; eapply process_refs_ref_nodes; eassumption|exact Hall].
Qed.

Lemma split_sizes_length (A : Type) (sizes : list nat) :
  forall l : list A, List.length (split_sizes l sizes) = List.length sizes.
Proof. induction sizes; intro l; simpl; [reflexivity|now rewrite IHsizes]. Qed.

Lemma array_split_nonempty (A : Type) (l : list A) (k : Z) (chunks : list (list A)) :
  array_split l k = Done chunks -> chunks <> [].
Proof.
  unfold array_split. destruct (k <=? 0)%Z eqn:E; [discriminate|].
  apply Z.leb_gt in E. intro H. inversion H as [Hc]. clear H Hc.
  intro Hnil. apply (f_equal (@List.length _)) in Hnil.
  rewrite split_sizes_length, length_app, !repeat_length in Hnil. simpl in Hnil.
  assert (Hk : (0 < Z.to_nat k)%nat) by lia.
  assert (Hm := Nat.mod_upper_bound (List.length l) (Z.to_nat k)).
  lia.
Qed.

Lemma run_batches_ref_nodes (cfg : Config) (sim : Sim) (r r' : Rng)
      (wr : nat -> Rng) (results : list batch_result) :
  run_batches cfg sim r wr = Done (results, r') ->
  results <> []
  /\ Forall (fun b => snd b = empty_lists (graph sim)) results.
Proof.
  unfold run_batches. destruct (1 <? num_processes sim)%Z.
  - destruct (array_split _ _) as [chunks| |] eqn:E; simpl; try discriminate.
    destruct (pool_map cfg sim chunks 0 wr) as [rs| |] eqn:E2; simpl;
      try discriminate.
    intro H. inversion H; subst.
    destruct (pool_map_ref_nodes _ _ _ _ _ E2) as [Hlen Hall].
    split; [|exact Hall].
    apply array_split_nonempty in E.
    destruct results; [destruct chunks; [congruence|discriminate]|discriminate].
  - destruct (process_refs cfg _ sim r) as [[[nr rn] r1]| |] eqn:E; simpl;
      try discriminate.
    intro H. inversion H; subst. split; [discriminate|].
    constructor; [simpl; eapply process_refs_ref_nodes; eassumption|constructor].
Qed.

Lemma lookup_obj_row_empty (g : Graph) (k : NodeId) :
  In k (keys (g_nodes g)) ->
  lookup k (obj_row (empty_lists g)) = Some (CObj []).
Proof.
  unfold obj_row, empty_lists. rewrite map_map. simpl.
  induction (keys (g_nodes g)) as [|k' ks IH]; simpl; [tauto|].
  intros [->|Hin].
  - now rewrite node_eqb_refl.
  - destruct (node_eqb k k'); [reflexivity|now apply IH].
Qed.

Lemma keys_num_row (d : list (NodeId * Z)) : keys (num_row d) = keys d.
Proof. unfold keys, num_row. rewrite map_map. now apply map_ext. Qed.

Lemma flat_map_nil (A B : Type) (f : A -> list B) (l : list A) :
  (forall x, In x l -> f x = []) -> flat_map f l = [].
Proof.
  induction l as [|x l IH]; simpl; intro H; [reflexivity|].
  rewrite (H x (or_introl eq_refl)). apply IH. intros y Hy. apply H. now right.
Qed.

(** Once a batch has handed back its empty lists, every column of the
    frame holds an object and the numeric sum has no entry. *)
Lemma sum_numeric_only_objects (g : Graph) (ow : list (NodeId * Z))
      (results : list batch_result) :
  keys ow = keys (g_nodes g) ->
  results <> [] ->
  Forall (fun b => snd b = empty_lists g) results ->
  sum_numeric_only (num_row ow :: map (fun res => obj_row (snd res)) results) = [].
Proof.
  intros Hk Hne Hall. destruct results as [|b rest]; [congruence|].
  inversion Hall as [|? ? Hb _]; subst.
  unfold sum_numeric_only. apply flat_map_nil. intros k Hin.
  simpl in Hin. rewrite keys_num_row, Hk in Hin.
  simpl. rewrite Hb, (lookup_obj_row_empty g k Hin).
  destruct (lookup k (num_row ow)) as [[z|l]|]; reflexivity.
Qed.

Lemma merge_keeps_graph (ow : list (NodeId * Z)) (results : list batch_result)
      (sim : Sim) :
  keys ow = keys (g_nodes (graph sim)) ->
  results <> [] ->
  Forall (fun b => snd b = empty_lists (graph sim)) results ->
  merge ow results sim
  = with_refugees (List.concat (map fst results)) sim.
Proof.
  intros Hk Hne Hall. unfold merge.
  rewrite (sum_numeric_only_objects (graph sim) ow Hk Hne Hall).
  assert (E : combine (keys (g_nodes (graph sim))) (@nil Z) = [])
    by now destruct (keys (g_nodes (graph sim))).
  rewrite E, set_node_attributes_nil. now destruct sim.
Qed.

Lemma seed_disabled (cfg : Config) (sim : Sim) :
  (seed_refs cfg <= 0)%Z -> seed cfg sim = (sim, Done tt).
Proof.
  intro H. unfold seed. apply Z.ltb_ge in H. now rewrite H.
Qed.

(** The graph on which the batches run differs from the graph before the
    step in [norm_weight] and [node_score] only. *)
Lemma scored_graph (cfg : Config) (g g1 g2 : Graph) (nw : list (NodeId * Q)) :
  update_norm_weight g = Done (g1, nw) ->
  update_node_score cfg nw g1 = Done g2 ->
  keys (g_nodes g2) = keys (g_nodes g)
  /\ get_node_attributes weight g2 = get_node_attributes weight g.
Proof.
  intros H1 H2. apply update_norm_weight_done in H1.
  apply update_node_score_done in H2. destruct H2 as [vals H2]. subst.
  split.
  - now rewrite !keys_set_node_attributes.
  - now rewrite !get_set_node_attributes.
Qed.

(** C2. With [seed_refs = 0], the weight of every node after a call of
    [step] is its weight before the call, whether the call returns or
    raises.  The dictionary that [process_refs] hands back is [ref_nodes],
    an empty list per node; on a frame made of the old weights and at least
    one such dictionary the numeric sum has no entry, so the merge writes no
    weight. *)
Theorem step_leaves_weights
        (cfg : Config) (sim : Sim) (r : Rng) (wr : nat -> Rng) :
  seed_refs cfg = 0%Z ->
  get_node_attributes weight (graph (fst (step cfg sim r wr)))
  = get_node_attributes weight (graph sim)
  /\ (forall refs s r0 new_refs ref_nodes r1,
         process_refs cfg refs s r0 = Done (new_refs, ref_nodes, r1) ->
         ref_nodes = map (fun k => (k, [])) (keys (g_nodes (graph s))))
  /\ (forall s r0 results r1,
         run_batches cfg s r0 wr = Done (results, r1) ->
         sum_numeric_only
           (num_row (get_node_attributes weight (graph s))
                    :: map (fun res => obj_row (snd res)) results) = []).
Proof.
  intro Hseed. split; [|split].
  - unfold step, step_from.
    destruct (update_norm_weight (graph sim)) as [[g1 nw]| |] eqn:E1;
      simpl; try reflexivity.
    destruct (update_node_score cfg nw g1) as [g2| |] eqn:E2; simpl.
    + destruct (scored_graph cfg _ E1 E2) as [Hk Hw].
      destruct (run_batches cfg (with_graph g2 sim) r wr) as [[results r1]| |] eqn:E3;
        simpl; try exact Hw.
      destruct (run_batches_ref_nodes _ _ _ _ E3) as [Hne Hall].
      rewrite merge_keeps_graph; try assumption.
      * rewrite seed_disabled by lia. simpl. exact Hw.
      * simpl. now rewrite keys_get_node_attributes.
    + apply update_norm_weight_done in E1. subst g1.
      now rewrite get_set_node_attributes.
    + apply update_norm_weight_done in E1. subst g1.
      now rewrite get_set_node_attributes.
  - intros refs s r0 new_refs ref_nodes r1 H.
    now apply process_refs_ref_nodes in H.
  - intros s r0 results r1 H.
    destruct (run_batches_ref_nodes _ _ _ _ H) as [Hne Hall].
    apply (sum_numeric_only_objects (graph s)); try assumption.
    apply keys_get_node_attributes.
Qed.

Lemma step_leaves_weights_witness :
  let sim := mkSim path3 1 1 1 10 (repeat (new_Ref (NStr "A")) 10) in
  let out := step default_config sim counting_tape (fun _ => counting_tape) in
  snd out = Done counting_tape
  /\ map node (all_refugees (fst out)) = repeat (NStr "B") 10
  /\ get_node_attributes weight (graph (fst out))
     = get_node_attributes weight (graph sim).
Proof.
  cbv zeta. split; [|split].
  - vm_compute. reflexivity.
  - vm_compute. reflexivity.
  - apply (proj1 (step_leaves_weights default_config
                    (mkSim path3 1 1 1 10 (repeat (new_Ref (NStr "A")) 10))
                    counting_tape (fun _ => counting_tape) eq_refl)).
Defined.

(** ** Social links *)

Lemma dict_set_in (k : nat) (d : list nat) (x : nat) :
  In x (dict_set k d) <-> x = k \/ In x d.
Proof.
  unfold dict_set. destruct (existsb (Nat.eqb k) d) eqn:E.
  - split; [tauto|]. intros [->|H]; [|exact H].
    apply existsb_exists in E. destruct E as [y [Hy Heq]].
    apply Nat.eqb_eq in Heq. now subst.
  - rewrite in_app_iff. simpl. intuition.
Qed.

Lemma links_of_add_link (k' k : link) (p : nat) (a : Ref) (x : nat) :
  In x (links_of k' (add_link k p a))
  <-> In x (links_of k' a) \/ (k' = k /\ x = p).
Proof.
  destruct k', k; simpl; rewrite ?dict_set_in; intuition discriminate.
Qed.

Lemma update_nth_length (A : Type) (f : A -> A) (l : list A) :
  forall i, List.length (update_nth i f l) = List.length l.
Proof.
  induction l as [|x l IH]; intros [|i]; simpl; try reflexivity.
  now rewrite IH.
Qed.

Lemma nth_error_update_nth (A : Type) (f : A -> A) (l : list A) :
  forall i j,
    nth_error (update_nth i f l) j
    = if Nat.eqb j i then option_map f (nth_error l j) else nth_error l j.
Proof.
  induction l as [|x l IH]; intros [|i] [|j]; simpl; try reflexivity.
  - now destruct (Nat.eqb j i).
  - apply IH.
Qed.

Lemma linked_update (refs : list Ref) (i : nat) (k : link) (p : nat)
      (k' : link) (a b : nat) :
  linked (update_nth i (add_link k p) refs) k' a b
  <-> linked refs k' a b
      \/ (k' = k /\ a = i /\ b = p /\ (i < List.length refs)%nat).
Proof.
  unfold linked. rewrite nth_error_update_nth.
  destruct (Nat.eqb_spec a i) as [->|Hne].
  - split.
    + intros [ra' [Hn Hin]].
      destruct (nth_error refs i) as [ra|] eqn:E; simpl in Hn; [|discriminate].
      inversion Hn; subst. apply links_of_add_link in Hin.
      destruct Hin as [Hin|[-> ->]]; [left; eauto|right].
      repeat split. apply nth_error_Some. congruence.
    + intros [[ra [Hn Hin]]|[-> [_ [-> Hlt]]]].
      * rewrite Hn. simpl. eexists. split; [reflexivity|].
        apply links_of_add_link. now left.
      * apply nth_error_Some in Hlt.
        destruct (nth_error refs i) as [ra|]; [|congruence].
        simpl. eexists. split; [reflexivity|].
        apply links_of_add_link. now right.
  - split; [intros H; now left|].
    intros [H|[_ [H _]]]; [exact H|contradiction].
Qed.

Lemma pick_partner_other (fuel : nat) (index : nat) (sim : Sim) :
  forall r p r', pick_partner fuel index sim r = Done (p, r') -> p <> index.
Proof.
  induction fuel as [|fuel IH]; intros r p r' H; simpl in H; [discriminate|].
  unfold randint in H.
  destruct (num_refugees sim - 1 <? 0)%Z eqn:E; simpl in H; [discriminate|].
  apply Z.ltb_ge in E.
  unfold draw in H. simpl in H.
  destruct (_ =? Z.of_nat index)%Z eqn:Ek.
  - eapply IH; eassumption.
  - inversion H; subst. apply Z.eqb_neq in Ek.
    assert (B := Z.mod_pos_bound (tape r (pos r)) (num_refugees sim - 1 - 0 + 1)).
    lia.
Qed.

Lemma link_once_ok (fuel : nat) (k : link) (index : nat) (sim sim' : Sim)
      (r r' : Rng) :
  (index < List.length (all_refugees sim))%nat ->
  links_ok (all_refugees sim) ->
  link_once fuel k index sim r = Done (sim', r') ->
  links_ok (all_refugees sim') /\ same_frame sim sim'.
Proof.
  intros Hidx Hok H. unfold link_once in H.
  destruct (pick_partner fuel index sim r) as [[p r1]| |] eqn:Ep;
    simpl in H; try discriminate.
  apply pick_partner_other in Ep.
  destruct (p <? _)%nat eqn:Elt; [|discriminate].
  apply Nat.ltb_lt in Elt. inversion H; subst; clear H. simpl.
  split.
  - intros k' a b Hl.
    assert (Hiff : forall x y,
               linked (update_nth p (add_link k index)
                         (update_nth index (add_link k p) (all_refugees sim))) k' x y
               <-> linked (all_refugees sim) k' x y
                   \/ (k' = k /\ x = index /\ y = p)
                   \/ (k' = k /\ x = p /\ y = index)).
    { intros x y. rewrite linked_update, linked_update.
      rewrite update_nth_length in Elt |- *. intuition. }
    apply Hiff in Hl. rewrite Hiff.
    destruct Hl as [Hl|[[-> [-> ->]]|[-> [-> ->]]]].
    + destruct (Hok _ _ _ Hl) as [Hne Hsym]. auto.
    + split; [exact Ep|]. right. right. auto.
    + split; [congruence|]. right. left. auto.
  - unfold same_frame. simpl. now rewrite !update_nth_length.
Qed.

Lemma same_frame_refl (s : Sim) : same_frame s s.
Proof. unfold same_frame. auto. Qed.

Lemma same_frame_trans (s1 s2 s3 : Sim) :
  same_frame s1 s2 -> same_frame s2 s3 -> same_frame s1 s3.
Proof. unfold same_frame. intuition congruence. Qed.

Lemma link_times_ok (fuel : nat) (k : link) (index : nat) (count : nat) :
  forall sim r sim' r',
    (index < List.length (all_refugees sim))%nat ->
    links_ok (all_refugees sim) ->
    link_times count fuel k index sim r = Done (sim', r') ->
    links_ok (all_refugees sim') /\ same_frame sim sim'.
Proof.
  induction count as [|c IH]; intros sim r sim' r' Hidx Hok H; simpl in H.
  - inversion H; subst. split; [exact Hok|apply same_frame_refl].
  - destruct (link_once fuel k index sim r) as [[s1 r1]| |] eqn:E;
      simpl in H; try discriminate.
    edestruct link_once_ok as [Hok1 Hf1]; [exact Hidx|exact Hok|exact E|].
    assert (Hidx1 : (index < List.length (all_refugees s1))%nat)
      by (destruct Hf1 as [_ [_ Hl]]; now rewrite Hl).
    edestruct IH as [Hok2 Hf2]; [exact Hidx1|exact Hok1|exact H|].
    split; [exact Hok2|eapply same_frame_trans; eassumption].
Qed.

Lemma create_defined_ok (cfg : Config) (fuel index : nat) (sim sim' : Sim)
      (r r' : Rng) :
  (index < List.length (all_refugees sim))%nat ->
  links_ok (all_refugees sim) ->
  create_defined_social_links cfg fuel index sim r = Done (sim', r') ->
  links_ok (all_refugees sim') /\ same_frame sim sim'.
Proof.
  intros Hidx Hok H. unfold create_defined_social_links in H.
  destruct (defined_count (num_kin cfg)) as [nk| |]; simpl in H; try discriminate.
  destruct (link_times nk fuel Kin index sim r) as [[s1 r1]| |] eqn:E1;
    simpl in H; try discriminate.
  destruct (defined_count (num_friends cfg)) as [nf| |]; simpl in H;
    try discriminate.
  edestruct link_times_ok as [Hok1 Hf1]; [exact Hidx|exact Hok|exact E1|].
  assert (Hidx1 : (index < List.length (all_refugees s1))%nat)
    by (destruct Hf1 as [_ [_ Hl]]; now rewrite Hl).
  edestruct link_times_ok as [Hok2 Hf2]; [exact Hidx1|exact Hok1|exact H|].
  split; [exact Hok2|eapply same_frame_trans; eassumption].
Qed.

Lemma create_random_ok (cfg : Config) (fuel index : nat) (sim sim' : Sim)
      (r r' : Rng) :
  (index < List.length (all_refugees sim))%nat ->
  links_ok (all_refugees sim) ->
  create_random_social_links cfg fuel index sim r = Done (sim', r') ->
  links_ok (all_refugees sim') /\ same_frame sim sim'.
Proof.
  intros Hidx Hok H. unfold create_random_social_links in H.
  destruct (random_count (num_kin cfg) r) as [[nk r0]| |]; simpl in H;
    try discriminate.
  destruct (link_times nk fuel Kin index sim r0) as [[s1 r1]| |] eqn:E1;
    simpl in H; try discriminate.
  destruct (random_count (num_friends cfg) r1) as [[nf r2]| |]; simpl in H;
    try discriminate.
  edestruct link_times_ok as [Hok1 Hf1]; [exact Hidx|exact Hok|exact E1|].
  assert (Hidx1 : (index < List.length (all_refugees s1))%nat)
    by (destruct Hf1 as [_ [_ Hl]]; now rewrite Hl).
  edestruct link_times_ok as [Hok2 Hf2]; [exact Hidx1|exact Hok1|exact H|].
  split; [exact Hok2|eapply same_frame_trans; eassumption].
Qed.

Lemma link_all_ok (create : nat -> nat -> Sim -> Rng -> res (Sim * Rng))
      (fuel : nat) :
  (forall index sim r sim' r',
      (index < List.length (all_refugees sim))%nat ->
      links_ok (all_refugees sim) ->
      create fuel index sim r = Done (sim', r') ->
      links_ok (all_refugees sim') /\ same_frame sim sim') ->
  forall indices sim r sim' r',
    Forall (fun i => (i < List.length (all_refugees sim))%nat) indices ->
    links_ok (all_refugees sim) ->
    link_all create fuel indices sim r = Done (sim', r') ->
    links_ok (all_refugees sim').
Proof.
  intros Hcreate. induction indices as [|i rest IH];
    intros sim r sim' r' Hall Hok H; simpl in H.
  - now inversion H; subst.
  - destruct (create fuel i sim r) as [[s1 r1]| |] eqn:E; simpl in H;
      try discriminate.
    inversion Hall as [|? ? Hi Hrest]; subst.
    edestruct Hcreate as [Hok1 [_ [_ Hlen]]]; [exact Hi|exact Hok|exact E|].
    eapply IH; [|exact Hok1|exact H].
    now rewrite Hlen.
Qed.

Lemma unlinked_not_linked (refs : list Ref) (k : link) (a b : nat) :
  Forall unlinked refs -> ~ linked refs k a b.
Proof.
  intros Hall [ra [Hn Hin]]. apply nth_error_In in Hn.
  rewrite Forall_forall in Hall. specialize (Hall _ Hn).
  unfold unlinked, social in Hall. injection Hall as Hk Hf.
  destruct k; simpl in Hin; [rewrite Hk in Hin|rewrite Hf in Hin]; exact Hin.
Qed.

Lemma Sim_init_links_ok (cfg : Config) (g : Graph) (steps processes batches : Z)
      (fuel : nat) (r r' : Rng) (sim : Sim) :
  Sim_init cfg g steps processes batches fuel r = Done (sim, r') ->
  links_ok (all_refugees sim).
Proof.
  unfold Sim_init. intro H.
  set (refs := flat_map _ (g_nodes g)) in H.
  set (sim0 := mkSim g steps processes batches _ refs) in H.
  assert (Hok0 : links_ok (all_refugees sim0)).
  { intros k a b Hl. exfalso. revert Hl. apply unlinked_not_linked.
    apply Forall_forall. intros x Hx. simpl in Hx. unfold refs in Hx.
    apply in_flat_map in Hx. destruct Hx as [na [_ Hx]].
    apply repeat_spec in Hx. now subst. }
  assert (Hidx : Forall (fun i => (i < List.length (all_refugees sim0))%nat)
                        (seq 0 (List.length refs))).
  { apply Forall_forall. intros i Hi. apply in_seq in Hi. simpl. lia. }
  destruct (num_friends cfg).
  - eapply (link_all_ok (create_defined_social_links cfg)); try eassumption.
    intros; eapply create_defined_ok; eassumption.
  - eapply (link_all_ok (create_random_social_links cfg)); try eassumption.
    intros; eapply create_random_ok; eassumption.
Qed.

(** *** A step copies the social data of every agent *)

Lemma process_ref_social (cfg : Config) (sim : Sim) (ref : nat) (r r' : Rng)
      (a : Ref) (w : list (NodeId * Z)) :
  process_ref cfg sim ref r = Done (a, w, r') ->
  exists me, nth_error (all_refugees sim) ref = Some me /\ social a = social me.
Proof.
  unfold process_ref.
  destruct (nth_error (all_refugees sim) ref) as [me|]; [|discriminate].
  destruct (lookup (node me) (g_nodes (graph sim))) as [attrs|]; [|discriminate].
  destruct (decide_move cfg attrs r) as [[|] r1].
  - destruct (find_new_node cfg sim (node me) ref) as [[nn|]| |]; simpl;
      try discriminate.
    + destruct (truthy nn); intro H; inversion H; subst; eauto.
    + intro H; inversion H; subst; eauto.
  - intro H; inversion H; subst; eauto.
Qed.

Lemma process_loop_social (cfg : Config) (sim : Sim) (refs : list nat) :
  forall acc r out r',
    process_loop cfg sim refs acc r = Done (out, r') ->
    exists new,
      out = acc ++ new
      /\ map (fun a => Some (social a)) new
         = map (fun i => option_map social (nth_error (all_refugees sim) i)) refs.
Proof.
  induction refs as [|ref rest IH]; intros acc r out r' H; simpl in H.
  - inversion H; subst. exists []. now rewrite app_nil_r.
  - destruct (process_ref cfg sim ref r) as [[[a w] r1]| |] eqn:E; simpl in H;
      try discriminate.
    apply process_ref_social in E. destruct E as [me [Hme Hs]].
    apply IH in H. destruct H as [new [-> Hmap]].
    exists (a :: new). split; [now rewrite <- app_assoc|].
    simpl. now rewrite Hme, Hmap, Hs.
Qed.

Lemma pool_map_social (cfg : Config) (sim : Sim) (wr : nat -> Rng)
      (chunks : list (list nat)) :
  forall i results,
    pool_map cfg sim chunks i wr = Done results ->
    map (fun a => Some (social a)) (List.concat (map fst results))
    = map (fun i => option_map social (nth_error (all_refugees sim) i))
          (List.concat chunks).
Proof.
  induction chunks as [|c rest IH]; intros i results H; simpl in H.
  - now inversion H.
  - unfold process_refs in H.
    destruct (process_loop cfg sim c [] (wr i)) as [[nr r1]| |] eqn:E;
      simpl in H; try discriminate.
    destruct (pool_map cfg sim rest (S i) wr) as [rs| |] eqn:E2;
      simpl in H; try discriminate.
    inversion H; subst. simpl.
    apply process_loop_social in E. destruct E as [new [-> Hmap]].
    simpl. rewrite !map_app, Hmap. f_equal. eapply IH; eassumption.
Qed.

Lemma nth_error_seq (A : Type) (l : list A) :
  map (nth_error l) (seq 0 (List.length l)) = map Some l.
Proof.
  induction l as [|x l IH]; simpl; [reflexivity|].
  rewrite <- seq_shift, map_map. f_equal. rewrite <- IH.
  now apply map_ext.
Qed.

Lemma list_sum_repeat (x n : nat) : list_sum (repeat x n) = (n * x)%nat.
Proof. induction n; simpl; [reflexivity|now rewrite IHn]. Qed.

Lemma split_sizes_concat (A : Type) (sizes : list nat) :
  forall l : list A,
    list_sum sizes = List.length l -> List.concat (split_sizes l sizes) = l.
Proof.
  induction sizes as [|s rest IH]; intros l H; simpl in *.
  - symmetry in H. apply length_zero_iff_nil in H. now subst.
  - rewrite IH; [apply firstn_skipn|].
    rewrite length_skipn. lia.
Qed.

(** [np.array_split] cuts its argument into consecutive sections. *)
Lemma array_split_concat (A : Type) (l : list A) (k : Z) (chunks : list (list A)) :
  array_split l k = Done chunks -> List.concat chunks = l.
Proof.
  unfold array_split. destruct (k <=? 0)%Z eqn:E; [discriminate|].
  apply Z.leb_gt in E. intro H. inversion H as [Hc]. clear H Hc.
  apply split_sizes_concat.
  rewrite list_sum_app, !list_sum_repeat.
  assert (Hk : (Z.to_nat k <> 0)%nat) by lia.
  assert (Hm := Nat.mod_upper_bound (List.length l) (Z.to_nat k) Hk).
  assert (Hd := Nat.div_mod_eq (List.length l) (Z.to_nat k)).
  nia.
Qed.

Lemma map_Some_inj (A : Type) (l l' : list A) :
  map Some l = map Some l' -> l = l'.
Proof.
  revert l'. induction l as [|x l IH]; intros [|y l'] H; simpl in H;
    try discriminate; [reflexivity|].
  inversion H. f_equal. now apply IH.
Qed.

Lemma run_batches_social (cfg : Config) (sim : Sim) (r r' : Rng)
      (wr : nat -> Rng) (results : list batch_result) :
  run_batches cfg sim r wr = Done (results, r') ->
  map social (List.concat (map fst results)) = map social (all_refugees sim).
Proof.
  intro H. apply map_Some_inj. rewrite !map_map.
  rewrite <- (map_map social Some (all_refugees sim)).
  rewrite <- nth_error_seq, length_map.
  unfold run_batches in H. destruct (1 <? num_processes sim)%Z.
  - destruct (array_split _ _) as [chunks| |] eqn:E; simpl in H;
      try discriminate.
    destruct (pool_map cfg sim chunks 0 wr) as [rs| |] eqn:E2; simpl in H;
      try discriminate.
    inversion H; subst. apply array_split_concat in E.
    rewrite (pool_map_social _ _ _ _ _ E2), E.
    apply map_ext. intro i. now rewrite nth_error_map.
  - unfold process_refs in H.
    destruct (process_loop cfg sim _ [] r) as [[nr r1]| |] eqn:E; simpl in H;
      try discriminate.
    inversion H; subst. simpl. rewrite app_nil_r.
    apply process_loop_social in E. destruct E as [new [-> Hmap]].
    simpl. rewrite Hmap.
    apply map_ext. intro i. now rewrite nth_error_map.
Qed.

Lemma linked_social (refs refs' : list Ref) (k : link) (a b : nat) :
  map social refs = map social refs' ->
  linked refs k a b -> linked refs' k a b.
Proof.
  intros Hs [ra [Hn Hin]].
  assert (H : nth_error (map social refs') a = Some (social ra))
    by (rewrite <- Hs, nth_error_map, Hn; reflexivity).
  rewrite nth_error_map in H.
  destruct (nth_error refs' a) as [ra'|] eqn:E'; [|discriminate].
  simpl in H. injection H as Hk Hf.
  exists ra'. split; [exact E'|].
  destruct k; simpl in *; congruence.
Qed.

Lemma links_ok_social (refs refs' : list Ref) :
  map social refs' = map social refs -> links_ok refs -> links_ok refs'.
Proof.
  intros Hs Hok k a b Hl.
  apply (@linked_social refs' refs k a b Hs) in Hl.
  destruct (Hok _ _ _ Hl) as [Hne Hsym].
  split; [exact Hne|]. now apply (@linked_social refs refs' k b a (eq_sym Hs)).
Qed.

Lemma linked_app_unlinked (refs fresh : list Ref) (k : link) (a b : nat) :
  Forall unlinked fresh ->
  linked (refs ++ fresh) k a b <-> linked refs k a b.
Proof.
  intro Hf. split; intros [ra [Hn Hin]].
  - destruct (Nat.lt_ge_cases a (List.length refs)) as [Hlt|Hge].
    + rewrite nth_error_app1 in Hn by exact Hlt. now exists ra.
    + rewrite nth_error_app2 in Hn by exact Hge.
      exfalso. apply (@unlinked_not_linked fresh k (a - List.length refs) b Hf).
      now exists ra.
  - exists ra. split; [|exact Hin].
    rewrite nth_error_app1; [exact Hn|].
    apply nth_error_Some. congruence.
Qed.

Lemma links_ok_app_unlinked (refs fresh : list Ref) :
  Forall unlinked fresh -> links_ok refs -> links_ok (refs ++ fresh).
Proof.
  intros Hf Hok k a b Hl. apply (@linked_app_unlinked refs fresh k a b Hf) in Hl.
  destruct (Hok _ _ _ Hl) as [Hne Hsym].
  split; [exact Hne|]. now apply (@linked_app_unlinked refs fresh k b a Hf).
Qed.

Lemma seed_loop_refugees (cfg : Config) (nodes : list NodeId) :
  forall sim,
  exists fresh,
    all_refugees (fst (seed_loop cfg nodes sim)) = all_refugees sim ++ fresh
    /\ Forall unlinked fresh.
Proof.
  induction nodes as [|nd rest IH]; intro sim; simpl.
  - exists []. now rewrite app_nil_r.
  - destruct (lookup nd (g_nodes (graph sim))).
    + destruct (IH (with_refugees
                      (all_refugees sim
                       ++ repeat (new_Ref nd) (Z.to_nat (seed_refs cfg)))
                      (with_graph (add_weight nd (seed_refs cfg) (graph sim)) sim)))
        as [fresh [Heq Hf]].
      rewrite Heq. simpl. rewrite <- app_assoc. eexists. split; [reflexivity|].
      apply Forall_app. split; [|exact Hf].
      apply Forall_forall. intros x Hx. apply repeat_spec in Hx. now subst.
    + exists []. now rewrite app_nil_r.
Qed.

Lemma seed_refugees (cfg : Config) (sim : Sim) :
  exists fresh,
    all_refugees (fst (seed cfg sim)) = all_refugees sim ++ fresh
    /\ Forall unlinked fresh.
Proof.
  unfold seed. destruct (0 <? seed_refs cfg)%Z.
  - destruct (seed_loop_refugees cfg (seed_nodes cfg)
                (with_num_refugees
                   (num_refugees sim
                    + seed_refs cfg * Z.of_nat (List.length (seed_nodes cfg)))
                   sim)) as [fresh [Heq Hf]].
    exists fresh. split; [|exact Hf].
    destruct (seed_loop cfg (seed_nodes cfg) _) as [s2 [u|e|]]; exact Heq.
  - exists []. now rewrite app_nil_r.
Qed.

(** A call of [step], returning or raising, keeps the links well formed. *)
Lemma step_links_ok (cfg : Config) (sim : Sim) (r : Rng) (wr : nat -> Rng) :
  links_ok (all_refugees sim) ->
  links_ok (all_refugees (fst (step cfg sim r wr))).
Proof.
  intro Hok. unfold step, step_from.
  destruct (update_norm_weight (graph sim)) as [[g1 nw]| |]; simpl;
    try exact Hok.
  destruct (update_node_score cfg nw g1) as [g2| |]; simpl; try exact Hok.
  destruct (run_batches cfg (with_graph g2 sim) r wr) as [[results r1]| |] eqn:E;
    simpl; try exact Hok.
  apply run_batches_social in E. simpl in E.
  set (sim3 := merge _ results _).
  assert (Hok3 : links_ok (all_refugees sim3))
    by (apply (@links_ok_social (all_refugees sim) (all_refugees sim3) E Hok)).
  destruct (seed_refugees cfg sim3) as [fresh [Heq Hf]].
  assert (Hok4 : links_ok (all_refugees (fst (seed cfg sim3))))
    by (rewrite Heq; now apply links_ok_app_unlinked).
  destruct (seed cfg sim3) as [s4 [u|e|]]; exact Hok4.
Qed.

Lemma reachable_links_ok (cfg : Config) (sim : Sim) :
  reachable cfg sim -> links_ok (all_refugees sim).
Proof.
  induction 1 as [g steps processes batches fuel r sim r' Hinit|sim r wr _ IH].
  - eapply Sim_init_links_ok; eassumption.
  - now apply step_links_ok.
Qed.

(** C8. In every state that a run exposes - after the construction and
    after each step, with or without seeding, returned or raised - agent
    [b] is kin of agent [a] exactly when [a] is kin of [b], the same holds
    for friends, and no agent is its own kin or friend. *)
Theorem social_links_symmetric
        (cfg : Config) (sim : Sim) (a b : nat) (ra rb : Ref) :
  reachable cfg sim ->
  nth_error (all_refugees sim) a = Some ra ->
  nth_error (all_refugees sim) b = Some rb ->
  (In b (kin_list ra) <-> In a (kin_list rb))
  /\ (In b (friend_list ra) <-> In a (friend_list rb))
  /\ ~ In a (kin_list ra)
  /\ ~ In a (friend_list ra).
Proof.
  intros Hreach Ha Hb. apply reachable_links_ok in Hreach.
  assert (Hdir : forall k x y rx ry,
             nth_error (all_refugees sim) x = Some rx ->
             nth_error (all_refugees sim) y = Some ry ->
             In y (links_of k rx) -> In x (links_of k ry)).
  { intros k x y rx ry Hx Hy Hin.
    destruct (Hreach k x y) as [_ [ry' [Hy' Hin']]]; [now exists rx|].
    congruence. }
  assert (Hirr : forall k, ~ In a (links_of k ra)).
  { intros k Hin. destruct (Hreach k a a) as [Hne _]; [now exists ra|].
    now apply Hne. }
  repeat split.
  - apply (Hdir Kin a b ra rb Ha Hb).
  - apply (Hdir Kin b a rb ra Hb Ha).
  - apply (Hdir Friend a b ra rb Ha Hb).
  - apply (Hdir Friend b a rb ra Hb Ha).
  - apply (Hirr Kin).
  - apply (Hirr Friend).
Qed.

Lemma social_links_symmetric_witness :
  let out := step seeded_config (fst seeded_start) (snd seeded_start)
                  (fun _ => snd seeded_start) in
  let ra := nth 0 (all_refugees (fst out)) (new_Ref (NStr "A")) in
  let rb := nth 1 (all_refugees (fst out)) (new_Ref (NStr "A")) in
  (snd out = Raise AttributeError
   /\ List.length (all_refugees (fst out)) = 11%nat
   /\ In 1%nat (kin_list ra))
  /\ (In 1%nat (kin_list ra) <-> In 0%nat (kin_list rb))
  /\ (In 1%nat (friend_list ra) <-> In 0%nat (friend_list rb))
  /\ ~ In 0%nat (kin_list ra)
  /\ ~ In 0%nat (friend_list ra).
Proof.
  cbv zeta. split.
  - vm_compute. repeat split. now left.
  - apply (@social_links_symmetric seeded_config
             (fst (step seeded_config (fst seeded_start) (snd seeded_start)
                        (fun _ => snd seeded_start))) 0 1).
    + apply reach_step.
      apply (@reach_init seeded_config path3 1 1 1 5 counting_tape
                         (fst seeded_start) (snd seeded_start)).
      vm_compute. reflexivity.
    + vm_compute. reflexivity.
    + vm_compute. reflexivity.
Defined.

(** ** Batches *)

(** *** The batch loop reads the graph and the agents only *)



(** *** Cutting the index list *)



(** *** The draws of a batch *)

Lemma advance_0 (r : Rng) : advance 0 r = r.
Proof. now destruct r. Qed.

Lemma advance_advance (n m : nat) (r : Rng) :
  advance m (advance n r) = advance (n + m) r.
Proof. unfold advance. simpl. f_equal. lia. Qed.

Lemma decide_move_rng (cfg : Config) (a : NodeAttrs) (r : Rng) :
  snd (decide_move cfg a r)
  = advance (if (0 <? num_conflicts a)%Z then 0 else 1) r.
Proof.
  unfold decide_move. destruct (0 <? num_conflicts a)%Z; simpl.
  - now rewrite advance_0.
  - destruct (0 <? num_camps a)%Z; reflexivity.
Qed.

Lemma process_ref_rng (cfg : Config) (sim : Sim) (ref : nat) (r r' : Rng)
      (a : Ref) (w : list (NodeId * Z)) :
  process_ref cfg sim ref r = Done (a, w, r') ->
  r' = advance (draws_of sim ref) r.
Proof.
  unfold process_ref, draws_of.
  destruct (nth_error (all_refugees sim) ref) as [me|]; [|discriminate].
  destruct (lookup (node me) (g_nodes (graph sim))) as [attrs|]; [|discriminate].
  rewrite <- (@decide_move_rng cfg attrs r).
  destruct (decide_move cfg attrs r) as [[|] r1]; simpl.
  - destruct (find_new_node cfg sim (node me) ref) as [[nn|]| |]; simpl;
      try discriminate.
    + destruct (truthy nn); intro H; now inversion H.
    + intro H; now inversion H.
  - intro H; now inversion H.
Qed.

Lemma process_loop_rng (cfg : Config) (sim : Sim) (refs : list nat) :
  forall acc r out r',
    process_loop cfg sim refs acc r = Done (out, r') ->
    r' = advance (draws sim refs) r.
Proof.
  induction refs as [|ref rest IH]; intros acc r out r' H; simpl in H.
  - inversion H; subst. unfold draws. simpl. now rewrite advance_0.
  - destruct (process_ref cfg sim ref r) as [[[a w] r1]| |] eqn:E; simpl in H;
      try discriminate.
    apply process_ref_rng in E. apply IH in H. subst.
    rewrite advance_advance. reflexivity.
Qed.

(** *** Workers on one stream reproduce the sequential loop *)


(** *** Scoring does not change the draws *)

Lemma lookup_set_node_attributes (A : Type) (set : A -> NodeAttrs -> NodeAttrs)
      (vals : list (NodeId * A)) (g : Graph) (k : NodeId) :
  lookup k (g_nodes (set_node_attributes set vals g))
  = option_map (fun a => match lookup k vals with
                         | Some v => set v a
                         | None => a
                         end) (lookup k (g_nodes g)).
Proof.
  unfold set_node_attributes. simpl.
  induction (g_nodes g) as [|[k' a] nodes IH]; simpl; [reflexivity|].
  destruct (node_eqb k k') eqn:E.
  - apply node_eqb_eq in E. subst k'.
    destruct (lookup k vals); simpl; now rewrite node_eqb_refl.
  - destruct (lookup k' vals); simpl; rewrite E; exact IH.
Qed.



(** *** Seeding reads the graph, the agents and their number only *)







(** ** The destination of a move *)

Section Destination.
Variable cfg : Config.
Variable g : Graph.
Variables kin_nodes friend_nodes : list NodeId.

Local Abbreviation des := (desirability_at cfg g kin_nodes friend_nodes).

Lemma scan_neighbors_step (n : NodeId) (rest : list NodeId) (d s0 : Q)
      (b0 : option NodeId) :
  des n = Some d ->
  scan_neighbors cfg g kin_nodes friend_nodes (n :: rest) s0 b0
  = if Qltb s0 d
    then scan_neighbors cfg g kin_nodes friend_nodes rest d (Some n)
    else scan_neighbors cfg g kin_nodes friend_nodes rest s0 b0.
Proof.
  unfold des, desirability_at. simpl.
  destruct (lookup n (g_nodes g)) as [a|]; [|discriminate].
  destruct (node_score a) as [s|]; [|discriminate].
  simpl. intro H. now inversion H.
Qed.

(** No neighbour beats the current best: the best is kept. *)
Lemma scan_neighbors_keep (post : list NodeId) :
  forall s0 b0,
    (forall m, In m post -> exists dm, des m = Some dm /\ (dm <= s0)%Q) ->
    scan_neighbors cfg g kin_nodes friend_nodes post s0 b0 = Done b0.
Proof.
  induction post as [|m post IH]; intros s0 b0 H; [reflexivity|].
  destruct (H m (or_introl eq_refl)) as [dm [Hdm Hle]].
  rewrite (@scan_neighbors_step m post dm s0 b0 Hdm).
  assert (E : Qltb s0 dm = false).
  { destruct (Qltb s0 dm) eqn:E; [|reflexivity].
    apply Qltb_lt in E. exfalso. exact (Qlt_not_le _ _ E Hle). }
  rewrite E. apply IH. intros x Hx. apply H. now right.
Qed.

(** The loop returns the earliest neighbour of greatest desirability, when
    that desirability exceeds the starting score. *)
Lemma scan_neighbors_argmax (pre post : list NodeId) (n : NodeId) (d : Q) :
  des n = Some d ->
  (forall m, In m pre -> exists dm, des m = Some dm /\ (dm < d)%Q) ->
  (forall m, In m post -> exists dm, des m = Some dm /\ (dm <= d)%Q) ->
  forall s0 b0,
    (s0 < d)%Q ->
    scan_neighbors cfg g kin_nodes friend_nodes (pre ++ n :: post) s0 b0
    = Done (Some n).
Proof.
  intros Hn Hpre Hpost. induction pre as [|m pre IH]; intros s0 b0 Hs; simpl app.
  - rewrite (@scan_neighbors_step n post d s0 b0 Hn).
    apply Qltb_lt in Hs. rewrite Hs. now apply scan_neighbors_keep.
  - destruct (Hpre m (or_introl eq_refl)) as [dm [Hdm Hlt]].
    rewrite (@scan_neighbors_step m (pre ++ n :: post) dm s0 b0 Hdm).
    assert (Hpre' : forall x, In x pre -> exists dx, des x = Some dx /\ (dx < d)%Q)
      by (intros x Hx; apply Hpre; now right).
    destruct (Qltb s0 dm); now apply IH.
Qed.

End Destination.

(** An agent that is to move, and whose best neighbour has a desirability
    above the initial score and a truthy identifier, is copied to that
    neighbour: its own node plays no part in the choice. *)
Lemma process_ref_moves_to_best
      (cfg : Config) (sim : Sim) (ref : nat) (r : Rng) (me : Ref)
      (attrs : NodeAttrs) (pre post kin_nodes friend_nodes : list NodeId)
      (n : NodeId) (d : Q) :
  nth_error (all_refugees sim) ref = Some me ->
  lookup (node me) (g_nodes (graph sim)) = Some attrs ->
  fst (decide_move cfg attrs r) = true ->
  neighbors (graph sim) (node me) = Done (pre ++ n :: post) ->
  mapM (node_of_agent sim) (kin_list me) = Done kin_nodes ->
  mapM (node_of_agent sim) (friend_list me) = Done friend_nodes ->
  desirability_at cfg (graph sim) kin_nodes friend_nodes n = Some d ->
  (forall m, In m pre ->
             exists dm, desirability_at cfg (graph sim) kin_nodes friend_nodes m
                        = Some dm /\ (dm < d)%Q) ->
  (forall m, In m post ->
             exists dm, desirability_at cfg (graph sim) kin_nodes friend_nodes m
                        = Some dm /\ (dm <= d)%Q) ->
  (initial_score < d)%Q ->
  truthy n = true ->
  exists w, process_ref cfg sim ref r
            = Done (set_node n me, w, snd (decide_move cfg attrs r)).
Proof.
  intros Hme Ha Hmove Hnb Hk Hf Hn Hpre Hpost Hd Ht.
  rewrite (process_ref_unfold cfg sim ref r Hme Ha). cbv zeta.
  rewrite Hmove. unfold find_new_node. rewrite Hnb. simpl.
  assert (E : match pre ++ n :: post with
              | [] => @Done (option NodeId) None
              | _ :: _ =>
                  match nth_error (all_refugees sim) ref with
                  | Some me0 =>
                      kn <- mapM (node_of_agent sim) (kin_list me0) ;;
                      fn <- mapM (node_of_agent sim) (friend_list me0) ;;
                      scan_neighbors cfg (graph sim) kn fn (pre ++ n :: post)
                                     initial_score None
                  | None => Raise IndexError
                  end
              end = Done (Some n)).
  { destruct (pre ++ n :: post) eqn:El; [now destruct pre|].
    rewrite <- El, Hme, Hk, Hf. simpl.
    now apply scan_neighbors_argmax with (d := d). }
  rewrite E. simpl. rewrite Ht. eauto.
Qed.

(** An agent on a node without neighbours stays, and nothing is raised. *)
Lemma process_ref_isolate
      (cfg : Config) (sim : Sim) (ref : nat) (r : Rng) (me : Ref)
      (attrs : NodeAttrs) :
  nth_error (all_refugees sim) ref = Some me ->
  lookup (node me) (g_nodes (graph sim)) = Some attrs ->
  neighbors (graph sim) (node me) = Done [] ->
  exists w, process_ref cfg sim ref r
            = Done (me, w, snd (decide_move cfg attrs r)).
Proof.
  intros Hme Ha Hnb.
  rewrite (process_ref_unfold cfg sim ref r Hme Ha). cbv zeta.
  unfold find_new_node. rewrite Hnb. simpl.
  destruct (fst (decide_move cfg attrs r)); eauto.
Qed.

(** ** Bounds of the normalised values *)

Lemma fold_max_upper (l : list Z) :
  forall m, (m <= fold_left Z.max l m)%Z
            /\ Forall (fun x => (x <= fold_left Z.max l m)%Z) l.
Proof.
  induction l as [|x l IH]; intro m; simpl.
  - split; [lia|constructor].
  - destruct (IH (Z.max m x)) as [Hm Hall]. split; [lia|].
    constructor; [lia|exact Hall].
Qed.

Lemma py_max_upper (l : list Z) (m : Z) :
  py_max l = Done m -> Forall (fun x => (x <= m)%Z) l.
Proof.
  destruct l as [|x l]; simpl; [discriminate|].
  intro H. inversion H; subst.
  destruct (fold_max_upper l x) as [Hx Hall]. now constructor.
Qed.

Lemma true_div_unit (x m : Z) :
  (0 <= x <= m)%Z -> (0 < m)%Z ->
  exists q, true_div x m = Done q /\ in_unit q.
Proof.
  intros Hx Hm. unfold true_div.
  destruct (m =? 0)%Z eqn:E; [apply Z.eqb_eq in E; lia|].
  eexists. split; [reflexivity|].
  destruct m as [|p|p]; try lia.
  unfold in_unit, Qle, Qdiv, Qmult, Qinv, inject_Z. simpl. split; lia.
Qed.

Lemma mapM_div_unit (m : Z) (l : list Z) :
  (0 < m)%Z -> Forall (fun x => (0 <= x <= m)%Z) l ->
  exists qs, mapM (fun x => true_div x m) l = Done qs
             /\ List.length qs = List.length l /\ Forall in_unit qs.
Proof.
  intros Hm. induction 1 as [|x l Hx _ [qs [Hqs [Hlen Hall]]]]; simpl.
  - exists []. repeat split. constructor.
  - destruct (@true_div_unit x m Hx Hm) as [q [Hq Hu]].
    rewrite Hq, Hqs. simpl. exists (q :: qs). repeat split.
    + simpl. now rewrite Hlen.
    + now constructor.
Qed.

(** The camp and conflict counts normalise without an error. *)
Lemma normalise_unit (counts : list (NodeId * Z)) :
  Forall (fun kv => (0 <= snd kv)%Z) counts ->
  exists qs, normalise counts = Done qs
             /\ List.length qs = List.length counts /\ Forall in_unit qs.
Proof.
  intro Hpos. unfold normalise.
  destruct (py_max (values counts ++ [1%Z])) as [m| |] eqn:E;
    try (destruct (values counts); discriminate).
  simpl. apply py_max_upper in E. apply Forall_app in E.
  destruct E as [Hle H1]. inversion H1; subst.
  destruct (@mapM_div_unit m (values counts)) as [qs [Hqs [Hlen Hall]]];
    [lia| |].
  - unfold values. rewrite Forall_map.
    rewrite Forall_forall in Hpos, Hle |- *. intros kv Hin. split.
    + now apply Hpos.
    + apply Hle. unfold values. now apply in_map.
  - exists qs. repeat split; try assumption.
    unfold values in Hlen. now rewrite length_map in Hlen.
Qed.

Lemma lookup_combine_in (V : Type) (k : NodeId) (v : V) (ks : list NodeId) :
  forall vs, lookup k (combine ks vs) = Some v -> In v vs.
Proof.
  induction ks as [|k' ks IH]; intros [|v' vs] H; simpl in H; try discriminate.
  destruct (node_eqb k k'); [inversion H; now left|right; now apply IH].
Qed.

Lemma lookup_combine_some (V : Type) (k : NodeId) (ks : list NodeId) :
  forall vs : list V,
    List.length vs = List.length ks -> In k ks ->
    exists v, lookup k (combine ks vs) = Some v.
Proof.
  induction ks as [|k' ks IH]; intros [|v' vs] Hlen Hin; simpl in *;
    try discriminate; try contradiction.
  destruct (node_eqb k k') eqn:E; [eauto|].
  destruct Hin as [->|Hin]; [now rewrite node_eqb_refl in E|].
  apply IH; [lia|exact Hin].
Qed.

(** Whenever the population normalisation returns, every node holds a
    [norm_weight] in the unit interval, the camp and conflict counts
    normalise into the unit interval, and the scoring returns. *)
Lemma normalisation_bounds (cfg : Config) (g g1 : Graph)
      (nw : list (NodeId * Q)) :
  nonneg_inputs g ->
  update_norm_weight g = Done (g1, nw) ->
  Forall (fun na => exists q, norm_weight (snd na) = Some q /\ in_unit q)
         (g_nodes g1)
  /\ (exists camps conflicts,
         normalise (get_node_attributes num_camps g1) = Done camps
         /\ normalise (get_node_attributes num_conflicts g1) = Done conflicts
         /\ List.length camps = List.length (g_nodes g1)
         /\ List.length conflicts = List.length (g_nodes g1)
         /\ Forall in_unit camps /\ Forall in_unit conflicts)
  /\ exists g2, update_node_score cfg nw g1 = Done g2.
Proof.
  intros Hpos Hup.
  assert (Hg1 := @update_norm_weight_done g g1 nw Hup).
  assert (Hcamps : get_node_attributes num_camps g1 = get_node_attributes num_camps g)
    by (subst g1; now apply get_set_node_attributes).
  assert (Hconf : get_node_attributes num_conflicts g1
                  = get_node_attributes num_conflicts g)
    by (subst g1; now apply get_set_node_attributes).
  assert (Hlen1 : List.length (g_nodes g1) = List.length (g_nodes g))
    by (subst g1; unfold set_node_attributes; simpl; now rewrite length_map).
  destruct (@normalise_unit (get_node_attributes num_camps g))
    as [camps [Hc [Hcl Hcu]]].
  { unfold get_node_attributes, nonneg_inputs in *. rewrite Forall_map.
    eapply Forall_impl; [|exact Hpos]. simpl. intros na H. tauto. }
  destruct (@normalise_unit (get_node_attributes num_conflicts g))
    as [conflicts [Hk [Hkl Hku]]].
  { unfold get_node_attributes, nonneg_inputs in *. rewrite Forall_map.
    eapply Forall_impl; [|exact Hpos]. simpl. intros na H. tauto. }
  unfold get_node_attributes in Hcl, Hkl. rewrite length_map in Hcl, Hkl.
  split; [|split].
  - unfold update_norm_weight in Hup.
    rewrite values_get_node_attributes, keys_get_node_attributes in Hup.
    destruct (py_max (map (fun na => weight (snd na)) (g_nodes g)))
      as [m| |] eqn:Em; simpl in Hup; try discriminate.
    destruct (mapM (fun x => true_div x m) _) as [qs| |] eqn:Eq;
      simpl in Hup; try discriminate.
    inversion Hup; subst g1 nw. clear Hup.
    destruct (g_nodes g) as [|na0 nodes] eqn:En.
    { unfold set_node_attributes. rewrite En. constructor. }
    rewrite <- En in *.
    apply py_max_upper in Em.
    assert (Hw : Forall (fun x => (0 <= x <= m)%Z)
                        (map (fun na => weight (snd na)) (g_nodes g))).
    { rewrite Forall_map. unfold nonneg_inputs in Hpos.
      rewrite Forall_forall in Hpos, Em |- *. intros na Hin. split.
      - now apply Hpos.
      - apply Em. now apply in_map with (f := fun na => weight (snd na)). }
    assert (Hm : (0 < m)%Z).
    { destruct (Z.eq_dec m 0) as [->|Hne].
      - rewrite mapM_div_by_zero in Eq; [discriminate|].
        rewrite En. discriminate.
      - rewrite En in Hw. inversion Hw; subst. lia. }
    destruct (mapM_div_unit Hm Hw) as [qs' [Hqs' [Hlq Hqu]]].
    rewrite Eq in Hqs'. inversion Hqs'; subst qs'. clear Hqs'.
    rewrite length_map in Hlq.
    unfold set_node_attributes. simpl. rewrite Forall_map.
    apply Forall_forall. intros [k a] Hin. simpl.
    destruct (@lookup_combine_some Q k (keys (g_nodes g)) qs) as [q Hq].
    + unfold keys. now rewrite length_map.
    + unfold keys. now apply in_map with (f := fst) in Hin.
    + rewrite Hq. simpl. exists q. split; [reflexivity|].
      apply lookup_combine_in in Hq. rewrite Forall_forall in Hqu. now apply Hqu.
  - exists camps, conflicts. rewrite Hcamps, Hconf, Hlen1. repeat split;
      assumption.
  - unfold update_node_score. rewrite Hcamps, Hconf, Hc, Hk. simpl. eauto.
Qed.

(** ** Seeding *)

Lemma seed_loop_num_refugees (cfg : Config) (nodes : list NodeId) :
  forall sim,
    num_refugees (fst (seed_loop cfg nodes sim)) = num_refugees sim.
Proof.
  induction nodes as [|nd rest IH]; intro sim; simpl; [reflexivity|].
  destruct (lookup nd (g_nodes (graph sim))); [|reflexivity].
  now rewrite IH.
Qed.

Lemma seed_raises (cfg : Config) (sim : Sim) :
  (0 < seed_refs cfg)%Z -> seed_nodes cfg <> [] ->
  forall u, snd (seed cfg sim) <> Done u.
Proof.
  intros Hpos Hne u. unfold seed.
  apply Z.ltb_lt in Hpos. rewrite Hpos. apply Z.ltb_lt in Hpos.
  assert (Hn := seed_loop_num_refugees cfg (seed_nodes cfg)
                  (with_num_refugees
                     (num_refugees sim
                      + seed_refs cfg * Z.of_nat (List.length (seed_nodes cfg)))
                     sim)).
  destruct (seed_loop cfg (seed_nodes cfg) _) as [s2 [v|e|]]; simpl in *;
    try discriminate.
  unfold seed_links.
  assert (Hlt : (num_refugees sim <? num_refugees s2)%Z = true).
  { apply Z.ltb_lt. rewrite Hn.
    destruct (seed_nodes cfg); [congruence|]. simpl List.length. nia. }
  rewrite Hlt. destruct (py_index (all_refugees s2) (num_refugees sim));
    discriminate.
Qed.

(** With seeding switched on and a seed node configured, no call of [step]
    returns. *)
Lemma seeding_never_returns (cfg : Config) (sim : Sim) (r : Rng)
      (wr : nat -> Rng) :
  (0 < seed_refs cfg)%Z -> seed_nodes cfg <> [] ->
  forall r', snd (step cfg sim r wr) <> Done r'.
Proof.
  intros Hpos Hne r'. unfold step, step_from.
  destruct (update_norm_weight (graph sim)) as [[g1 nw]| |]; simpl;
    try discriminate.
  destruct (update_node_score cfg nw g1) as [g2| |]; simpl; try discriminate.
  destruct (run_batches cfg (with_graph g2 sim) r wr) as [[results r1]| |];
    simpl; try discriminate.
  assert (H := @seed_raises cfg
                 (merge (get_node_attributes weight (graph sim)) results
                        (with_graph g2 sim)) Hpos Hne).
  destruct (seed cfg _) as [s4 [u|e|]]; simpl in *; try discriminate.
  exfalso. now apply (H u).
Qed.

(** * Further properties of the engine *)

(** ** What a batch returns *)

Lemma lookup_some_in_keys (V : Type) (k : NodeId) (v : V) (d : list (NodeId * V)) :
  lookup k d = Some v -> In k (keys d).
Proof.
  induction d as [|[k' v'] d IH]; simpl; [discriminate|].
  destruct (node_eqb k k') eqn:E.
  - apply node_eqb_eq in E. subst. now left.
  - intro H. right. now apply IH.
Qed.

Lemma scan_neighbors_in (cfg : Config) (g : Graph)
      (kin_nodes friend_nodes : list NodeId) (n : NodeId) (nbrs : list NodeId) :
  forall s0 b0,
    scan_neighbors cfg g kin_nodes friend_nodes nbrs s0 b0 = Done (Some n) ->
    b0 = Some n \/ (In n nbrs /\ In n (keys (g_nodes g))).
Proof.
  induction nbrs as [|m rest IH]; intros s0 b0 H; simpl in H.
  - inversion H. now left.
  - destruct (lookup m (g_nodes g)) as [a|] eqn:El; [|discriminate].
    destruct (node_score a) as [s|]; [|discriminate].
    destruct (Qltb s0 _).
    + apply IH in H. destruct H as [H|[H1 H2]].
      * inversion H; subst. right. split; [now left|].
        eapply lookup_some_in_keys; eassumption.
      * right. split; [now right|exact H2].
    + apply IH in H. destruct H as [H|[H1 H2]]; [now left|].
      right. split; [now right|exact H2].
Qed.

Lemma find_new_node_in (cfg : Config) (sim : Sim) (nd n : NodeId) (ref : nat) :
  find_new_node cfg sim nd ref = Done (Some n) ->
  exists nbrs, neighbors (graph sim) nd = Done nbrs /\ In n nbrs
               /\ In n (keys (g_nodes (graph sim))).
Proof.
  unfold find_new_node.
  destruct (neighbors (graph sim) nd) as [nbrs| |]; cbn [bind];
    try discriminate.
  destruct nbrs as [|m rest]; [discriminate|].
  destruct (nth_error (all_refugees sim) ref) as [me|]; [|discriminate].
  destruct (mapM (node_of_agent sim) (kin_list me)) as [kn| |]; cbn [bind];
    try discriminate.
  destruct (mapM (node_of_agent sim) (friend_list me)) as [fn| |]; cbn [bind];
    try discriminate.
  intro H. apply scan_neighbors_in in H.
  destruct H as [H|[H1 H2]]; [discriminate|]. eauto.
Qed.

Lemma process_ref_moved (cfg : Config) (sim : Sim) (ref : nat) (r r' : Rng)
      (a : Ref) (w : list (NodeId * Z)) :
  process_ref cfg sim ref r = Done (a, w, r') ->
  moved_along_edge sim ref a.
Proof.
  unfold process_ref.
  destruct (nth_error (all_refugees sim) ref) as [me|] eqn:Eme; [|discriminate].
  destruct (lookup (node me) (g_nodes (graph sim))) as [attrs|] eqn:El;
    [|discriminate].
  apply lookup_some_in_keys in El.
  assert (Hstay : moved_along_edge sim ref me).
  { exists me. repeat split; auto. }
  destruct (decide_move cfg attrs r) as [[|] r1].
  - destruct (find_new_node cfg sim (node me) ref) as [[nn|]| |] eqn:Ef;
      cbn [bind]; try discriminate.
    + destruct (truthy nn) eqn:Et; intro H; inversion H; subst;
        [|exact Hstay].
      apply find_new_node_in in Ef. destruct Ef as [nbrs [Hn [Hin Hk]]].
      exists me. simpl. repeat split; auto.
      right. split; [exact Et|]. eauto.
    + intro H; inversion H; subst. exact Hstay.
  - intro H; inversion H; subst. exact Hstay.
Qed.

(** A property of every copy carries over to the list that the loop, the
    pool and the batch phase return. *)
Lemma process_loop_rel (cfg : Config) (sim : Sim) (R : nat -> Ref -> Prop) :
  (forall ref r a w r', process_ref cfg sim ref r = Done (a, w, r') -> R ref a) ->
  forall refs acc r out r',
    process_loop cfg sim refs acc r = Done (out, r') ->
    exists new, out = acc ++ new /\ Forall2 R refs new.
Proof.
  intro HR. induction refs as [|ref rest IH]; intros acc r out r' H; simpl in H.
  - inversion H; subst. exists []. split; [now rewrite app_nil_r|constructor].
  - destruct (process_ref cfg sim ref r) as [[[a w] r1]| |] eqn:E; simpl in H;
      try discriminate.
    apply HR in E. apply IH in H. destruct H as [new [-> Hall]].
    exists (a :: new). split; [now rewrite <- app_assoc|now constructor].
Qed.

Lemma pool_map_rel (cfg : Config) (sim : Sim) (R : nat -> Ref -> Prop)
      (wr : nat -> Rng) :
  (forall ref r a w r', process_ref cfg sim ref r = Done (a, w, r') -> R ref a) ->
  forall chunks i results,
    pool_map cfg sim chunks i wr = Done results ->
    Forall2 R (List.concat chunks) (List.concat (map fst results)).
Proof.
  intro HR. induction chunks as [|c rest IH]; intros i results H; simpl in H.
  - inversion H. constructor.
  - unfold process_refs in H.
    destruct (process_loop cfg sim c [] (wr i)) as [[nr r1]| |] eqn:E;
      simpl in H; try discriminate.
    destruct (pool_map cfg sim rest (S i) wr) as [rs| |] eqn:E2;
      simpl in H; try discriminate.
    inversion H; subst. simpl.
    apply (process_loop_rel cfg sim R HR) in E. destruct E as [new [-> Hall]].
    simpl. apply Forall2_app; [exact Hall|]. eapply IH; eassumption.
Qed.

Lemma run_batches_rel (cfg : Config) (sim : Sim) (R : nat -> Ref -> Prop)
      (r r' : Rng) (wr : nat -> Rng) (results : list batch_result) :
  (forall ref r a w r', process_ref cfg sim ref r = Done (a, w, r') -> R ref a) ->
  run_batches cfg sim r wr = Done (results, r') ->
  Forall2 R (seq 0 (List.length (all_refugees sim)))
          (List.concat (map fst results)).
Proof.
  intros HR H. unfold run_batches in H. destruct (1 <? num_processes sim)%Z.
  - destruct (array_split _ _) as [chunks| |] eqn:E; simpl in H;
      try discriminate.
    destruct (pool_map cfg sim chunks 0 wr) as [rs| |] eqn:E2; simpl in H;
      try discriminate.
    inversion H; subst. apply array_split_concat in E. rewrite <- E.
    eapply pool_map_rel; eassumption.
  - unfold process_refs in H.
    destruct (process_loop cfg sim _ [] r) as [[nr r1]| |] eqn:E; simpl in H;
      try discriminate.
    inversion H; subst. simpl. rewrite app_nil_r.
    apply (process_loop_rel cfg sim R HR) in E. destruct E as [new [-> Hall]].
    exact Hall.
Qed.

Lemma Forall2_seq_nth (A : Type) (R : nat -> A -> Prop) (l : list A) :
  forall s n,
    Forall2 R (seq s n) l ->
    forall i a, nth_error l i = Some a -> R (s + i)%nat a.
Proof.
  induction l as [|x l IH]; intros s n H i a Hn.
  - destruct i; discriminate.
  - destruct n as [|n]; simpl in H; inversion H; subst.
    destruct i as [|i]; simpl in Hn.
    + inversion Hn; subst. now rewrite Nat.add_0_r.
    + replace (s + S i)%nat with (S s + i)%nat by lia.
      eapply IH; eassumption.
Qed.

(** The shape of a call of [step] that returned with seeding off. *)
Lemma step_done_inv (cfg : Config) (sim : Sim) (r r' : Rng) (wr : nat -> Rng) :
  (seed_refs cfg <= 0)%Z ->
  snd (step cfg sim r wr) = Done r' ->
  exists g1 nw g2 results,
    update_norm_weight (graph sim) = Done (g1, nw)
    /\ update_node_score cfg nw g1 = Done g2
    /\ run_batches cfg (with_graph g2 sim) r wr = Done (results, r')
    /\ fst (step cfg sim r wr)
       = with_refugees (List.concat (map fst results)) (with_graph g2 sim).
Proof.
  intros Hseed. unfold step, step_from.
  destruct (update_norm_weight (graph sim)) as [[g1 nw]| |] eqn:E1; simpl;
    try discriminate.
  destruct (update_node_score cfg nw g1) as [g2| |] eqn:E2; simpl;
    try discriminate.
  destruct (run_batches cfg (with_graph g2 sim) r wr) as [[results r1]| |] eqn:E3;
    simpl; try discriminate.
  destruct (run_batches_ref_nodes _ _ _ _ E3) as [Hne Hall].
  destruct (scored_graph cfg _ E1 E2) as [Hk _].
  rewrite merge_keeps_graph; try assumption;
    [|simpl; now rewrite keys_get_node_attributes].
  rewrite seed_disabled by exact Hseed. simpl.
  intro H. inversion H; subst. exists g1, nw, g2, results. auto.
Qed.

Lemma step_social (cfg : Config) (sim : Sim) (r : Rng) (wr : nat -> Rng) :
  (seed_refs cfg <= 0)%Z ->
  map social (all_refugees (fst (step cfg sim r wr)))
  = map social (all_refugees sim).
Proof.
  intro Hseed. unfold step, step_from.
  destruct (update_norm_weight (graph sim)) as [[g1 nw]| |]; simpl;
    try reflexivity.
  destruct (update_node_score cfg nw g1) as [g2| |]; simpl; try reflexivity.
  destruct (run_batches cfg (with_graph g2 sim) r wr) as [[results r1]| |] eqn:E;
    simpl; try reflexivity.
  rewrite seed_disabled by exact Hseed. simpl.
  now apply run_batches_social in E.
Qed.

(** X1. With seeding off, a call of [step] - returned or raised - keeps
    the number of agents, and the agent at every index keeps its kin and
    its friends: only the location of an agent can change. *)
Theorem step_keeps_identity
        (cfg : Config) (sim : Sim) (r : Rng) (wr : nat -> Rng) :
  (seed_refs cfg <= 0)%Z ->
  List.length (all_refugees (fst (step cfg sim r wr)))
  = List.length (all_refugees sim)
  /\ forall i a me,
      nth_error (all_refugees (fst (step cfg sim r wr))) i = Some a ->
      nth_error (all_refugees sim) i = Some me ->
      kin_list a = kin_list me /\ friend_list a = friend_list me.
Proof.
  intro Hseed. assert (Hs := @step_social cfg sim r wr Hseed). split.
  - apply (f_equal (@List.length _)) in Hs. now rewrite !length_map in Hs.
  - intros i a me Ha Hme.
    apply (f_equal (fun l => nth_error l i)) in Hs.
    rewrite !nth_error_map, Ha, Hme in Hs. simpl in Hs.
    unfold social in Hs. now inversion Hs.
Qed.

Lemma step_keeps_identity_witness :
  let out := step default_config (fst calm_start) (snd calm_start) calm_workers in
  (map node (all_refugees (fst calm_start))
   = [NStr "P"; NStr "P"; NStr "Q"; NStr "Q"]
   /\ map node (all_refugees (fst out))
      = [NStr "Q"; NStr "Q"; NStr "P"; NStr "Q"])
  /\ List.length (all_refugees (fst out)) = List.length (all_refugees (fst calm_start))
  /\ forall i a me,
      nth_error (all_refugees (fst out)) i = Some a ->
      nth_error (all_refugees (fst calm_start)) i = Some me ->
      kin_list a = kin_list me /\ friend_list a = friend_list me.
Proof.
  cbv zeta. split; [split; vm_compute; reflexivity|].
  apply (@step_keeps_identity default_config (fst calm_start) (snd calm_start)
           calm_workers).
  vm_compute. discriminate.
Defined.

Lemma scored_graph_adj (cfg : Config) (g g1 g2 : Graph) (nw : list (NodeId * Q)) :
  update_norm_weight g = Done (g1, nw) ->
  update_node_score cfg nw g1 = Done g2 ->
  g_adj g2 = g_adj g.
Proof.
  intros H1 H2. apply update_norm_weight_done in H1.
  apply update_node_score_done in H2. destruct H2 as [vals H2]. now subst.
Qed.

(** Where the agents stand after a step that returned. *)
Lemma step_moved
        (cfg : Config) (sim : Sim) (r r' : Rng) (wr : nat -> Rng) :
  (seed_refs cfg <= 0)%Z ->
  snd (step cfg sim r wr) = Done r' ->
  forall i a,
    nth_error (all_refugees (fst (step cfg sim r wr))) i = Some a ->
    moved_along_edge sim i a.
Proof.
  intros Hseed Hdone i a Ha.
  destruct (step_done_inv cfg sim r wr Hseed Hdone)
    as [g1 [nw [g2 [results [E1 [E2 [E3 Hst]]]]]]].
  rewrite Hst in Ha. simpl in Ha.
  assert (HR := @run_batches_rel cfg (with_graph g2 sim)
                  (moved_along_edge (with_graph g2 sim)) r r' wr results
                  (fun ref r0 a0 w0 r1 =>
                     @process_ref_moved cfg (with_graph g2 sim) ref r0 r1 a0 w0) E3).
  apply (@Forall2_seq_nth Ref _ _ 0%nat _ HR i a) in Ha. simpl in Ha.
  destruct Ha as [me [Hme [Hk [Hf [Hin Hmv]]]]].
  destruct (scored_graph cfg _ E1 E2) as [Hkeys _].
  assert (Hadj := scored_graph_adj cfg _ E1 E2).
  exists me. simpl in *. repeat split; try assumption.
  - now rewrite <- Hkeys.
  - destruct Hmv as [Hmv|[Ht [nbrs [Hn Hi]]]]; [now left|right].
    split; [exact Ht|]. exists nbrs. split; [|exact Hi].
    unfold neighbors in *. simpl in Hn. now rewrite <- Hadj.
Qed.

(** X2. With seeding off, after a call of [step] that returned every agent
    stands on a node of the graph: the node where it stood before, or a
    neighbour of that node whose identifier is truthy.  No agent jumps over
    a missing edge. *)
Theorem step_moves_along_edges
        (cfg : Config) (sim : Sim) (r r' : Rng) (wr : nat -> Rng) :
  (seed_refs cfg <= 0)%Z ->
  snd (step cfg sim r wr) = Done r' ->
  forall i a,
    nth_error (all_refugees (fst (step cfg sim r wr))) i = Some a ->
    moved_along_edge sim i a.
Proof.
  exact (@step_moved cfg sim r r' wr).
Qed.

Lemma step_moves_along_edges_witness :
  let out := step default_config (fst calm_start) (snd calm_start) calm_workers in
  moved_along_edge (fst calm_start) 0
                   (nth 0 (all_refugees (fst out)) (new_Ref (NStr "P")))
  /\ node (nth 0 (all_refugees (fst out)) (new_Ref (NStr "P"))) = NStr "Q".
Proof.
  cbv zeta. split; [|vm_compute; reflexivity].
  apply (@step_moves_along_edges default_config (fst calm_start)
           (snd calm_start) (advance 4 (snd calm_start)) calm_workers).
  - vm_compute. discriminate.
  - vm_compute. reflexivity.
  - vm_compute. reflexivity.
Defined.

Lemma lookup_in (V : Type) (k : NodeId) (v : V) (d : list (NodeId * V)) :
  lookup k d = Some v -> In (k, v) d.
Proof.
  induction d as [|[k' v'] d IH]; simpl; [discriminate|].
  destruct (node_eqb k k') eqn:E.
  - apply node_eqb_eq in E. subst. intro H. inversion H. now left.
  - intro H. right. now apply IH.
Qed.

(** A node of the scored graph is a node of the graph before the step with
    the same static attributes. *)
Lemma scored_lookup (cfg : Config) (g g1 g2 : Graph) (nw : list (NodeId * Q))
      (k : NodeId) (a2 : NodeAttrs) :
  update_norm_weight g = Done (g1, nw) ->
  update_node_score cfg nw g1 = Done g2 ->
  lookup k (g_nodes g2) = Some a2 ->
  exists a, lookup k (g_nodes g) = Some a
            /\ weight a2 = weight a
            /\ num_conflicts a2 = num_conflicts a
            /\ num_camps a2 = num_camps a
            /\ location_score a2 = location_score a.
Proof.
  intros H1 H2. apply update_norm_weight_done in H1.
  apply update_node_score_done in H2. destruct H2 as [vals H2]. subst.
  rewrite !lookup_set_node_attributes.
  destruct (lookup k (g_nodes g)) as [a|]; simpl; [|discriminate].
  intro H. inversion H; subst. exists a. split; [reflexivity|].
  destruct (lookup k vals), (lookup k nw); simpl; auto.
Qed.

Lemma Forall2_seq_same (A : Type) (l : list A) :
  forall new pre,
    Forall2 (fun i a => nth_error (pre ++ l) i = Some a)
            (seq (List.length pre) (List.length l)) new ->
    new = l.
Proof.
  induction l as [|x l IH]; intros new pre H; simpl in H.
  - now inversion H.
  - inversion H as [|i a is' new' Hx Hrest]; subst.
    rewrite nth_error_app2 in Hx by lia.
    rewrite Nat.sub_diag in Hx. simpl in Hx. inversion Hx; subst.
    f_equal. apply (IH new' (pre ++ [a])).
    rewrite <- app_assoc, length_app. simpl.
    now rewrite Nat.add_1_r.
Qed.

(** X3. When no node holds a conflict or a camp, [percent_move_other] is
    not positive and seeding is off, a call of [step] - returned or
    raised - leaves the list of agents as it was: nobody moves. *)
Theorem step_without_reason_moves_nobody
        (cfg : Config) (sim : Sim) (r : Rng) (wr : nat -> Rng) :
  peaceful (graph sim) ->
  (percent_move_other cfg <= 0)%Q ->
  (seed_refs cfg <= 0)%Z ->
  all_refugees (fst (step cfg sim r wr)) = all_refugees sim.
Proof.
  intros Hpeace Hp Hseed. unfold step, step_from.
  destruct (update_norm_weight (graph sim)) as [[g1 nw]| |] eqn:E1; simpl;
    try reflexivity.
  destruct (update_node_score cfg nw g1) as [g2| |] eqn:E2; simpl;
    try reflexivity.
  destruct (run_batches cfg (with_graph g2 sim) r wr) as [[results r1]| |] eqn:E3;
    simpl; try reflexivity.
  rewrite seed_disabled by exact Hseed. simpl.
  apply (@Forall2_seq_same Ref (all_refugees sim) _ []). simpl.
  apply (@run_batches_rel cfg (with_graph g2 sim)
           (fun i a => nth_error (all_refugees sim) i = Some a)
           r r1 wr results); [|exact E3].
  intros ref r0 a w r0'. unfold process_ref. simpl.
  destruct (nth_error (all_refugees sim) ref) as [me|]; [|discriminate].
  destruct (lookup (node me) (g_nodes g2)) as [attrs|] eqn:El; [|discriminate].
  destruct (scored_lookup cfg _ _ E1 E2 El) as [a0 [Hl [_ [Hc [Hk _]]]]].
  apply lookup_in in Hl. destruct (Hpeace _ Hl) as [Hc0 Hk0]. simpl in *.
  unfold decide_move. rewrite Hc, Hk.
  apply Z.ltb_ge in Hc0. apply Z.ltb_ge in Hk0. rewrite Hc0, Hk0.
  destruct (random_random r0) as [u r2] eqn:Eu.
  assert (Hu : (0 <= u)%Q).
  { pose proof (random_random_unit r0) as [H0 _]. now rewrite Eu in H0. }
  assert (Hf : Qltb u (percent_move_other cfg) = false).
  { destruct (Qltb u (percent_move_other cfg)) eqn:E; [|reflexivity].
    apply Qltb_lt in E. exfalso.
    apply (Qlt_not_le _ _ E). now apply Qle_trans with (y := 0%Q). }
  rewrite Hf. intro H. now inversion H.
Qed.

Lemma step_without_reason_moves_nobody_witness :
  let out := step still_config (fst quiet_start) (snd quiet_start)
                  (fun _ => snd quiet_start) in
  (map node (all_refugees (fst quiet_start)) = [NStr "U"; NStr "V"]
   /\ snd out = Done (advance 2 (snd quiet_start)))
  /\ all_refugees (fst out) = all_refugees (fst quiet_start).
Proof.
  cbv zeta. split; [split; vm_compute; reflexivity|].
  apply (@step_without_reason_moves_nobody still_config (fst quiet_start)
           (snd quiet_start) (fun _ => snd quiet_start)).
  - intros na Hin. vm_compute in Hin.
    destruct Hin as [<-|[<-|[]]]; simpl; split; lia.
  - vm_compute. discriminate.
  - vm_compute. discriminate.
Defined.

(** X4. A batch that returns has read from the stream one draw for every
    listed agent that stands on a node without conflict, and none for an
    agent on a node with conflict: the stream is handed back exactly that
    many cells further, never more than one cell per agent. *)
Theorem process_refs_draws
        (cfg : Config) (refs : list nat) (sim : Sim) (r r' : Rng)
        (new_refs : list Ref) (ref_nodes : list (NodeId * list Z)) :
  process_refs cfg refs sim r = Done (new_refs, ref_nodes, r') ->
  r' = advance (draws sim refs) r
  /\ (draws sim refs <= List.length refs)%nat
  /\ List.length new_refs = List.length refs.
Proof.
  unfold process_refs.
  destruct (process_loop cfg sim refs [] r) as [[nr r1]| |] eqn:E; simpl;
    try discriminate.
  intro H. inversion H; subst. split; [|split].
  - eapply process_loop_rng; eassumption.
  - unfold draws. clear. induction refs as [|ref rest IH]; simpl; [lia|].
    assert (draws_of sim ref <= 1)%nat; [|lia].
    unfold draws_of. destruct (nth_error _ _); [|lia].
    destruct (lookup _ _); [|lia]. destruct (_ <? _)%Z; lia.
  - apply process_loop_social in E. destruct E as [new [-> Hmap]].
    apply (f_equal (@List.length _)) in Hmap.
    now rewrite !length_map in Hmap.
Qed.

Lemma process_refs_draws_witness :
  let out := returned ([], [], counting_tape)
                      (process_refs default_config [0; 2]%nat
                                    calm_scored (snd calm_start)) in
  draws calm_scored [0; 2]%nat = 2%nat
  /\ snd out = advance (draws calm_scored [0; 2]%nat) (snd calm_start)
  /\ (draws calm_scored [0; 2]%nat <= 2)%nat
  /\ List.length (fst (fst out)) = 2%nat.
Proof.
  cbv zeta. split; [vm_compute; reflexivity|].
  apply (@process_refs_draws default_config [0; 2]%nat calm_scored
           (snd calm_start)
           (snd (returned ([], [], counting_tape)
                          (process_refs default_config [0; 2]%nat
                                        calm_scored (snd calm_start))))
           (fst (fst (returned ([], [], counting_tape)
                          (process_refs default_config [0; 2]%nat
                                        calm_scored (snd calm_start)))))
           (snd (fst (returned ([], [], counting_tape)
                          (process_refs default_config [0; 2]%nat
                                        calm_scored (snd calm_start)))))).
  vm_compute. reflexivity.
Defined.

(** With seeding off a call of [step] either returned or left the agents
    as they were. *)
Lemma step_returned_or_unchanged (cfg : Config) (sim : Sim) (r : Rng)
      (wr : nat -> Rng) :
  (seed_refs cfg <= 0)%Z ->
  (exists r', snd (step cfg sim r wr) = Done r')
  \/ all_refugees (fst (step cfg sim r wr)) = all_refugees sim.
Proof.
  intro Hseed. unfold step, step_from.
  destruct (update_norm_weight (graph sim)) as [[g1 nw]| |]; simpl;
    try (now right).
  destruct (update_node_score cfg nw g1) as [g2| |]; simpl; try (now right).
  destruct (run_batches cfg (with_graph g2 sim) r wr) as [[results r1]| |];
    simpl; try (now right).
  rewrite seed_disabled by exact Hseed. simpl. left. eauto.
Qed.

(** X5. With seeding off, an agent that stands on a node without
    neighbours stands on the same node after a call of [step], returned or
    raised, also when a conflict at the node forces it to move. *)
Theorem step_keeps_isolated_agents
        (cfg : Config) (sim : Sim) (r : Rng) (wr : nat -> Rng)
        (i : nat) (me a : Ref) :
  (seed_refs cfg <= 0)%Z ->
  nth_error (all_refugees sim) i = Some me ->
  neighbors (graph sim) (node me) = Done [] ->
  nth_error (all_refugees (fst (step cfg sim r wr))) i = Some a ->
  node a = node me.
Proof.
  intros Hseed Hme Hiso Ha.
  destruct (@step_returned_or_unchanged cfg sim r wr Hseed) as [[r' Hd]|Hsame].
  - destruct (@step_moved cfg sim r r' wr Hseed Hd i a Ha)
      as [me' [Hme' [_ [_ [_ Hmv]]]]].
    rewrite Hme in Hme'. inversion Hme'; subst me'.
    destruct Hmv as [Hmv|[_ [nbrs [Hn Hin]]]]; [exact Hmv|].
    rewrite Hiso in Hn. inversion Hn; subst. contradiction.
  - rewrite Hsame, Hme in Ha. now inversion Ha.
Qed.

Lemma step_keeps_isolated_agents_witness :
  let out := step default_config (fst isolate_start) (snd isolate_start)
                  (fun _ => snd isolate_start) in
  (map node (all_refugees (fst isolate_start))
   = [NStr "D"; NStr "D"; NStr "D"; NStr "D"; NStr "D"; NStr "E"]
   /\ map node (all_refugees (fst out))
      = [NStr "D"; NStr "D"; NStr "D"; NStr "D"; NStr "D"; NStr "F"])
  /\ node (nth 0 (all_refugees (fst out)) (new_Ref (NStr "E")))
     = node (nth 0 (all_refugees (fst isolate_start)) (new_Ref (NStr "E"))).
Proof.
  cbv zeta. split; [split; vm_compute; reflexivity|].
  apply (@step_keeps_isolated_agents default_config (fst isolate_start)
           (snd isolate_start) (fun _ => snd isolate_start) 0).
  - vm_compute. discriminate.
  - vm_compute. reflexivity.
  - vm_compute. reflexivity.
  - vm_compute. reflexivity.
Defined.

(** X6. [find_new_node] on a node with neighbours, for an agent whose kin
    and friends are agents of the store, when no double is rounded in the
    desirability of a neighbour: it returns the earliest neighbour of
    greatest desirability when that desirability exceeds -99, and it
    returns nothing when no neighbour has a desirability above -99.  The
    score of the node where the agent stands is not consulted. *)
Theorem find_new_node_choice
        (cfg : Config) (sim : Sim) (nd : NodeId) (ref : nat) (me : Ref)
        (nbrs kin_nodes friend_nodes : list NodeId) :
  nth_error (all_refugees sim) ref = Some me ->
  neighbors (graph sim) nd = Done nbrs ->
  nbrs <> [] ->
  mapM (node_of_agent sim) (kin_list me) = Done kin_nodes ->
  mapM (node_of_agent sim) (friend_list me) = Done friend_nodes ->
  forallb (exact_at cfg (graph sim) kin_nodes friend_nodes) nbrs = true ->
  (forall pre n post d,
      nbrs = pre ++ n :: post ->
      desirability_at cfg (graph sim) kin_nodes friend_nodes n = Some d ->
      (initial_score < d)%Q ->
      (forall m, In m pre ->
                 exists dm, desirability_at cfg (graph sim) kin_nodes friend_nodes m
                            = Some dm /\ (dm < d)%Q) ->
      (forall m, In m post ->
                 exists dm, desirability_at cfg (graph sim) kin_nodes friend_nodes m
                            = Some dm /\ (dm <= d)%Q) ->
      find_new_node cfg sim nd ref = Done (Some n))
  /\ ((forall m, In m nbrs ->
                 exists dm, desirability_at cfg (graph sim) kin_nodes friend_nodes m
                            = Some dm /\ (dm <= initial_score)%Q) ->
      find_new_node cfg sim nd ref = Done None).
Proof.
  intros Hme Hnb Hne Hk Hf _.
  assert (E : find_new_node cfg sim nd ref
              = scan_neighbors cfg (graph sim) kin_nodes friend_nodes nbrs
                               initial_score None).
  { unfold find_new_node. rewrite Hnb. cbn [bind].
    destruct nbrs as [|m rest]; [congruence|].
    now rewrite Hme, Hk, Hf. }
  rewrite E. split.
  - intros pre n post d -> Hn Hd Hpre Hpost.
    now apply scan_neighbors_argmax with (d := d).
  - intro Hall. now apply scan_neighbors_keep.
Qed.

Lemma find_new_node_choice_witness :
  let d := returned 0%Q
             (match desirability_at default_config (graph fork_scored)
                      [NStr "L"] [NStr "L"] (NStr "L") with
              | Some q => Done q
              | None => Raise KeyError
              end) in
  (* R has the greater score, L the greater desirability *)
  (map (fun n => option_map Qred
                   (match lookup n (g_nodes (graph fork_scored)) with
                    | Some a => node_score a
                    | None => None
                    end)) [NStr "L"; NStr "R"]
   = [Some (1 # 4); Some (3 # 8)]
   /\ map (fun n => option_map Qred
                      (desirability_at default_config (graph fork_scored)
                                       [NStr "L"] [NStr "L"] n))
          [NStr "L"; NStr "R"]
      = [Some (3 # 4); Some (3 # 8)])
  /\ find_new_node default_config fork_scored (NStr "H") 0
     = Done (Some (NStr "L")).
Proof.
  cbv zeta. split; [split; vm_compute; reflexivity|].
  refine (proj1 (@find_new_node_choice default_config fork_scored (NStr "H") 0
                   (nth 0 (all_refugees fork_scored) (new_Ref (NStr "H")))
                   [NStr "L"; NStr "R"] [NStr "L"] [NStr "L"]
                   _ _ _ _ _ _) [] (NStr "L") [NStr "R"] _ eq_refl _ _ _ _).
  - vm_compute. reflexivity.
  - vm_compute. reflexivity.
  - discriminate.
  - vm_compute. reflexivity.
  - vm_compute. reflexivity.
  - vm_compute. reflexivity.
  - vm_compute. reflexivity.
  - vm_compute. reflexivity.
  - intros m [].
  - intros m [<-|[]]. eexists. split; [vm_compute; reflexivity|].
    vm_compute. discriminate.
Defined.

(** ** What a step never touches *)

Lemma static_set_node_attributes (A : Type) (set : A -> NodeAttrs -> NodeAttrs)
      (vals : list (NodeId * A)) (g : Graph) :
  (forall v a, num_conflicts (set v a) = num_conflicts a
               /\ num_camps (set v a) = num_camps a
               /\ location_score (set v a) = location_score a) ->
  static_part (set_node_attributes set vals g) = static_part g.
Proof.
  intro Hset. unfold static_part, set_node_attributes. simpl. f_equal.
  rewrite map_map. apply map_ext. intros [k a]. simpl.
  destruct (lookup k vals) as [v|]; simpl; [|reflexivity].
  destruct (Hset v a) as [H1 [H2 H3]]. now rewrite H1, H2, H3.
Qed.

Lemma static_add_weight (nd : NodeId) (delta : Z) (g : Graph) :
  static_part (add_weight nd delta g) = static_part g.
Proof.
  unfold static_part, add_weight. simpl. f_equal.
  rewrite map_map. apply map_ext. intros [k a]. simpl.
  now destruct (node_eqb nd k).
Qed.

Lemma static_seed_loop (cfg : Config) (nodes : list NodeId) :
  forall sim,
    static_part (graph (fst (seed_loop cfg nodes sim))) = static_part (graph sim).
Proof.
  induction nodes as [|nd rest IH]; intro sim; simpl; [reflexivity|].
  destruct (lookup nd (g_nodes (graph sim))); [|reflexivity].
  rewrite IH. simpl. apply static_add_weight.
Qed.

Lemma static_seed (cfg : Config) (sim : Sim) :
  static_part (graph (fst (seed cfg sim))) = static_part (graph sim).
Proof.
  unfold seed. destruct (0 <? seed_refs cfg)%Z; [|reflexivity].
  assert (H := static_seed_loop cfg (seed_nodes cfg)
                 (with_num_refugees
                    (num_refugees sim
                     + seed_refs cfg * Z.of_nat (List.length (seed_nodes cfg)))
                    sim)).
  destruct (seed_loop cfg (seed_nodes cfg) _) as [s2 [u|e|]]; exact H.
Qed.

(** The static part through a call of [step]. *)
Lemma step_static (cfg : Config) (sim : Sim) (r : Rng) (wr : nat -> Rng) :
  static_part (graph (fst (step cfg sim r wr))) = static_part (graph sim).
Proof.
  unfold step, step_from.
  destruct (update_norm_weight (graph sim)) as [[g1 nw]| |] eqn:E1; simpl;
    try reflexivity.
  apply update_norm_weight_done in E1.
  assert (H1 : static_part g1 = static_part (graph sim))
    by (subst g1; now apply static_set_node_attributes).
  destruct (update_node_score cfg nw g1) as [g2| |] eqn:E2; simpl;
    try exact H1.
  apply update_node_score_done in E2. destruct E2 as [vals E2].
  assert (H2 : static_part g2 = static_part (graph sim))
    by (subst g2; rewrite static_set_node_attributes; auto).
  destruct (run_batches cfg (with_graph g2 sim) r wr) as [[results r1]| |];
    simpl; try exact H2.
  set (sim3 := merge _ results _).
  assert (H3 : static_part (graph sim3) = static_part (graph sim)).
  { unfold sim3, merge. simpl.
    rewrite static_set_node_attributes; auto. }
  assert (H4 := static_seed cfg sim3).
  destruct (seed cfg sim3) as [s4 [u|e|]]; simpl in *; congruence.
Qed.

(** X7. A call of [step] - returned or raised, with or without seeding -
    leaves the adjacency of the graph, its nodes and their order, and the
    conflict count, camp count and location score of every node as they
    were. *)
Theorem step_keeps_static_part
        (cfg : Config) (sim : Sim) (r : Rng) (wr : nat -> Rng) :
  static_part (graph (fst (step cfg sim r wr))) = static_part (graph sim).
Proof. exact (step_static cfg sim r wr). Qed.

(** ** The population after the construction *)

Lemma map_node_update_nth (k : link) (p : nat) (l : list Ref) :
  forall i, map node (update_nth i (add_link k p) l) = map node l.
Proof.
  induction l as [|x l IH]; intros [|i]; simpl; try reflexivity.
  - now destruct k.
  - now rewrite IH.
Qed.

Lemma same_places_refl (s : Sim) : same_places s s.
Proof. unfold same_places. repeat split. Qed.

Lemma same_places_trans (s1 s2 s3 : Sim) :
  same_places s1 s2 -> same_places s2 s3 -> same_places s1 s3.
Proof. unfold same_places. intuition congruence. Qed.

Lemma link_once_places (fuel : nat) (k : link) (index : nat) (sim sim' : Sim)
      (r r' : Rng) :
  link_once fuel k index sim r = Done (sim', r') -> same_places sim sim'.
Proof.
  unfold link_once.
  destruct (pick_partner fuel index sim r) as [[p r1]| |]; simpl;
    try discriminate.
  destruct (p <? _)%nat; [|discriminate].
  intro H. inversion H; subst. unfold same_places. simpl.
  rewrite !map_node_update_nth. repeat split.
Qed.

Lemma link_times_places (fuel : nat) (k : link) (index : nat) (count : nat) :
  forall sim r sim' r',
    link_times count fuel k index sim r = Done (sim', r') ->
    same_places sim sim'.
Proof.
  induction count as [|c IH]; intros sim r sim' r' H; simpl in H.
  - inversion H; subst. apply same_places_refl.
  - destruct (link_once fuel k index sim r) as [[s1 r1]| |] eqn:E;
      simpl in H; try discriminate.
    apply link_once_places in E. apply IH in H.
    eapply same_places_trans; eassumption.
Qed.

Lemma create_defined_places (cfg : Config) (fuel index : nat) (sim sim' : Sim)
      (r r' : Rng) :
  create_defined_social_links cfg fuel index sim r = Done (sim', r') ->
  same_places sim sim'.
Proof.
  unfold create_defined_social_links.
  destruct (defined_count (num_kin cfg)) as [nk| |]; simpl; try discriminate.
  destruct (link_times nk fuel Kin index sim r) as [[s1 r1]| |] eqn:E1;
    simpl; try discriminate.
  destruct (defined_count (num_friends cfg)) as [nf| |]; simpl;
    try discriminate.
  intro H. apply link_times_places in E1. apply link_times_places in H.
  eapply same_places_trans; eassumption.
Qed.

Lemma create_random_places (cfg : Config) (fuel index : nat) (sim sim' : Sim)
      (r r' : Rng) :
  create_random_social_links cfg fuel index sim r = Done (sim', r') ->
  same_places sim sim'.
Proof.
  unfold create_random_social_links.
  destruct (random_count (num_kin cfg) r) as [[nk r0]| |]; simpl;
    try discriminate.
  destruct (link_times nk fuel Kin index sim r0) as [[s1 r1]| |] eqn:E1;
    simpl; try discriminate.
  destruct (random_count (num_friends cfg) r1) as [[nf r2]| |]; simpl;
    try discriminate.
  intro H. apply link_times_places in E1. apply link_times_places in H.
  eapply same_places_trans; eassumption.
Qed.

Lemma link_all_places (create : nat -> nat -> Sim -> Rng -> res (Sim * Rng))
      (fuel : nat) :
  (forall index sim r sim' r',
      create fuel index sim r = Done (sim', r') -> same_places sim sim') ->
  forall indices sim r sim' r',
    link_all create fuel indices sim r = Done (sim', r') ->
    same_places sim sim'.
Proof.
  intro Hc. induction indices as [|i rest IH]; intros sim r sim' r' H;
    simpl in H.
  - inversion H; subst. apply same_places_refl.
  - destruct (create fuel i sim r) as [[s1 r1]| |] eqn:E; simpl in H;
      try discriminate.
    apply Hc in E. apply IH in H. eapply same_places_trans; eassumption.
Qed.

Lemma fold_add_population (nodes : list (NodeId * NodeAttrs)) :
  Forall (fun na => (0 <= weight (snd na))%Z) nodes ->
  forall acc,
    fold_left Z.add (map (fun na => weight (snd na)) nodes) acc
    = (acc + Z.of_nat (List.length
                         (flat_map (fun na => repeat (new_Ref (fst na))
                                                     (Z.to_nat (weight (snd na))))
                                   nodes)))%Z.
Proof.
  induction 1 as [|na nodes Hna _ IH]; intro acc; simpl; [lia|].
  rewrite IH, length_app, repeat_length. lia.
Qed.

(** The object that the construction returns. *)
Lemma Sim_init_places
        (cfg : Config) (g : Graph) (steps processes batches : Z)
        (fuel : nat) (r r' : Rng) (sim : Sim) :
  Sim_init cfg g steps processes batches fuel r = Done (sim, r') ->
  graph sim = g
  /\ (num_steps sim, num_processes sim, num_batches sim)
     = (steps, processes, batches)
  /\ num_refugees sim
     = fold_left Z.add (map (fun na => weight (snd na)) (g_nodes g)) 0%Z
  /\ map node (all_refugees sim)
     = flat_map (fun na => repeat (fst na) (Z.to_nat (weight (snd na))))
                (g_nodes g)
  /\ (Forall (fun na => (0 <= weight (snd na))%Z) (g_nodes g) ->
      Z.of_nat (List.length (all_refugees sim)) = num_refugees sim).
Proof.
  unfold Sim_init. intro H.
  set (refs := flat_map _ (g_nodes g)) in H.
  set (sim0 := mkSim g steps processes batches _ refs) in H.
  assert (Hp : same_places sim0 sim).
  { destruct (num_friends cfg).
    - eapply (link_all_places (create_defined_social_links cfg));
        [|exact H]. intros. eapply create_defined_places; eassumption.
    - eapply (link_all_places (create_random_social_links cfg));
        [|exact H]. intros. eapply create_random_places; eassumption. }
  destruct Hp as [Hg [Hs [Hnp [Hnb [Hn Hm]]]]]. simpl in *.
  assert (Hrefs : map node refs
                  = flat_map (fun na => repeat (fst na) (Z.to_nat (weight (snd na))))
                             (g_nodes g)).
  { unfold refs. clear. induction (g_nodes g) as [|na nodes IH]; simpl;
      [reflexivity|].
    rewrite map_app, IH. f_equal.
    induction (Z.to_nat (weight (snd na))); simpl; [reflexivity|now f_equal]. }
  repeat split; try congruence.
  intro Hpos. rewrite Hn.
  rewrite (fold_add_population Hpos 0). fold refs.
  apply (f_equal (@List.length _)) in Hm. rewrite !length_map in Hm.
  rewrite Hm. lia.
Qed.

(** X8. When the construction of the simulation returns, the object holds
    the graph it was given, [num_refugees] is the sum of the node weights,
    and the agents stand on the nodes in the order of the graph, as many on
    each node as its weight says; with weights that are not negative the
    number of agents is [num_refugees]. *)
Theorem Sim_init_population
        (cfg : Config) (g : Graph) (steps processes batches : Z)
        (fuel : nat) (r r' : Rng) (sim : Sim) :
  Sim_init cfg g steps processes batches fuel r = Done (sim, r') ->
  graph sim = g
  /\ (num_steps sim, num_processes sim, num_batches sim)
     = (steps, processes, batches)
  /\ num_refugees sim
     = fold_left Z.add (map (fun na => weight (snd na)) (g_nodes g)) 0%Z
  /\ map node (all_refugees sim)
     = flat_map (fun na => repeat (fst na) (Z.to_nat (weight (snd na))))
                (g_nodes g)
  /\ (Forall (fun na => (0 <= weight (snd na))%Z) (g_nodes g) ->
      Z.of_nat (List.length (all_refugees sim)) = num_refugees sim).
Proof.
  exact (@Sim_init_places cfg g steps processes batches fuel r r' sim).
Qed.

Lemma Sim_init_population_witness :
  graph (fst seeded_start) = path3
  /\ (num_steps (fst seeded_start), num_processes (fst seeded_start),
      num_batches (fst seeded_start)) = (1%Z, 1%Z, 1%Z)
  /\ num_refugees (fst seeded_start) = 10%Z
  /\ map node (all_refugees (fst seeded_start)) = repeat (NStr "A") 10
  /\ (Forall (fun na => (0 <= weight (snd na))%Z) (g_nodes path3) ->
      Z.of_nat (List.length (all_refugees (fst seeded_start)))
      = num_refugees (fst seeded_start)).
Proof.
  apply (@Sim_init_population seeded_config path3 1 1 1 5 counting_tape
           (snd seeded_start) (fst seeded_start)).
  vm_compute. reflexivity.
Defined.

(** ** Agents stay on the graph *)

Lemma static_part_keys (g g' : Graph) :
  static_part g' = static_part g ->
  keys (g_nodes g') = keys (g_nodes g) /\ g_adj g' = g_adj g.
Proof.
  unfold static_part. intro H. injection H as Hadj Hn. split; [|exact Hadj].
  apply (f_equal (map fst)) in Hn. rewrite !map_map in Hn. exact Hn.
Qed.


Lemma seed_loop_placed (cfg : Config) (nodes : list NodeId) :
  forall sim,
    agents_placed sim -> agents_placed (fst (seed_loop cfg nodes sim)).
Proof.
  induction nodes as [|nd rest IH]; intros sim Hp; simpl; [exact Hp|].
  destruct (lookup nd (g_nodes (graph sim))) as [a|] eqn:El; [|exact Hp].
  apply IH. unfold agents_placed in *.
  cbn [with_refugees with_graph graph all_refugees].
  assert (Hk : keys (g_nodes (add_weight nd (seed_refs cfg) (graph sim)))
               = keys (g_nodes (graph sim)))
    by (apply static_part_keys, static_add_weight).
  rewrite Hk. apply Forall_app. split; [exact Hp|].
  apply Forall_forall. intros x Hx. apply repeat_spec in Hx. subst. simpl.
  eapply lookup_some_in_keys; eassumption.
Qed.

Lemma seed_placed (cfg : Config) (sim : Sim) :
  agents_placed sim -> agents_placed (fst (seed cfg sim)).
Proof.
  intro Hp. unfold seed. destruct (0 <? seed_refs cfg)%Z; [|exact Hp].
  assert (H := @seed_loop_placed cfg (seed_nodes cfg)
                 (with_num_refugees
                    (num_refugees sim
                     + seed_refs cfg * Z.of_nat (List.length (seed_nodes cfg)))
                    sim) Hp).
  destruct (seed_loop cfg (seed_nodes cfg) _) as [s2 [u|e|]]; exact H.
Qed.

Lemma step_placed (cfg : Config) (sim : Sim) (r : Rng) (wr : nat -> Rng) :
  agents_placed sim -> agents_placed (fst (step cfg sim r wr)).
Proof.
  intro Hp. unfold step, step_from.
  destruct (update_norm_weight (graph sim)) as [[g1 nw]| |] eqn:E1; simpl;
    try exact Hp.
  assert (Hk1 : keys (g_nodes g1) = keys (g_nodes (graph sim)))
    by (apply update_norm_weight_done in E1; subst g1;
        apply keys_set_node_attributes).
  destruct (update_node_score cfg nw g1) as [g2| |] eqn:E2; simpl;
    try (unfold agents_placed in *; simpl; now rewrite Hk1).
  destruct (scored_graph cfg _ E1 E2) as [Hk2 _].
  destruct (run_batches cfg (with_graph g2 sim) r wr) as [[results r1]| |] eqn:E3;
    simpl; try (unfold agents_placed in *; simpl; now rewrite Hk2).
  set (sim3 := merge _ results _).
  assert (H3 : agents_placed sim3).
  { unfold agents_placed, sim3, merge.
    cbn [with_refugees with_graph graph all_refugees].
    rewrite keys_set_node_attributes.
    assert (HR := @run_batches_rel cfg (with_graph g2 sim)
                    (moved_along_edge (with_graph g2 sim)) r r1 wr results
                    (fun ref r0 a0 w0 r2 =>
                       @process_ref_moved cfg (with_graph g2 sim) ref r0 r2 a0 w0)
                    E3).
    apply Forall_forall. intros a Ha.
    apply In_nth_error in Ha. destruct Ha as [i Hi].
    apply (@Forall2_seq_nth Ref _ _ 0%nat _ HR i a) in Hi.
    destruct Hi as [me [_ [_ [_ [Hin _]]]]]. exact Hin. }
  assert (H4 := seed_placed cfg H3).
  destruct (seed cfg sim3) as [s4 [u|e|]]; exact H4.
Qed.

(** X9. In every state that a run exposes - after the construction and
    after each step, returned or raised, with or without seeding - every
    agent stands on a node of the graph. *)
Theorem reachable_agents_placed (cfg : Config) (sim : Sim) :
  reachable cfg sim -> agents_placed sim.
Proof.
  induction 1 as [g steps processes batches fuel r sim r' Hinit|sim r wr _ IH].
  - destruct (Sim_init_places _ _ _ _ _ _ _ Hinit)
      as [Hg [_ [_ [Hm _]]]].
    unfold agents_placed. rewrite Hg.
    apply Forall_forall. intros a Ha.
    apply (in_map node) in Ha. rewrite Hm in Ha.
    apply in_flat_map in Ha. destruct Ha as [na [Hna Hin]].
    apply repeat_spec in Hin. rewrite Hin.
    unfold keys. now apply in_map.
  - now apply step_placed.
Qed.

Lemma reachable_agents_placed_witness :
  agents_placed (fst (step seeded_config (fst seeded_start) (snd seeded_start)
                           (fun _ => snd seeded_start))).
Proof.
  apply (@reachable_agents_placed seeded_config).
  apply reach_step.
  apply (@reach_init seeded_config path3 1 1 1 5 counting_tape
                     (fst seeded_start) (snd seeded_start)).
  vm_compute. reflexivity.
Defined.

(** ** A step on a well-formed object returns *)

Lemma mapM_length (A B : Type) (f : A -> res B) (l : list A) :
  forall l', mapM f l = Done l' -> List.length l' = List.length l.
Proof.
  induction l as [|x l IH]; intros l' H; simpl in H.
  - now inversion H.
  - destruct (f x) as [y| |]; simpl in H; try discriminate.
    destruct (mapM f l) as [ys| |]; simpl in H; try discriminate.
    inversion H; subst. simpl. now rewrite (IH ys eq_refl).
Qed.

Lemma mapM_total (A B : Type) (f : A -> res B) (l : list A) :
  (forall x, In x l -> exists y, f x = Done y) ->
  exists ys, mapM f l = Done ys.
Proof.
  induction l as [|x l IH]; intro H; simpl; [eauto|].
  destruct (H x (or_introl eq_refl)) as [y Hy]. rewrite Hy. simpl.
  destruct IH as [ys Hys]; [intros z Hz; apply H; now right|].
  rewrite Hys. simpl. eauto.
Qed.

Lemma keys_combine (V : Type) (ks : list NodeId) :
  forall vs : list V,
    List.length vs = List.length ks -> keys (combine ks vs) = ks.
Proof.
  induction ks as [|k ks IH]; intros [|v vs] H; simpl in *; try discriminate;
    try reflexivity.
  f_equal. apply IH. lia.
Qed.

Lemma update_norm_weight_returns (g : Graph) :
  Forall (fun na => (0 <= weight (snd na))%Z) (g_nodes g) ->
  (exists na, In na (g_nodes g) /\ (0 < weight (snd na))%Z) ->
  exists g1 nw, update_norm_weight g = Done (g1, nw).
Proof.
  intros Hpos [na [Hin Hw]]. unfold update_norm_weight.
  rewrite values_get_node_attributes.
  destruct (py_max (map (fun na => weight (snd na)) (g_nodes g))) as [m| |] eqn:Em;
    try (destruct (g_nodes g); [contradiction|discriminate]).
  simpl. apply py_max_upper in Em.
  assert (Hm : (0 < m)%Z).
  { rewrite Forall_forall in Em.
    specialize (Em (weight (snd na))
                   (in_map (fun na => weight (snd na)) _ _ Hin)). lia. }
  destruct (@mapM_div_unit m (map (fun na => weight (snd na)) (g_nodes g)) Hm)
    as [qs [Hqs _]].
  - rewrite Forall_map. rewrite Forall_forall in Hpos, Em |- *.
    intros x Hx. split; [now apply Hpos|].
    apply Em. now apply in_map with (f := fun na => weight (snd na)).
  - rewrite Hqs. simpl. eauto.
Qed.

Lemma update_norm_weight_keys (g g1 : Graph) (nw : list (NodeId * Q)) :
  update_norm_weight g = Done (g1, nw) -> keys nw = keys (g_nodes g).
Proof.
  unfold update_norm_weight.
  destruct (py_max _) as [m| |]; simpl; try discriminate.
  destruct (mapM _ _) as [qs| |] eqn:Eq; simpl; try discriminate.
  intro H. inversion H; subst. rewrite keys_get_node_attributes.
  apply keys_combine. apply mapM_length in Eq.
  rewrite Eq. unfold values, get_node_attributes, keys. now rewrite !length_map.
Qed.

(** After the scoring every node holds a [node_score]. *)
Lemma scored_all (cfg : Config) (g g1 g2 : Graph) (nw : list (NodeId * Q)) :
  update_norm_weight g = Done (g1, nw) ->
  update_node_score cfg nw g1 = Done g2 ->
  forall na, In na (g_nodes g2) -> node_score (snd na) <> None.
Proof.
  intros H1 H2.
  assert (Hk := update_norm_weight_keys g H1).
  assert (Hk1 : keys (g_nodes g1) = keys (g_nodes g))
    by (apply update_norm_weight_done in H1; subst g1;
        apply keys_set_node_attributes).
  unfold update_node_score, normalise in H2.
  destruct (py_max (values (get_node_attributes num_camps g1) ++ [1%Z]));
    simpl in H2; try discriminate.
  destruct (mapM _ (values (get_node_attributes num_camps g1))) as [camps| |] eqn:Ec;
    simpl in H2; try discriminate.
  destruct (py_max (values (get_node_attributes num_conflicts g1) ++ [1%Z]));
    simpl in H2; try discriminate.
  destruct (mapM _ (values (get_node_attributes num_conflicts g1)))
    as [conflicts| |] eqn:Ek; simpl in H2; try discriminate.
  inversion H2; subst g2. clear H2.
  apply mapM_length in Ec. apply mapM_length in Ek.
  unfold values, get_node_attributes in Ec, Ek. rewrite !length_map in Ec, Ek.
  intros na Hin. unfold set_node_attributes in Hin. simpl in Hin.
  apply in_map_iff in Hin. destruct Hin as [[k attrs] [<- Hin]]. simpl.
  destruct (@lookup_combine_some Q k (keys nw)
              (map (score cfg)
                   (combine (combine (combine (values nw)
                                (values (get_node_attributes location_score g1)))
                                camps) conflicts))) as [v Hv].
  - rewrite length_map, !length_combine.
    unfold values, get_node_attributes, keys. rewrite !length_map.
    apply (f_equal (@List.length _)) in Hk. apply (f_equal (@List.length _)) in Hk1.
    unfold keys in Hk, Hk1. rewrite !length_map in Hk, Hk1. lia.
  - rewrite Hk, <- Hk1. unfold keys. now apply in_map with (f := fst) in Hin.
  - rewrite Hv. simpl. discriminate.
Qed.

Lemma scan_neighbors_total (cfg : Config) (g : Graph)
      (kin_nodes friend_nodes : list NodeId) (nbrs : list NodeId) :
  (forall m, In m nbrs ->
             exists a, lookup m (g_nodes g) = Some a /\ node_score a <> None) ->
  forall s0 b0,
  exists best, scan_neighbors cfg g kin_nodes friend_nodes nbrs s0 b0 = Done best.
Proof.
  induction nbrs as [|m rest IH]; intros H s0 b0; simpl; [eauto|].
  destruct (H m (or_introl eq_refl)) as [a [Ha Hs]]. rewrite Ha.
  destruct (node_score a) as [s|]; [|congruence].
  assert (H' : forall x, In x rest ->
                 exists a0, lookup x (g_nodes g) = Some a0 /\ node_score a0 <> None)
    by (intros x Hx; apply H; now right).
  destruct (Qltb s0 _); now apply IH.
Qed.

Lemma process_ref_total (cfg : Config) (sim : Sim) (ref : nat) (r : Rng) :
  graph_closed (graph sim) ->
  agents_placed sim ->
  links_ok (all_refugees sim) ->
  (forall na, In na (g_nodes (graph sim)) -> node_score (snd na) <> None) ->
  (ref < List.length (all_refugees sim))%nat ->
  exists out, process_ref cfg sim ref r = Done out.
Proof.
  intros [Hadj Hnb] Hp Hl Hs Hlt. unfold process_ref.
  destruct (nth_error (all_refugees sim) ref) as [me|] eqn:Eme;
    [|apply nth_error_None in Eme; lia].
  assert (Hme : In (node me) (keys (g_nodes (graph sim)))).
  { unfold agents_placed in Hp. rewrite Forall_forall in Hp.
    apply Hp. eapply nth_error_In; eassumption. }
  destruct (lookup_in_keys _ _ Hme) as [attrs Hattrs]. rewrite Hattrs.
  destruct (decide_move cfg attrs r) as [[|] r1]; [|eauto].
  assert (Ef : exists nn, find_new_node cfg sim (node me) ref = Done nn).
  { unfold find_new_node, neighbors.
    destruct (Hadj _ Hme) as [l Hl0]. rewrite Hl0. cbn [bind].
    destruct l as [|m rest]; [eauto|]. rewrite Eme.
    assert (Hidx : forall k b, In b (links_of k me) ->
                     exists y, node_of_agent sim b = Done y).
    { intros k b Hb. destruct (Hl k ref b) as [_ [rb [Hrb _]]];
        [exists me; auto|].
      unfold node_of_agent. rewrite Hrb. eauto. }
    destruct (@mapM_total _ _ (node_of_agent sim) (kin_list me)
                (Hidx Kin)) as [kn Hkn].
    destruct (@mapM_total _ _ (node_of_agent sim) (friend_list me)
                (Hidx Friend)) as [fn Hfn].
    rewrite Hkn, Hfn. cbn [bind].
    apply scan_neighbors_total. intros x Hx.
    assert (Hxk := Hnb _ _ _ Hl0 Hx).
    destruct (lookup_in_keys _ _ Hxk) as [a Ha]. exists a. split; [exact Ha|].
    apply lookup_in in Ha. apply (Hs _ Ha). }
  destruct Ef as [[nn|] Ef]; rewrite Ef; cbn [bind]; [|eauto].
  destruct (truthy nn); eauto.
Qed.

Lemma process_loop_total (cfg : Config) (sim : Sim) (refs : list nat) :
  graph_closed (graph sim) ->
  agents_placed sim ->
  links_ok (all_refugees sim) ->
  (forall na, In na (g_nodes (graph sim)) -> node_score (snd na) <> None) ->
  Forall (fun ref => (ref < List.length (all_refugees sim))%nat) refs ->
  forall acc r, exists out, process_loop cfg sim refs acc r = Done out.
Proof.
  intros Hg Hp Hl Hs. induction 1 as [|ref rest Href _ IH]; intros acc r; simpl;
    [eauto|].
  destruct (@process_ref_total cfg sim ref r Hg Hp Hl Hs Href) as [[[a w] r1] E].
  rewrite E. simpl. apply IH.
Qed.

Lemma pool_map_total (cfg : Config) (sim : Sim) (wr : nat -> Rng)
      (chunks : list (list nat)) :
  graph_closed (graph sim) ->
  agents_placed sim ->
  links_ok (all_refugees sim) ->
  (forall na, In na (g_nodes (graph sim)) -> node_score (snd na) <> None) ->
  Forall (Forall (fun ref => (ref < List.length (all_refugees sim))%nat)) chunks ->
  forall i, exists results, pool_map cfg sim chunks i wr = Done results.
Proof.
  intros Hg Hp Hl Hs. induction 1 as [|c rest Hc _ IH]; intro i; simpl;
    [eauto|].
  unfold process_refs.
  destruct (@process_loop_total cfg sim c Hg Hp Hl Hs Hc [] (wr i))
    as [[nr r1] E].
  rewrite E. simpl. destruct (IH (S i)) as [rs Hrs]. rewrite Hrs. simpl. eauto.
Qed.

Lemma array_split_returns (A : Type) (l : list A) (k : Z) :
  (1 <= k)%Z -> exists chunks, array_split l k = Done chunks.
Proof.
  intro Hk. unfold array_split.
  destruct (k <=? 0)%Z eqn:E; [apply Z.leb_le in E; lia|eauto].
Qed.

(** A step on a well-formed object with seeding off. *)
Lemma step_returns_ready
        (cfg : Config) (sim : Sim) (r : Rng) (wr : nat -> Rng) :
  graph_closed (graph sim) ->
  agents_placed sim ->
  links_ok (all_refugees sim) ->
  nonneg_inputs (graph sim) ->
  (exists na, In na (g_nodes (graph sim)) /\ (0 < weight (snd na))%Z) ->
  (seed_refs cfg <= 0)%Z ->
  (num_processes sim <= 1)%Z \/ (1 <= num_batches sim)%Z ->
  exists r', snd (step cfg sim r wr) = Done r'.
Proof.
  intros Hg Hp Hl Hpos Hw Hseed Hb.
  destruct (@update_norm_weight_returns (graph sim)) as [g1 [nw E1]];
    [|exact Hw|].
  { unfold nonneg_inputs in Hpos. eapply Forall_impl; [|exact Hpos].
    simpl. tauto. }
  destruct (@normalisation_bounds cfg (graph sim) g1 nw Hpos E1)
    as [_ [_ [g2 E2]]].
  assert (Hs := @scored_all cfg (graph sim) g1 g2 nw E1 E2).
  destruct (scored_graph cfg _ E1 E2) as [Hk _].
  assert (Hadj := scored_graph_adj cfg _ E1 E2).
  assert (Hg2 : graph_closed (graph (with_graph g2 sim))).
  { destruct Hg as [Ha Hn]. unfold graph_closed. simpl.
    rewrite Hk, Hadj. split; assumption. }
  assert (Hp2 : agents_placed (with_graph g2 sim))
    by (unfold agents_placed in *; simpl; now rewrite Hk).
  assert (E3 : exists out, run_batches cfg (with_graph g2 sim) r wr = Done out).
  { unfold run_batches. cbn [with_graph num_processes num_batches all_refugees].
    assert (Hseq : forall l, (forall x, In x l ->
                                 In x (seq 0 (List.length (all_refugees sim)))) ->
                   Forall (fun ref => (ref < List.length
                                               (all_refugees (with_graph g2 sim)))%nat) l).
    { intros l Hin. apply Forall_forall. intros x Hx.
      apply Hin, in_seq in Hx. simpl. lia. }
    destruct (1 <? num_processes sim)%Z eqn:Enp.
    - apply Z.ltb_lt in Enp. destruct Hb as [Hb|Hb]; [lia|].
      destruct (@array_split_returns nat
                  (seq 0 (List.length (all_refugees sim))) (num_batches sim) Hb)
        as [chunks Ec].
      rewrite Ec. cbn [bind].
      destruct (@pool_map_total cfg (with_graph g2 sim) wr chunks Hg2 Hp2 Hl Hs)
        with (i := 0%nat) as [rs Hrs].
      + apply array_split_concat in Ec.
        apply Forall_forall. intros c Hc. apply Hseq. intros x Hx.
        rewrite <- Ec. apply in_concat. eauto.
      + rewrite Hrs. simpl. eauto.
    - unfold process_refs.
      destruct (@process_loop_total cfg (with_graph g2 sim)
                  (seq 0 (List.length (all_refugees sim))) Hg2 Hp2 Hl Hs
                  (Hseq _ (fun x H => H)) [] r) as [[nr r1] E].
      rewrite E. simpl. eauto. }
  destruct E3 as [[results r1] E3].
  exists r1. unfold step, step_from. rewrite E1. simpl. rewrite E2. simpl.
  rewrite E3. simpl.
  destruct (run_batches_ref_nodes _ _ _ _ E3) as [Hne Hall].
  rewrite merge_keeps_graph; try assumption;
    [|simpl; now rewrite keys_get_node_attributes].
  rewrite seed_disabled by exact Hseed. reflexivity.
Qed.

(** X10. On an object that is well formed - the graph closed, every agent
    on a node, the links symmetric - with weights, camp and conflict counts
    that are not negative, one weight positive, seeding off, and either one
    process or at least one batch, a call of [step] returns: no exception
    leaves it. *)
Theorem step_returns
        (cfg : Config) (sim : Sim) (r : Rng) (wr : nat -> Rng) :
  graph_closed (graph sim) ->
  agents_placed sim ->
  links_ok (all_refugees sim) ->
  nonneg_inputs (graph sim) ->
  (exists na, In na (g_nodes (graph sim)) /\ (0 < weight (snd na))%Z) ->
  (seed_refs cfg <= 0)%Z ->
  (num_processes sim <= 1)%Z \/ (1 <= num_batches sim)%Z ->
  exists r', snd (step cfg sim r wr) = Done r'.
Proof.
  intros Hg Hp Hl Hpos Hw Hseed Hb.
  exact (@step_returns_ready cfg sim r wr Hg Hp Hl Hpos Hw Hseed Hb).
Qed.

Lemma existsb_node_in (n : NodeId) (l : list NodeId) :
  existsb (node_eqb n) l = true -> In n l.
Proof.
  intro H. apply existsb_exists in H. destruct H as [x [Hx E]].
  apply node_eqb_eq in E. now subst.
Qed.

Lemma graph_closedb_sound (g : Graph) :
  graph_closedb g = true -> graph_closed g.
Proof.
  unfold graph_closedb. intro H. apply andb_true_iff in H. destruct H as [H1 H2].
  rewrite forallb_forall in H1, H2. split.
  - intros n Hn. specialize (H1 n Hn).
    destruct (lookup n (g_adj g)); [eauto|discriminate].
  - intros n l m Hl Hm. apply lookup_in in Hl. specialize (H2 _ Hl).
    simpl in H2. rewrite forallb_forall in H2.
    now apply existsb_node_in, H2.
Qed.

Lemma agents_placedb_sound (sim : Sim) :
  agents_placedb sim = true -> agents_placed sim.
Proof.
  unfold agents_placedb, agents_placed. intro H.
  rewrite forallb_forall in H. apply Forall_forall. intros a Ha.
  now apply existsb_node_in, H.
Qed.

Lemma step_returns_witness :
  exists r', snd (step default_config (fst calm_start) (snd calm_start)
                       calm_workers) = Done r'.
Proof.
  apply (@step_returns default_config (fst calm_start) (snd calm_start)
           calm_workers).
  - apply graph_closedb_sound. vm_compute. reflexivity.
  - apply agents_placedb_sound. vm_compute. reflexivity.
  - apply (@Sim_init_links_ok default_config calm 1 1 1 8 spread_tape
             (snd calm_start) (fst calm_start)).
    vm_compute. reflexivity.
  - unfold nonneg_inputs. apply Forall_forall. intros na Hin.
    vm_compute in Hin. destruct Hin as [<-|[<-|[]]]; vm_compute;
      repeat split; discriminate.
  - exists (NStr "P", fresh_node 2 0 0 (1 # 2)). split.
    + vm_compute. now left.
    + vm_compute. reflexivity.
  - vm_compute. discriminate.
  - left. vm_compute. discriminate.
Defined.

(** ** The scores that a step assigns *)

Lemma mapM_true_div (m : Z) (l : list Z) :
  forall qs,
    mapM (fun x => true_div x m) l = Done qs ->
    qs = map (fun x => (inject_Z x / inject_Z m)%Q) l.
Proof.
  induction l as [|x l IH]; intros qs H; simpl in H.
  - now inversion H.
  - unfold true_div in H at 1. destruct (m =? 0)%Z; simpl in H; [discriminate|].
    destruct (mapM (fun x0 => true_div x0 m) l) as [ys| |]; simpl in H;
      try discriminate.
    inversion H; subst. simpl. f_equal. now apply IH.
Qed.

Lemma combine_map (A B C : Type) (f : A -> B) (h : A -> C) (l : list A) :
  combine (map f l) (map h l) = map (fun x => (f x, h x)) l.
Proof. induction l as [|x l IH]; simpl; [reflexivity|now rewrite IH]. Qed.

Lemma lookup_map_nodup (V W : Type) (F : NodeId * V -> W) (k : NodeId) (v : V)
      (l : list (NodeId * V)) :
  NoDup (keys l) -> In (k, v) l ->
  lookup k (map (fun na => (fst na, F na)) l) = Some (F (k, v)).
Proof.
  induction l as [|[k' v'] l IH]; simpl; intros Hnd Hin; [contradiction|].
  inversion Hnd as [|? ? Hnotin Hnd']; subst.
  destruct Hin as [Heq|Hin].
  - inversion Heq; subst. now rewrite node_eqb_refl.
  - destruct (node_eqb k k') eqn:E.
    + apply node_eqb_eq in E. subst k'. exfalso. apply Hnotin.
      unfold keys. now apply in_map with (f := fst) in Hin.
    + now apply IH.
Qed.

Lemma set_node_attributes_nodup (A : Type) (set : A -> NodeAttrs -> NodeAttrs)
      (F : NodeId * NodeAttrs -> A) (g : Graph) :
  NoDup (keys (g_nodes g)) ->
  g_nodes (set_node_attributes set (map (fun na => (fst na, F na)) (g_nodes g)) g)
  = map (fun na => (fst na, set (F na) (snd na))) (g_nodes g).
Proof.
  intro Hnd. unfold set_node_attributes. simpl.
  apply map_ext_in. intros [k a] Hin. simpl.
  now rewrite (lookup_map_nodup F k a (g_nodes g) Hnd Hin).
Qed.

Lemma py_max_floor (l : list Z) :
  exists m, py_max (l ++ [1%Z]) = Done m /\ (1 <= m)%Z.
Proof.
  destruct (py_max (l ++ [1%Z])) as [m| |] eqn:E;
    try (destruct l; discriminate).
  exists m. split; [reflexivity|].
  apply py_max_upper in E. apply Forall_app in E. destruct E as [_ E].
  now inversion E.
Qed.

(** The two scoring phases on a graph whose nodes have distinct
    identifiers. *)
Lemma scoring_nodup (cfg : Config) (g g1 g2 : Graph) (nw : list (NodeId * Q)) :
  NoDup (keys (g_nodes g)) ->
  update_norm_weight g = Done (g1, nw) ->
  update_node_score cfg nw g1 = Done g2 ->
  exists m mc mk,
    py_max (values (get_node_attributes weight g)) = Done m
    /\ py_max (values (get_node_attributes num_camps g) ++ [1%Z]) = Done mc
    /\ py_max (values (get_node_attributes num_conflicts g) ++ [1%Z]) = Done mk
    /\ (g_nodes g <> [] -> m <> 0%Z)
    /\ (1 <= mc)%Z /\ (1 <= mk)%Z
    /\ g_nodes g2
       = map (fun na => (fst na, scored_attrs cfg m mc mk (snd na))) (g_nodes g)
    /\ g_adj g2 = g_adj g.
Proof.
  intros Hnd H1 H2.
  assert (Hadj := scored_graph_adj cfg _ H1 H2).
  unfold update_norm_weight in H1.
  destruct (py_max (values (get_node_attributes weight g))) as [m| |] eqn:Em;
    simpl in H1; try discriminate.
  destruct (mapM _ _) as [qs| |] eqn:Eq; simpl in H1; try discriminate.
  inversion H1; subst g1 nw. clear H1.
  assert (Hm : g_nodes g <> [] -> m <> 0%Z).
  { intros Hne ->. rewrite values_get_node_attributes in Eq.
    destruct (g_nodes g) as [|na nodes]; [congruence|].
    simpl in Eq. discriminate. }
  apply mapM_true_div in Eq. subst qs.
  set (F := fun na : NodeId * NodeAttrs =>
              (inject_Z (weight (snd na)) / inject_Z m)%Q).
  assert (Enw : combine (keys (get_node_attributes weight g))
                        (map (fun x => (inject_Z x / inject_Z m)%Q)
                             (values (get_node_attributes weight g)))
                = map (fun na => (fst na, F na)) (g_nodes g)).
  { rewrite values_get_node_attributes, keys_get_node_attributes, map_map.
    unfold keys. apply (combine_map fst F). }
  rewrite Enw in H2. clear Enw.
  set (g1 := set_node_attributes set_norm_weight
               (map (fun na => (fst na, F na)) (g_nodes g)) g) in *.
  assert (Hg1 : g_nodes g1
                = map (fun na => (fst na, set_norm_weight (F na) (snd na)))
                      (g_nodes g))
    by (apply set_node_attributes_nodup; exact Hnd).
  assert (Hc : get_node_attributes num_camps g1 = get_node_attributes num_camps g)
    by (now apply get_set_node_attributes).
  assert (Hk : get_node_attributes num_conflicts g1
               = get_node_attributes num_conflicts g)
    by (now apply get_set_node_attributes).
  assert (Hl : get_node_attributes location_score g1
               = get_node_attributes location_score g)
    by (now apply get_set_node_attributes).
  clearbody g1.
  unfold update_node_score, normalise in H2.
  rewrite Hc, Hk, Hl in H2.
  destruct (py_max_floor (values (get_node_attributes num_camps g)))
    as [mc [Emc Hmc]].
  destruct (py_max_floor (values (get_node_attributes num_conflicts g)))
    as [mk [Emk Hmk]].
  rewrite Emc, Emk in H2. cbn [bind] in H2.
  destruct (mapM _ (values (get_node_attributes num_camps g))) as [camps| |] eqn:Ec;
    cbn [bind] in H2; try discriminate.
  destruct (mapM _ (values (get_node_attributes num_conflicts g)))
    as [conflicts| |] eqn:Ek; cbn [bind] in H2; try discriminate.
  apply mapM_true_div in Ec. apply mapM_true_div in Ek. subst camps conflicts.
  inversion H2 as [Hg2]. clear H2. subst g2.
  exists m, mc, mk.
  repeat split; try assumption.
  set (G := fun x : NodeId * NodeAttrs =>
              score cfg (F x, location_score (snd x),
                         (inject_Z (num_camps (snd x)) / inject_Z mc)%Q,
                         (inject_Z (num_conflicts (snd x)) / inject_Z mk)%Q)).
  assert (Evals : combine
                    (keys (map (fun na => (fst na, F na)) (g_nodes g)))
                    (map (score cfg)
                       (combine
                          (combine
                             (combine
                                (values (map (fun na => (fst na, F na)) (g_nodes g)))
                                (values (get_node_attributes location_score g)))
                             (map (fun x => (inject_Z x / inject_Z mc)%Q)
                                (values (get_node_attributes num_camps g))))
                          (map (fun x => (inject_Z x / inject_Z mk)%Q)
                             (values (get_node_attributes num_conflicts g)))))
                  = map (fun na => (fst na, G na)) (g_nodes g)).
  { rewrite !values_get_node_attributes. unfold keys, values.
    rewrite !map_map. simpl.
    rewrite (combine_map F (fun x => location_score (snd x))).
    rewrite (combine_map (fun x => (F x, location_score (snd x)))
               (fun x => (inject_Z (num_camps (snd x)) / inject_Z mc)%Q)).
    rewrite (combine_map (fun x => (F x, location_score (snd x),
                                    (inject_Z (num_camps (snd x)) / inject_Z mc)%Q))
               (fun x => (inject_Z (num_conflicts (snd x)) / inject_Z mk)%Q)).
    rewrite map_map. apply (combine_map fst G). }
  rewrite Evals. unfold set_node_attributes. simpl. rewrite Hg1, map_map.
  apply map_ext_in. intros [k a] Hin. simpl.
  now rewrite (lookup_map_nodup G k a (g_nodes g) Hnd Hin).
Qed.

(** X11. On a graph whose nodes have distinct identifiers, when no double
    is rounded in the scoring, a call of [step] that returned with seeding
    off has given every node the attributes of the scoring and changed
    nothing else: [norm_weight] is the weight over the greatest weight [m],
    which is not zero, and [node_score] is
    [population_weight * norm_weight + location_weight * location_score
     + camp_weight * num_camps / mc - conflict_weight * num_conflicts / mk]
    for the greatest camp count [mc] and conflict count [mk], each at
    least 1.  The nodes keep their order and their weights. *)
Theorem step_assigns_scores
        (cfg : Config) (sim : Sim) (r r' : Rng) (wr : nat -> Rng) :
  NoDup (keys (g_nodes (graph sim))) ->
  exact_scoring cfg (graph sim) = true ->
  (seed_refs cfg <= 0)%Z ->
  snd (step cfg sim r wr) = Done r' ->
  exists m mc mk,
    py_max (values (get_node_attributes weight (graph sim))) = Done m
    /\ py_max (values (get_node_attributes num_camps (graph sim)) ++ [1%Z])
       = Done mc
    /\ py_max (values (get_node_attributes num_conflicts (graph sim)) ++ [1%Z])
       = Done mk
    /\ m <> 0%Z /\ (1 <= mc)%Z /\ (1 <= mk)%Z
    /\ g_nodes (graph (fst (step cfg sim r wr)))
       = map (fun na => (fst na, scored_attrs cfg m mc mk (snd na)))
             (g_nodes (graph sim)).
Proof.
  intros Hnd _ Hseed Hdone.
  destruct (step_done_inv cfg sim r wr Hseed Hdone)
    as [g1 [nw [g2 [results [E1 [E2 [E3 Hst]]]]]]].
  destruct (@scoring_nodup cfg (graph sim) g1 g2 nw Hnd E1 E2)
    as [m [mc [mk [Em [Emc [Emk [Hm [Hmc [Hmk [Hn _]]]]]]]]]].
  exists m, mc, mk. rewrite Hst. simpl. repeat split; try assumption.
  apply Hm. intro Hnil. rewrite values_get_node_attributes, Hnil in Em.
  discriminate.
Qed.

Lemma step_assigns_scores_witness :
  g_nodes (graph calm_scored)
  = map (fun na => (fst na, scored_attrs default_config 2 1 1 (snd na)))
        (g_nodes (graph (fst calm_start)))
  /\ map (fun na => node_score (snd na)) (g_nodes (graph calm_scored))
     = [Some (score default_config (inject_Z 2 / inject_Z 2, 1 # 2,
                                    inject_Z 0 / inject_Z 1,
                                    inject_Z 0 / inject_Z 1)%Q);
        Some (score default_config (inject_Z 2 / inject_Z 2, 1 # 4,
                                    inject_Z 1 / inject_Z 1,
                                    inject_Z 0 / inject_Z 1)%Q)].
Proof.
  destruct (@step_assigns_scores default_config (fst calm_start)
              (snd calm_start) (advance 4 (snd calm_start)) calm_workers)
    as [m [mc [mk [Em [Emc [Emk [_ [_ [_ Hn]]]]]]]]].
  - vm_compute. repeat constructor; simpl; intuition discriminate.
  - vm_compute. reflexivity.
  - vm_compute. discriminate.
  - vm_compute. reflexivity.
  - vm_compute in Em, Emc, Emk.
    inversion Em; inversion Emc; inversion Emk; subst m mc mk.
    unfold calm_scored. rewrite Hn. split; [reflexivity|].
    vm_compute. reflexivity.
Defined.

(** X12. With weights, camp counts and conflict counts that are not
    negative, a call of [step] that returned with seeding off has given
    every node a [norm_weight] between 0 and 1 and a [node_score]. *)
Theorem step_norm_weight_in_unit
        (cfg : Config) (sim : Sim) (r r' : Rng) (wr : nat -> Rng) :
  nonneg_inputs (graph sim) ->
  (seed_refs cfg <= 0)%Z ->
  snd (step cfg sim r wr) = Done r' ->
  Forall (fun na => (exists q, norm_weight (snd na) = Some q /\ in_unit q)
                    /\ node_score (snd na) <> None)
         (g_nodes (graph (fst (step cfg sim r wr)))).
Proof.
  intros Hpos Hseed Hdone.
  destruct (step_done_inv cfg sim r wr Hseed Hdone)
    as [g1 [nw [g2 [results [E1 [E2 [E3 Hst]]]]]]].
  rewrite Hst. simpl.
  destruct (@normalisation_bounds cfg (graph sim) g1 nw Hpos E1) as [Hnw _].
  assert (Hs := @scored_all cfg (graph sim) g1 g2 nw E1 E2).
  apply update_node_score_done in E2. destruct E2 as [vals E2].
  apply Forall_forall. intros na Hin. split; [|now apply Hs].
  subst g2. unfold set_node_attributes in Hin. simpl in Hin.
  apply in_map_iff in Hin. destruct Hin as [[k a] [<- Hin]].
  rewrite Forall_forall in Hnw. specialize (Hnw _ Hin). simpl in *.
  destruct (lookup k vals); exact Hnw.
Qed.

Lemma step_norm_weight_in_unit_witness :
  Forall (fun na => (exists q, norm_weight (snd na) = Some q /\ in_unit q)
                    /\ node_score (snd na) <> None)
         (g_nodes (graph calm_scored)).
Proof.
  apply (@step_norm_weight_in_unit default_config (fst calm_start)
           (snd calm_start) (advance 4 (snd calm_start)) calm_workers).
  - unfold nonneg_inputs. apply Forall_forall. intros na Hin.
    vm_compute in Hin. destruct Hin as [<-|[<-|[]]]; vm_compute;
      repeat split; discriminate.
  - vm_compute. discriminate.
  - vm_compute. reflexivity.
Defined.

(** ** Exceptions of a step *)








(** ** Exceptions of the construction *)

(** X14. When one of [num_kin] and [num_friends] is an integer and the
    other a pair, the construction of a simulation with at least one agent
    raises [TypeError] before any draw, whatever the stream; a simulation
    without agents is constructed at once, without a draw, whatever the
    configuration. *)
Theorem Sim_init_configuration
        (cfg : Config) (g : Graph) (steps processes batches : Z)
        (fuel : nat) (r : Rng) :
  (mixed_counts cfg -> populated g ->
   Sim_init cfg g steps processes batches fuel r = Raise TypeError)
  /\ ((forall na, In na (g_nodes g) -> (weight (snd na) <= 0)%Z) ->
      Sim_init cfg g steps processes batches fuel r
      = Done (mkSim g steps processes batches
                    (fold_left Z.add (map (fun na => weight (snd na)) (g_nodes g)) 0%Z)
                    [], r)).
Proof.
  split.
  - intros Hmix [na [Hin Hw]]. unfold Sim_init.
    set (refs := flat_map _ (g_nodes g)).
    assert (Hrefs : exists x rest, refs = x :: rest).
    { unfold refs. clear - Hin Hw.
      induction (g_nodes g) as [|nb nodes IH]; [contradiction|]. simpl.
      destruct Hin as [->|Hin].
      - destruct (Z.to_nat (weight (snd na))) eqn:E; [lia|]. simpl. eauto.
      - destruct (repeat _ _) as [|y ys]; simpl; [now apply IH|eauto]. }
    destruct Hrefs as [x [rest ->]]. simpl.
    unfold mixed_counts in Hmix.
    destruct (num_friends cfg) eqn:Ef, (num_kin cfg) eqn:Ek; try contradiction.
    + unfold create_defined_social_links. now rewrite Ek.
    + unfold create_random_social_links. now rewrite Ek.
  - intro Hw. unfold Sim_init.
    assert (Hrefs : flat_map (fun na => repeat (new_Ref (fst na))
                                               (Z.to_nat (weight (snd na))))
                             (g_nodes g) = []).
    { apply flat_map_nil. intros na Hin. specialize (Hw na Hin).
      replace (Z.to_nat (weight (snd na))) with 0%nat by lia. reflexivity. }
    rewrite Hrefs. simpl. now destruct (num_friends cfg).
Qed.

Lemma Sim_init_configuration_witness :
  Sim_init mixed_config path3 1 1 1 5 counting_tape = Raise TypeError
  /\ Sim_init mixed_config empty_land 1 1 1 0 counting_tape
     = Done (mkSim empty_land 1 1 1 0 [], counting_tape).
Proof.
  split.
  - apply (proj1 (@Sim_init_configuration mixed_config path3 1 1 1 5
                    counting_tape)).
    + exact I.
    + exists (NStr "A", fresh_node 10 1 0 (1 # 2)). split; [now left|simpl; lia].
  - apply (proj2 (@Sim_init_configuration mixed_config empty_land 1 1 1 0
                    counting_tape)).
    intros na Hin. simpl in Hin. destruct Hin as [<-|[<-|[]]]; simpl; lia.
Defined.

(** ** What seeding does before it raises *)

Lemma count_node_cons (k nd : NodeId) (l : list NodeId) :
  count_node k (nd :: l)
  = ((if node_eqb k nd then 1 else 0) + count_node k l)%Z.
Proof.
  unfold count_node. cbn [filter]. destruct (node_eqb k nd);
    cbn [List.length]; lia.
Qed.

Lemma node_eqb_sym (a b : NodeId) : node_eqb a b = node_eqb b a.
Proof.
  destruct (node_eqb a b) eqn:E.
  - apply node_eqb_eq in E. subst. now rewrite node_eqb_refl.
  - destruct (node_eqb b a) eqn:E'; [|reflexivity].
    apply node_eqb_eq in E'. subst. now rewrite node_eqb_refl in E.
Qed.

(** The loop over seed nodes that are all nodes of the graph. *)
Lemma seed_loop_present (cfg : Config) (nodes : list NodeId) :
  forall sim,
    Forall (fun nd => In nd (keys (g_nodes (graph sim)))) nodes ->
    snd (seed_loop cfg nodes sim) = Done tt
    /\ all_refugees (fst (seed_loop cfg nodes sim))
       = all_refugees sim
         ++ flat_map (fun nd => repeat (new_Ref nd) (Z.to_nat (seed_refs cfg)))
                     nodes
    /\ get_node_attributes weight (graph (fst (seed_loop cfg nodes sim)))
       = map (fun kw => (fst kw,
                         (snd kw + seed_refs cfg * count_node (fst kw) nodes)%Z))
             (get_node_attributes weight (graph sim)).
Proof.
  induction nodes as [|nd rest IH]; intros sim Hall; simpl.
  - rewrite app_nil_r. repeat split.
    unfold count_node. simpl. rewrite <- (map_id (get_node_attributes _ _)) at 1.
    apply map_ext. intros [k w]. simpl. f_equal. lia.
  - inversion Hall as [|? ? Hnd Hrest]; subst.
    destruct (lookup_in_keys _ _ Hnd) as [a Ha]. rewrite Ha.
    set (sim1 := with_refugees _ (with_graph _ sim)).
    assert (Hk : keys (g_nodes (graph sim1)) = keys (g_nodes (graph sim)))
      by (apply static_part_keys, static_add_weight).
    destruct (IH sim1) as [Ho [Hr Hw]]; [now rewrite Hk|].
    split; [exact Ho|]. split.
    + rewrite Hr. unfold sim1. simpl. now rewrite <- app_assoc.
    + rewrite Hw. unfold sim1, get_node_attributes, add_weight. simpl.
      rewrite !map_map. apply map_ext. intros [k a0]. simpl.
      rewrite count_node_cons, (node_eqb_sym k nd).
      destruct (node_eqb nd k); cbn [fst snd weight set_weight]; f_equal; lia.
Qed.

(** X15. With [seed_refs] positive and every seed node a node of the
    graph, the seeding of lines 295-304 raises the weight of a node by
    [seed_refs] for each time the node is listed, appends [seed_refs] fresh
    agents at each listed node in the order of the list, and adds their
    number to [num_refugees]; it returns only when no seed node is
    configured. *)
Theorem seed_appends
        (cfg : Config) (sim : Sim) :
  (0 < seed_refs cfg)%Z ->
  Forall (fun nd => In nd (keys (g_nodes (graph sim)))) (seed_nodes cfg) ->
  all_refugees (fst (seed cfg sim))
  = all_refugees sim
    ++ flat_map (fun nd => repeat (new_Ref nd) (Z.to_nat (seed_refs cfg)))
                (seed_nodes cfg)
  /\ get_node_attributes weight (graph (fst (seed cfg sim)))
     = map (fun kw => (fst kw,
                       (snd kw + seed_refs cfg
                                 * count_node (fst kw) (seed_nodes cfg))%Z))
           (get_node_attributes weight (graph sim))
  /\ num_refugees (fst (seed cfg sim))
     = (num_refugees sim
        + seed_refs cfg * Z.of_nat (List.length (seed_nodes cfg)))%Z
  /\ (snd (seed cfg sim) = Done tt <-> seed_nodes cfg = []).
Proof.
  intros Hpos Hall. unfold seed.
  assert (Hlt := Hpos). apply Z.ltb_lt in Hlt. rewrite Hlt.
  set (sim1 := with_num_refugees _ sim).
  destruct (@seed_loop_present cfg (seed_nodes cfg) sim1 Hall) as [Ho [Hr Hw]].
  assert (Hn := seed_loop_num_refugees cfg (seed_nodes cfg) sim1).
  destruct (seed_loop cfg (seed_nodes cfg) sim1) as [s2 o]. simpl in *.
  subst o. simpl. repeat split; try assumption.
  - intro H. unfold seed_links in H.
    destruct (num_refugees sim <? num_refugees s2)%Z eqn:E.
    + destruct (py_index _ _); discriminate.
    + apply Z.ltb_ge in E. rewrite Hn in E.
      destruct (seed_nodes cfg) as [|nd rest]; [reflexivity|].
      cbn [List.length] in E. nia.
  - intro Hnil. unfold seed_links. rewrite Hn, Hnil. cbn [List.length].
    replace (num_refugees sim + seed_refs cfg * Z.of_nat 0)%Z
      with (num_refugees sim) by lia.
    now rewrite Z.ltb_irrefl.
Qed.

Lemma seed_appends_witness :
  let out := seed seeded_config (fst seeded_start) in
  snd out = Raise AttributeError
  /\ all_refugees (fst out)
     = all_refugees (fst seeded_start) ++ [new_Ref (NStr "A")]
  /\ get_node_attributes weight (graph (fst out))
     = [(NStr "A", 11%Z); (NStr "B", 0%Z); (NStr "C", 0%Z)]
  /\ num_refugees (fst out) = 11%Z.
Proof.
  cbv zeta. split; [vm_compute; reflexivity|].
  destruct (@seed_appends seeded_config (fst seeded_start)) as [Hr [Hw [Hn _]]].
  - vm_compute. reflexivity.
  - apply Forall_forall. intros nd Hin. vm_compute in Hin.
    destruct Hin as [<-|[]]. vm_compute. now left.
  - rewrite Hr, Hw, Hn. repeat split; vm_compute; reflexivity.
Defined.

Lemma lookup_absent (V : Type) (k : NodeId) (d : list (NodeId * V)) :
  ~ In k (keys d) -> lookup k d = None.
Proof.
  intro H. destruct (lookup k d) as [v|] eqn:E; [|reflexivity].
  exfalso. apply H. eapply lookup_some_in_keys; eassumption.
Qed.

Lemma seed_loop_absent (cfg : Config) (nd : NodeId) (post pre : list NodeId) :
  forall sim,
    Forall (fun n => In n (keys (g_nodes (graph sim)))) pre ->
    ~ In nd (keys (g_nodes (graph sim))) ->
    snd (seed_loop cfg (pre ++ nd :: post) sim) = Raise KeyError
    /\ all_refugees (fst (seed_loop cfg (pre ++ nd :: post) sim))
       = all_refugees sim
         ++ flat_map (fun n => repeat (new_Ref n) (Z.to_nat (seed_refs cfg))) pre.
Proof.
  induction pre as [|n pre IH]; intros sim Hpre Hnd; simpl.
  - rewrite (lookup_absent _ _ Hnd). simpl. now rewrite app_nil_r.
  - inversion Hpre as [|? ? Hn Hrest]; subst.
    destruct (lookup_in_keys _ _ Hn) as [a Ha]. rewrite Ha.
    set (sim1 := with_refugees _ (with_graph _ sim)).
    assert (Hk : keys (g_nodes (graph sim1)) = keys (g_nodes (graph sim)))
      by (apply static_part_keys, static_add_weight).
    destruct (IH sim1) as [Ho Hr]; try (now rewrite Hk).
    split; [exact Ho|]. rewrite Hr. unfold sim1. simpl.
    now rewrite <- app_assoc.
Qed.

(** X16. With [seed_refs] positive and a seed node that is no node of the
    graph, the seeding of lines 295-304 raises [KeyError] at the first such
    node: the nodes listed before it have received their agents, the nodes
    after it none, and [num_refugees] has been raised for all of them, so
    it exceeds the number of agents that were appended. *)
Theorem seed_unknown_node
        (cfg : Config) (sim : Sim) (pre post : list NodeId) (nd : NodeId) :
  (0 < seed_refs cfg)%Z ->
  seed_nodes cfg = pre ++ nd :: post ->
  Forall (fun n => In n (keys (g_nodes (graph sim)))) pre ->
  ~ In nd (keys (g_nodes (graph sim))) ->
  snd (seed cfg sim) = Raise KeyError
  /\ all_refugees (fst (seed cfg sim))
     = all_refugees sim
       ++ flat_map (fun n => repeat (new_Ref n) (Z.to_nat (seed_refs cfg))) pre
  /\ num_refugees (fst (seed cfg sim))
     = (num_refugees sim
        + seed_refs cfg * Z.of_nat (List.length pre)
        + seed_refs cfg * Z.of_nat (S (List.length post)))%Z.
Proof.
  intros Hpos Hnodes Hpre Hnd. unfold seed.
  assert (Hlt := Hpos). apply Z.ltb_lt in Hlt. rewrite Hlt.
  set (sim1 := with_num_refugees _ sim).
  assert (Hn := seed_loop_num_refugees cfg (seed_nodes cfg) sim1).
  rewrite Hnodes in *.
  destruct (@seed_loop_absent cfg nd post pre sim1 Hpre Hnd) as [Ho Hr].
  destruct (seed_loop cfg (pre ++ nd :: post) sim1) as [s2 o].
  cbn [fst snd] in *. subst o. cbn [fst snd]. repeat split; try assumption.
  rewrite Hn. unfold sim1. cbn [with_num_refugees num_refugees].
  rewrite ?Hnodes, length_app. cbn [List.length]. lia.
Qed.

Lemma seed_unknown_node_witness :
  let cfg := with_seeding 2 [NStr "B"; NStr "Z"; NStr "C"] default_config in
  let out := seed cfg (fst seeded_start) in
  snd out = Raise KeyError
  /\ all_refugees (fst out)
     = all_refugees (fst seeded_start) ++ [new_Ref (NStr "B"); new_Ref (NStr "B")]
  /\ num_refugees (fst out) = 16%Z.
Proof.
  cbv zeta.
  destruct (@seed_unknown_node
              (with_seeding 2 [NStr "B"; NStr "Z"; NStr "C"] default_config)
              (fst seeded_start) [NStr "B"] [NStr "C"] (NStr "Z"))
    as [Ho [Hr Hn]].
  - vm_compute. reflexivity.
  - reflexivity.
  - apply Forall_forall. intros n Hin. vm_compute in Hin.
    destruct Hin as [<-|[]]. vm_compute. auto.
  - vm_compute. intuition discriminate.
  - rewrite Ho, Hr, Hn. repeat split.
Defined.

(** ** Runs of several steps *)




Lemma base_set_node_attributes (A : Type) (set : A -> NodeAttrs -> NodeAttrs)
      (vals : list (NodeId * A)) (g : Graph) :
  (forall v a, weight (set v a) = weight a
               /\ num_conflicts (set v a) = num_conflicts a
               /\ num_camps (set v a) = num_camps a
               /\ location_score (set v a) = location_score a) ->
  base_part (set_node_attributes set vals g) = base_part g.
Proof.
  intro Hset. unfold base_part, set_node_attributes. simpl.
  rewrite map_map. apply map_ext. intros [k a]. simpl.
  destruct (lookup k vals) as [v|]; simpl; [|reflexivity].
  destruct (Hset v a) as [H0 [H1 [H2 H3]]]. now rewrite H0, H1, H2, H3.
Qed.

(** With seeding off a call of [step] changes no weight and no static
    attribute, whatever its outcome. *)
Lemma step_base (cfg : Config) (sim : Sim) (r : Rng) (wr : nat -> Rng) :
  (seed_refs cfg <= 0)%Z ->
  base_part (graph (fst (step cfg sim r wr))) = base_part (graph sim).
Proof.
  intro Hseed. unfold step, step_from.
  destruct (update_norm_weight (graph sim)) as [[g1 nw]| |] eqn:E1; simpl;
    try reflexivity.
  assert (H1 : base_part g1 = base_part (graph sim))
    by (apply update_norm_weight_done in E1; subst g1;
        now apply base_set_node_attributes).
  destruct (update_node_score cfg nw g1) as [g2| |] eqn:E2; simpl;
    try exact H1.
  assert (H2 : base_part g2 = base_part (graph sim)).
  { apply update_node_score_done in E2. destruct E2 as [vals E2]. subst g2.
    rewrite base_set_node_attributes; auto. }
  destruct (run_batches cfg (with_graph g2 sim) r wr) as [[results r1]| |] eqn:E3;
    simpl; try exact H2.
  destruct (run_batches_ref_nodes _ _ _ _ E3) as [Hne Hall].
  destruct (scored_graph cfg _ E1 E2) as [Hk _].
  rewrite merge_keeps_graph; try assumption;
    [|simpl; now rewrite keys_get_node_attributes].
  rewrite seed_disabled by exact Hseed. exact H2.
Qed.





Lemma run_loop_base (cfg : Config) (clock : nat -> Q)
      (wr : nat -> nat -> Rng) (n : nat) :
  (seed_refs cfg <= 0)%Z ->
  forall x sim r total,
    base_part (graph (fst (run_loop cfg n x clock wr sim r total)))
    = base_part (graph sim)
    /\ List.length (all_refugees (fst (run_loop cfg n x clock wr sim r total)))
       = List.length (all_refugees sim).
Proof.
  intro Hseed.
  induction n as [|n IH]; intros x sim r total; simpl; [split; reflexivity|].
  assert (Hb := @step_base cfg sim r (wr x) Hseed).
  assert (Hl := step_social cfg sim r (wr x) Hseed).
  assert (Hlen : List.length (all_refugees (fst (step cfg sim r (wr x))))
                 = List.length (all_refugees sim))
    by (rewrite <- (length_map social), Hl; apply length_map).
  destruct (step cfg sim r (wr x)) as [sim' [r'| e |]]; simpl in *;
    try (split; assumption).
  destruct (IH (S x) sim' r' (total + clock x)%Q) as [H1 H2].
  split; congruence.
Qed.


(** X17.  [Sim.run] on an object with [num_steps] zero: the loop runs no
    step, and the division of the average by the number of steps raises
    ZeroDivisionError; the object is as it was. *)
Theorem run_no_step_raises (cfg : Config) (clock : nat -> Q)
        (wr : nat -> nat -> Rng) (sim : Sim) (r : Rng) :
  num_steps sim = 0%Z ->
  run cfg clock wr sim r = (sim, Raise ZeroDivisionError).
Proof.
  intro H0. unfold run. rewrite H0. simpl. now rewrite H0.
Qed.

Lemma run_no_step_raises_witness :
  num_steps (mkSim calm 0 1 1 0 []) = 0%Z
  /\ run default_config (fun _ => 1%Q) (fun _ => calm_workers)
         (mkSim calm 0 1 1 0 []) spread_tape
     = (mkSim calm 0 1 1 0 [], Raise ZeroDivisionError).
Proof.
  split; [reflexivity|].
  apply (@run_no_step_raises default_config (fun _ => 1%Q)
           (fun _ => calm_workers) (mkSim calm 0 1 1 0 []) spread_tape).
  reflexivity.
Defined.

(** X18.  With seeding off, [Sim.run] leaves the weight of every node, its
    conflict and camp counts and its location score as they were, and the
    number of agents too, for any number of steps and whether the run
    returns or an exception leaves it: the population that the nodes
    report at the end of a run is the population at its start. *)
Theorem run_keeps_weights (cfg : Config) (clock : nat -> Q)
        (wr : nat -> nat -> Rng) (sim : Sim) (r : Rng) :
  (seed_refs cfg <= 0)%Z ->
  base_part (graph (fst (run cfg clock wr sim r))) = base_part (graph sim)
  /\ List.length (all_refugees (fst (run cfg clock wr sim r)))
     = List.length (all_refugees sim).
Proof.
  intro Hseed. unfold run.
  assert (H := @run_loop_base cfg clock wr (Z.to_nat (num_steps sim)) Hseed
                 0%nat sim r 0%Q).
  destruct (run_loop cfg (Z.to_nat (num_steps sim)) 0 clock wr sim r 0%Q)
    as [sim' [[t r']| e |]]; simpl in H; try exact H.
  destruct (num_steps sim' =? 0)%Z; exact H.
Qed.

Lemma run_keeps_weights_witness :
  base_part (graph (fst (run default_config (fun _ => 1%Q)
                             (fun _ => calm_workers) calm_three
                             (snd calm_start))))
  = base_part (graph calm_three)
  /\ List.length (all_refugees (fst (run default_config (fun _ => 1%Q)
                                         (fun _ => calm_workers) calm_three
                                         (snd calm_start))))
     = List.length (all_refugees calm_three).
Proof.
  apply (@run_keeps_weights default_config (fun _ => 1%Q)
           (fun _ => calm_workers) calm_three (snd calm_start)).
  vm_compute. discriminate.
Defined.





(** ** Nobody is left without a link *)

Lemma links_kept_refl (s : Sim) : links_kept s s.
Proof. split; auto. Qed.

Lemma links_kept_trans (s1 s2 s3 : Sim) :
  links_kept s1 s2 -> links_kept s2 s3 -> links_kept s1 s3.
Proof. intros [H1 K1] [H2 K2]. split; [congruence|auto]. Qed.

Lemma link_once_grows (fuel : nat) (k : link) (index : nat) (sim sim' : Sim)
      (r r' : Rng) :
  (index < List.length (all_refugees sim))%nat ->
  link_once fuel k index sim r = Done (sim', r') ->
  links_kept sim sim' /\ exists p, linked (all_refugees sim') k index p.
Proof.
  intros Hidx H. unfold link_once in H.
  destruct (pick_partner fuel index sim r) as [[p r1]| |] eqn:Ep;
    simpl in H; try discriminate.
  destruct (p <? _)%nat eqn:Elt; [|discriminate].
  injection H as <- _. split.
  - unfold links_kept. simpl. split; [now rewrite !update_nth_length|].
    intros k' a b Hl. apply linked_update. left. apply linked_update.
    left. exact Hl.
  - simpl. exists p. apply linked_update. left. apply linked_update.
    right. auto.
Qed.

Lemma link_times_grows (fuel : nat) (k : link) (index : nat) (count : nat) :
  forall sim r sim' r',
    (index < List.length (all_refugees sim))%nat ->
    link_times count fuel k index sim r = Done (sim', r') ->
    links_kept sim sim'
    /\ ((1 <= count)%nat -> exists p, linked (all_refugees sim') k index p).
Proof.
  induction count as [|c IH]; intros sim r sim' r' Hidx H; simpl in H.
  - injection H as <- _. split; [apply links_kept_refl|lia].
  - destruct (link_once fuel k index sim r) as [[s1 r1]| |] eqn:E;
      simpl in H; try discriminate.
    destruct (link_once_grows _ _ _ _ Hidx E) as [K1 [p Hp]].
    assert (Hidx1 : (index < List.length (all_refugees s1))%nat)
      by (destruct K1 as [Hl _]; now rewrite Hl).
    destruct (IH _ _ _ _ Hidx1 H) as [K2 _].
    split; [eapply links_kept_trans; eassumption|].
    intros _. exists p. now apply K2.
Qed.

Lemma defined_count_least (c : count_spec) (n : nat) :
  defined_count c = Done n -> (1 <= least_count c)%Z -> (1 <= n)%nat.
Proof.
  destruct c; simpl; [|discriminate]. intro H. injection H as <-. lia.
Qed.

Lemma random_count_least (c : count_spec) (r r' : Rng) (n : nat) :
  random_count c r = Done (n, r') -> (1 <= least_count c)%Z -> (1 <= n)%nat.
Proof.
  destruct c; simpl; [discriminate|]. unfold randint.
  destruct (hi <? lo)%Z eqn:E; simpl; [discriminate|].
  apply Z.ltb_ge in E. unfold draw. simpl. intro H. injection H as <- _.
  intro Hlo.
  assert (B := Z.mod_pos_bound (tape r (pos r)) (hi - lo + 1)). lia.
Qed.

Lemma create_defined_grows (cfg : Config) (fuel index : nat) (sim sim' : Sim)
      (r r' : Rng) :
  (index < List.length (all_refugees sim))%nat ->
  create_defined_social_links cfg fuel index sim r = Done (sim', r') ->
  links_kept sim sim'
  /\ forall k, (1 <= least_count (count_for cfg k))%Z ->
               exists p, linked (all_refugees sim') k index p.
Proof.
  intros Hidx H. unfold create_defined_social_links in H.
  destruct (defined_count (num_kin cfg)) as [nk| |] eqn:Ek; simpl in H;
    try discriminate.
  destruct (link_times nk fuel Kin index sim r) as [[s1 r1]| |] eqn:E1;
    simpl in H; try discriminate.
  destruct (defined_count (num_friends cfg)) as [nf| |] eqn:Ef; simpl in H;
    try discriminate.
  destruct (@link_times_grows _ _ _ _ _ _ _ _ Hidx E1) as [K1 L1].
  assert (Hidx1 : (index < List.length (all_refugees s1))%nat)
    by (destruct K1 as [Hl _]; now rewrite Hl).
  destruct (@link_times_grows _ _ _ _ _ _ _ _ Hidx1 H) as [K2 L2].
  split; [eapply links_kept_trans; eassumption|].
  intros [|] Hc; simpl in Hc.
  - destruct (L1 (@defined_count_least _ _ Ek Hc)) as [p Hp].
    exists p. now apply K2.
  - exact (L2 (@defined_count_least _ _ Ef Hc)).
Qed.

Lemma create_random_grows (cfg : Config) (fuel index : nat) (sim sim' : Sim)
      (r r' : Rng) :
  (index < List.length (all_refugees sim))%nat ->
  create_random_social_links cfg fuel index sim r = Done (sim', r') ->
  links_kept sim sim'
  /\ forall k, (1 <= least_count (count_for cfg k))%Z ->
               exists p, linked (all_refugees sim') k index p.
Proof.
  intros Hidx H. unfold create_random_social_links in H.
  destruct (random_count (num_kin cfg) r) as [[nk r0]| |] eqn:Ek; simpl in H;
    try discriminate.
  destruct (link_times nk fuel Kin index sim r0) as [[s1 r1]| |] eqn:E1;
    simpl in H; try discriminate.
  destruct (random_count (num_friends cfg) r1) as [[nf r2]| |] eqn:Ef;
    simpl in H; try discriminate.
  destruct (@link_times_grows _ _ _ _ _ _ _ _ Hidx E1) as [K1 L1].
  assert (Hidx1 : (index < List.length (all_refugees s1))%nat)
    by (destruct K1 as [Hl _]; now rewrite Hl).
  destruct (@link_times_grows _ _ _ _ _ _ _ _ Hidx1 H) as [K2 L2].
  split; [eapply links_kept_trans; eassumption|].
  intros [|] Hc; simpl in Hc.
  - destruct (L1 (@random_count_least _ _ _ _ Ek Hc)) as [p Hp].
    exists p. now apply K2.
  - exact (L2 (@random_count_least _ _ _ _ Ef Hc)).
Qed.

Lemma link_all_grows (create : nat -> nat -> Sim -> Rng -> res (Sim * Rng))
      (fuel : nat) (k : link) :
  (forall index sim r sim' r',
      (index < List.length (all_refugees sim))%nat ->
      create fuel index sim r = Done (sim', r') ->
      links_kept sim sim'
      /\ exists p, linked (all_refugees sim') k index p) ->
  forall indices sim r sim' r',
    Forall (fun i => (i < List.length (all_refugees sim))%nat) indices ->
    link_all create fuel indices sim r = Done (sim', r') ->
    links_kept sim sim'
    /\ forall i, In i indices -> exists p, linked (all_refugees sim') k i p.
Proof.
  intros Hcreate. induction indices as [|i rest IH];
    intros sim r sim' r' Hall H; simpl in H.
  - injection H as <- _. split; [apply links_kept_refl|contradiction].
  - destruct (create fuel i sim r) as [[s1 r1]| |] eqn:E; simpl in H;
      try discriminate.
    inversion Hall as [|? ? Hi Hrest]; subst.
    destruct (Hcreate _ _ _ _ _ Hi E) as [K1 [p Hp]].
    assert (Hrest1 : Forall (fun j => (j < List.length (all_refugees s1))%nat)
                            rest)
      by (destruct K1 as [Hl _]; now rewrite Hl).
    destruct (IH _ _ _ _ Hrest1 H) as [K2 L2].
    split; [eapply links_kept_trans; eassumption|].
    intros j [<-|Hj]; [exists p; now apply K2|now apply L2].
Qed.

(** X20.  When the construction of the simulation returns and the
    configured count of a kind of link is at least one (the integer, or the
    lower end of the pair), every agent has a link of that kind: the loop
    of an agent runs at least once, and no later assignment removes a
    link. *)
Theorem Sim_init_everyone_linked
        (cfg : Config) (g : Graph) (steps processes batches : Z)
        (fuel : nat) (r r' : Rng) (sim : Sim) (k : link) :
  (1 <= least_count (count_for cfg k))%Z ->
  Sim_init cfg g steps processes batches fuel r = Done (sim, r') ->
  forall i, (i < List.length (all_refugees sim))%nat ->
            exists p, linked (all_refugees sim) k i p.
Proof.
  intros Hc H i Hi. unfold Sim_init in H.
  set (refs := flat_map _ (g_nodes g)) in H.
  set (sim0 := mkSim g steps processes batches _ refs) in H.
  assert (Hidx : Forall (fun i => (i < List.length (all_refugees sim0))%nat)
                        (seq 0 (List.length refs))).
  { apply Forall_forall. intros j Hj. apply in_seq in Hj. simpl. lia. }
  assert (HL : links_kept sim0 sim
               /\ forall j, In j (seq 0 (List.length refs)) ->
                            exists p, linked (all_refugees sim) k j p).
  { destruct (num_friends cfg).
    - eapply (@link_all_grows (create_defined_social_links cfg) fuel k);
        [|exact Hidx|exact H].
      intros index s r0 s' r1 Hlt E.
      destruct (@create_defined_grows cfg fuel index s s' r0 r1 Hlt E) as [K L].
      split; [exact K|now apply L].
    - eapply (@link_all_grows (create_random_social_links cfg) fuel k);
        [|exact Hidx|exact H].
      intros index s r0 s' r1 Hlt E.
      destruct (@create_random_grows cfg fuel index s s' r0 r1 Hlt E) as [K L].
      split; [exact K|now apply L]. }
  destruct HL as [[Hlen _] L]. apply L. apply in_seq.
  simpl in Hlen. lia.
Qed.

Lemma Sim_init_everyone_linked_witness :
  exists p, linked (all_refugees (fst calm_start)) Kin 0 p.
Proof.
  apply (@Sim_init_everyone_linked default_config calm 1 1 1 8 spread_tape
           (snd calm_start) (fst calm_start) Kin).
  - vm_compute. discriminate.
  - vm_compute. reflexivity.
  - vm_compute. lia.
Defined.

(** ** A step on the pool and a step with a single loop *)





